(** * shm_dict: a dictionary in POSIX shared memory behind a named semaphore

    A shallow embedding of [shm_dict/shm_dict.py] (class [SHMDict]) under
    Python 3 semantics, and the properties of its naming function, its
    lock manager, its load/save protocol and its mapping operations.

    Layout: Part I holds the definitions (byte helpers, the hashing and
    encoding functions the naming function calls, Python values, the state
    of a process and of the operating system, the methods of [SHMDict]
    in a state-and-exception monad, a concrete pickle codec used to run
    the model).  Part II holds the lemmas and theorems.

    What the model covers. A process is one handle with the dict objects
    it refers to; the semaphores, the segments and the files belong to a
    world that processes share, and the processes take turns. Time is
    the number of seconds spent blocked in an acquire, and the timeout
    of a handle is an integer number of seconds. The position of
    the mapping is left out: every read and write of the program comes
    right after [seek(0)]. The destructor and the two comparison methods
    take no lock; a mapping that outlives the unlinking of its segment
    is left out. *)

From Stdlib Require Import NArith ZArith Lia List Strings.Byte Ascii String.
From stdpp Require Import base option list gmap strings.
Import ListNotations.

Set Default Proof Using "Type".

(* ===================================================================== *)
(** * Part I: definitions *)
(* ===================================================================== *)

(** ** Bytes and Python strings *)

(** A Python [bytes] value is a [list byte]. A Python 3 [str] is a
    sequence of code points. *)
Abbreviation pystr := (list N).

Definition byte_of_N (n : N) : byte :=
  match Byte.of_N (n mod 256) with
  | Some b => b
  | None => x00
  end.

(** The code points of an ASCII literal. *)
Definition str_of_bytes (bs : list byte) : pystr := map Byte.to_N bs.

Definition lit (s : string) : pystr := str_of_bytes (list_byte_of_string s).

(** ** [str.encode("utf-8")] *)

(** Python raises [UnicodeEncodeError] on a lone surrogate; a code point
    above U+10FFFF cannot occur in a [str]. [None] stands for the error. *)
Module Utf8.
Local Open Scope N_scope.

Definition cont (n : N) : byte := byte_of_N (128 + n mod 64).

Definition is_surrogate (c : N) : bool := (55296 <=? c) && (c <? 57344).

(** [pass] is the error handler ["surrogatepass"], which pickle uses:
    surrogates are then encoded like any three-byte code point. *)
Definition encode_char (pass : bool) (c : N) : option (list byte) :=
  if c <? 128 then Some [byte_of_N c]
  else if c <? 2048 then Some [byte_of_N (192 + c / 64); cont c]
  else if is_surrogate c && negb pass then None
  else if c <? 65536 then
    Some [byte_of_N (224 + c / 4096); cont (c / 64); cont c]
  else if c <? 1114112 then
    Some [byte_of_N (240 + c / 262144); cont (c / 4096); cont (c / 64); cont c]
  else None.

Fixpoint encode (pass : bool) (s : pystr) : option (list byte) :=
  match s with
  | [] => Some []
  | c :: s' =>
      match encode_char pass c, encode pass s' with
      | Some bs, Some rest => Some (bs ++ rest)
      | _, _ => None
      end
  end.

(** [bytes.decode("utf-8")]: shortest form only, nothing above
    U+10FFFF, surrogates only under ["surrogatepass"]. [None] stands
    for [UnicodeDecodeError]. *)
Definition is_cont (b : byte) : bool :=
  let n := Byte.to_N b in (128 <=? n) && (n <? 192).

Definition low6 (b : byte) : N := Byte.to_N b mod 64.

Fixpoint decode_fuel (pass : bool) (fuel : nat) (bs : list byte)
    : option pystr :=
  match fuel with
  | O => match bs with [] => Some [] | _ => None end
  | S fuel' =>
      match bs with
      | [] => Some []
      | b0 :: r0 =>
          let n0 := Byte.to_N b0 in
          if n0 <? 128 then cons n0 <$> decode_fuel pass fuel' r0
          else if n0 <? 192 then None
          else if n0 <? 224 then
            match r0 with
            | b1 :: r1 =>
                let c := (n0 - 192) * 64 + low6 b1 in
                if is_cont b1 && (128 <=? c)
                then cons c <$> decode_fuel pass fuel' r1 else None
            | _ => None
            end
          else if n0 <? 240 then
            match r0 with
            | b1 :: b2 :: r2 =>
                let c := (n0 - 224) * 4096 + low6 b1 * 64 + low6 b2 in
                if is_cont b1 && is_cont b2 && (2048 <=? c)
                   && (pass || negb (is_surrogate c))
                then cons c <$> decode_fuel pass fuel' r2 else None
            | _ => None
            end
          else if n0 <? 248 then
            match r0 with
            | b1 :: b2 :: b3 :: r3 =>
                let c := (n0 - 240) * 262144 + low6 b1 * 4096
                         + low6 b2 * 64 + low6 b3 in
                if is_cont b1 && is_cont b2 && is_cont b3
                   && (65536 <=? c) && (c <? 1114112)
                then cons c <$> decode_fuel pass fuel' r3 else None
            | _ => None
            end
          else None
      end
  end.

Definition decode (pass : bool) (bs : list byte) : option pystr :=
  decode_fuel pass (length bs) bs.
End Utf8.

(** ** [hashlib.sha512] (FIPS 180-4) *)

Module Sha512.
Local Open Scope N_scope.

Definition mask64 : N := N.ones 64.
Definition add64 (x y : N) : N := N.land (x + y) mask64.
Definition rotr (k x : N) : N :=
  N.lor (N.shiftr x k) (N.land (N.shiftl x (64 - k)) mask64).
Definition not64 (x : N) : N := N.lxor x mask64.

Definition Ch (x y z : N) : N :=
  N.lxor (N.land x y) (N.land (not64 x) z).
Definition Maj (x y z : N) : N :=
  N.lxor (N.lxor (N.land x y) (N.land x z)) (N.land y z).
Definition Sigma0 (x : N) : N :=
  N.lxor (N.lxor (rotr 28 x) (rotr 34 x)) (rotr 39 x).
Definition Sigma1 (x : N) : N :=
  N.lxor (N.lxor (rotr 14 x) (rotr 18 x)) (rotr 41 x).
Definition sigma0 (x : N) : N :=
  N.lxor (N.lxor (rotr 1 x) (rotr 8 x)) (N.shiftr x 7).
Definition sigma1 (x : N) : N :=
  N.lxor (N.lxor (rotr 19 x) (rotr 61 x)) (N.shiftr x 6).

Definition K : list N :=
 [0x428a2f98d728ae22; 0x7137449123ef65cd; 0xb5c0fbcfec4d3b2f; 0xe9b5dba58189dbbc;
  0x3956c25bf348b538; 0x59f111f1b605d019; 0x923f82a4af194f9b; 0xab1c5ed5da6d8118;
  0xd807aa98a3030242; 0x12835b0145706fbe; 0x243185be4ee4b28c; 0x550c7dc3d5ffb4e2;
  0x72be5d74f27b896f; 0x80deb1fe3b1696b1; 0x9bdc06a725c71235; 0xc19bf174cf692694;
  0xe49b69c19ef14ad2; 0xefbe4786384f25e3; 0x0fc19dc68b8cd5b5; 0x240ca1cc77ac9c65;
  0x2de92c6f592b0275; 0x4a7484aa6ea6e483; 0x5cb0a9dcbd41fbd4; 0x76f988da831153b5;
  0x983e5152ee66dfab; 0xa831c66d2db43210; 0xb00327c898fb213f; 0xbf597fc7beef0ee4;
  0xc6e00bf33da88fc2; 0xd5a79147930aa725; 0x06ca6351e003826f; 0x142929670a0e6e70;
  0x27b70a8546d22ffc; 0x2e1b21385c26c926; 0x4d2c6dfc5ac42aed; 0x53380d139d95b3df;
  0x650a73548baf63de; 0x766a0abb3c77b2a8; 0x81c2c92e47edaee6; 0x92722c851482353b;
  0xa2bfe8a14cf10364; 0xa81a664bbc423001; 0xc24b8b70d0f89791; 0xc76c51a30654be30;
  0xd192e819d6ef5218; 0xd69906245565a910; 0xf40e35855771202a; 0x106aa07032bbd1b8;
  0x19a4c116b8d2d0c8; 0x1e376c085141ab53; 0x2748774cdf8eeb99; 0x34b0bcb5e19b48a8;
  0x391c0cb3c5c95a63; 0x4ed8aa4ae3418acb; 0x5b9cca4f7763e373; 0x682e6ff3d6b2b8a3;
  0x748f82ee5defb2fc; 0x78a5636f43172f60; 0x84c87814a1f0ab72; 0x8cc702081a6439ec;
  0x90befffa23631e28; 0xa4506cebde82bde9; 0xbef9a3f7b2c67915; 0xc67178f2e372532b;
  0xca273eceea26619c; 0xd186b8c721c0c207; 0xeada7dd6cde0eb1e; 0xf57d4f7fee6ed178;
  0x06f067aa72176fba; 0x0a637dc5a2c898a6; 0x113f9804bef90dae; 0x1b710b35131c471b;
  0x28db77f523047d84; 0x32caab7b40c72493; 0x3c9ebe0a15c9bebc; 0x431d67c49c100d4c;
  0x4cc5d4becb3e42b6; 0x597f299cfc657e2a; 0x5fcb6fab3ad6faec; 0x6c44198c4a475817].

Definition H0 : list N :=
 [0x6a09e667f3bcc908; 0xbb67ae8584caa73b; 0x3c6ef372fe94f82b; 0xa54ff53a5f1d36f1;
  0x510e527fade682d1; 0x9b05688c2b3e6c1f; 0x1f83d9abfb41bd6b; 0x5be0cd19137e2179].

(** Big-endian conversions. *)
Definition be_to_N (bs : list byte) : N :=
  fold_left (fun acc b => acc * 256 + Byte.to_N b) bs 0.

Fixpoint N_to_be (len : nat) (x : N) : list byte :=
  match len with
  | O => []
  | S len' => N_to_be len' (x / 256) ++ [byte_of_N x]
  end.

(** Padding: a 1 bit, zeros up to 112 modulo 128 bytes, then the bit
    length on 128 bits. *)
Definition pad (msg : list byte) : list byte :=
  let len := N.of_nat (length msg) in
  let zeros := N.to_nat ((128 + 111 - len mod 128) mod 128) in
  msg ++ [x80] ++ repeat x00 zeros ++ N_to_be 16 (8 * len).

Fixpoint chunks (n : nat) (size : nat) (bs : list byte) : list (list byte) :=
  match n with
  | O => []
  | S n' => take size bs :: chunks n' size (drop size bs)
  end.

Definition blocks (bs : list byte) : list (list byte) :=
  chunks (length bs / 128) 128 bs.

Definition words (block : list byte) : list N :=
  map be_to_N (chunks 16 8 block).

(** The message schedule, most recent word first. *)
Fixpoint schedule (n : nat) (w : list N) : list N :=
  match n with
  | O => w
  | S n' =>
      let wt := add64 (add64 (sigma1 (nth 1 w 0)) (nth 6 w 0))
                      (add64 (sigma0 (nth 14 w 0)) (nth 15 w 0)) in
      schedule n' (wt :: w)
  end.

Definition expand (block : list byte) : list N :=
  rev (schedule 64 (rev (words block))).

Record regs := Regs { ra : N; rb : N; rc : N; rd : N;
                      re : N; rf : N; rg : N; rh : N }.

Definition round (s : regs) (kw : N * N) : regs :=
  let t1 := add64 (add64 (add64 (rh s) (Sigma1 (re s)))
                         (add64 (Ch (re s) (rf s) (rg s)) (fst kw))) (snd kw) in
  let t2 := add64 (Sigma0 (ra s)) (Maj (ra s) (rb s) (rc s)) in
  Regs (add64 t1 t2) (ra s) (rb s) (rc s) (add64 (rd s) t1) (re s) (rf s) (rg s).

Definition compress (h : regs) (block : list byte) : regs :=
  let s := fold_left round (combine K (expand block)) h in
  Regs (add64 (ra h) (ra s)) (add64 (rb h) (rb s))
       (add64 (rc h) (rc s)) (add64 (rd h) (rd s))
       (add64 (re h) (re s)) (add64 (rf h) (rf s))
       (add64 (rg h) (rg s)) (add64 (rh h) (rh s)).

Definition init : regs :=
  Regs (nth 0 H0 0) (nth 1 H0 0) (nth 2 H0 0) (nth 3 H0 0)
       (nth 4 H0 0) (nth 5 H0 0) (nth 6 H0 0) (nth 7 H0 0).

Definition output (h : regs) : list byte :=
  concat (map (N_to_be 8)
    [ra h; rb h; rc h; rd h; re h; rf h; rg h; rh h]).

Definition digest (msg : list byte) : list byte :=
  output (fold_left compress (blocks (pad msg)) init).
End Sha512.

(** ** [base64.urlsafe_b64encode] *)

Module Base64.
Local Open Scope N_scope.

(** The URL-safe alphabet of RFC 4648: A-Z, a-z, 0-9, '-', '_'. *)
Definition alphabet (i : N) : byte :=
  if i <? 26 then byte_of_N (65 + i)
  else if i <? 52 then byte_of_N (97 + (i - 26))
  else if i <? 62 then byte_of_N (48 + (i - 52))
  else if i =? 62 then "-"%byte
  else "_"%byte.

Definition pad_char : byte := "="%byte.

Fixpoint urlsafe_b64encode (bs : list byte) : list byte :=
  match bs with
  | [] => []
  | [a] =>
      let x := Byte.to_N a in
      [alphabet (x / 4); alphabet (x mod 4 * 16); pad_char; pad_char]
  | [a; b] =>
      let x := Byte.to_N a in
      let y := Byte.to_N b in
      [alphabet (x / 4); alphabet (x mod 4 * 16 + y / 16);
       alphabet (y mod 16 * 4); pad_char]
  | a :: b :: c :: rest =>
      let x := Byte.to_N a in
      let y := Byte.to_N b in
      let z := Byte.to_N c in
      alphabet (x / 4) :: alphabet (x mod 4 * 16 + y / 16)
        :: alphabet (y mod 16 * 4 + z / 64) :: alphabet (z mod 64)
        :: urlsafe_b64encode rest
  end.
End Base64.

(** ** [str(bytes)], used by ["/{}".format(b64_encode)]

    In Python 3, formatting a [bytes] object with an empty format spec
    gives its [repr]: the letter b, a quote, the escaped bytes and the
    closing quote. The quote is a double quote when the bytes contain a
    single quote and no double quote. *)
Module BytesRepr.
Local Open Scope N_scope.

Definition hexdigit (n : N) : N :=
  if n <? 10 then 48 + n else 97 + (n - 10).

Definition escape (quote : N) (b : byte) : pystr :=
  let n := Byte.to_N b in
  if (n =? quote) || (n =? 92) then [92; n]
  else if n =? 9 then [92; 116]
  else if n =? 10 then [92; 110]
  else if n =? 13 then [92; 114]
  else if (n <? 32) || (127 <=? n) then [92; 120; hexdigit (n / 16); hexdigit (n mod 16)]
  else [n].

Definition has (q : N) (bs : list byte) : bool :=
  existsb (fun b => Byte.to_N b =? q) bs.

Definition bytes_repr (bs : list byte) : pystr :=
  let quote := if has 39 bs && negb (has 34 bs) then 34 else 39 in
  [98; quote] ++ concat (map (escape quote) bs) ++ [quote].
End BytesRepr.

(** ** Python values

    The dictionary holds keys and values that are [None], integers or
    strings. A [dict] keeps its items in insertion order. *)

Inductive pyval : Type :=
  | VNone
  | VInt (z : Z)
  | VStr (s : pystr).

Abbreviation pydict := (list (pyval * pyval)).

(** What [pickle.load] can hand to [__internal_dict]: the model covers
    [None], an integer and a flat dictionary. *)
Inductive pyobj : Type :=
  | ONone
  | OInt (z : Z)
  | ODict (d : pydict).

#[global] Instance pyval_eq_dec : EqDecision pyval.
Proof. solve_decision. Defined.

#[global] Instance pyobj_eq_dec : EqDecision pyobj.
Proof. solve_decision. Defined.

(** [d[k]], [d[k] = v], [del d[k]], [k in d] on the items of a dict. *)
Fixpoint dict_get (k : pyval) (d : pydict) : option pyval :=
  match d with
  | [] => None
  | (k', v) :: d' => if decide (k' = k) then Some v else dict_get k d'
  end.

Fixpoint dict_set (k v : pyval) (d : pydict) : pydict :=
  match d with
  | [] => [(k, v)]
  | (k', v') :: d' =>
      if decide (k' = k) then (k', v) :: d' else (k', v') :: dict_set k v d'
  end.

Fixpoint dict_del (k : pyval) (d : pydict) : pydict :=
  match d with
  | [] => []
  | (k', v') :: d' =>
      if decide (k' = k) then d' else (k', v') :: dict_del k d'
  end.

Definition dict_has (k : pyval) (d : pydict) : bool :=
  bool_decide (is_Some (dict_get k d)).

Definition dict_keys (d : pydict) : list pyval := map fst d.

(** ** Exceptions and results *)

Inductive exn : Type :=
  | KeyError | UnpicklingError | EOFError       (* caught by [__load_dict] *)
  | ValueError | UnicodeDecodeError | UnicodeEncodeError
  | TypeError | AttributeError | RuntimeError | StopIteration
  | IOError                                      (* [OSError] and subclasses *)
  | BusyError | ExistentialError                 (* [posix_ipc] *)
  | Unmodelled.                                  (* outside the model *)

#[global] Instance exn_eq_dec : EqDecision exn.
Proof. solve_decision. Defined.

Inductive res (A : Type) : Type :=
  | Ret (a : A)
  | Raise (e : exn).
Arguments Ret {A} a.
Arguments Raise {A} e.

(** ** The operating system: named semaphores, named segments, files *)

Inductive fnode : Type :=
  | FFile (content : list byte)   (* a regular file that can be opened *)
  | FDenied.                      (* a path that [open] refuses *)

Record world : Type := World {
  sems : gmap pystr Z;            (* value of each named semaphore *)
  shms : gmap pystr (list byte);  (* bytes of each named segment *)
  files : gmap pystr fnode;       (* the file system, by path *)
  waited : Z;                     (* seconds spent blocked in acquire *)
}.

(** ** A process: one [SHMDict] object and the dict objects it refers to *)

(** A reference held in [__internal_dict]: dict objects live in the heap,
    so that an iterator and the handle can share one. *)
Inductive pyref : Type :=
  | RNone
  | RInt (z : Z)
  | RDict (l : nat).

Record handle : Type := Handle {
  name : pystr;
  persist_file : option pystr;
  lock_timeout : Z;
  auto_unlock : bool;
  _semaphore : option pystr;      (* the opened Semaphore, by its name *)
  _map_file : option pystr;       (* the mmap object, by its segment *)
  __thread_local : gmap nat bool; (* attribute [semaphore], per thread *)
  __internal_dict : pyref;
  __dirty : bool;
}.

Record state : Type := State {
  self : handle;
  heap : list pydict;
  os : world;
}.

Definition deref (hp : list pydict) (r : pyref) : pyobj :=
  match r with
  | RNone => ONone
  | RInt z => OInt z
  | RDict l => ODict (default [] (hp !! l))
  end.

(** ** What the program takes from its platform

    [mmap.PAGESIZE] (equal to [posix_ipc.PAGE_SIZE]), the pickle codec
    and the path functions of [os.path] are not part of the program. *)
Class Platform : Type := {
  PAGESIZE : positive;
  pickle_dumps : pyobj -> list byte;     (* [pickle.dumps(o)] *)
  pickle_dumps_2 : pyobj -> list byte;   (* [pickle.dumps(o, 2)] *)
  pickle_load : list byte -> res pyobj;
  os_path_resolve : pystr -> pystr;
}.

(** ** The state-and-exception monad of the methods *)

Definition M (A : Type) : Type := state -> res A * state.

Definition ret {A} (a : A) : M A := fun st => (Ret a, st).
Definition raise {A} (e : exn) : M A := fun st => (Raise e, st).
Definition bind {A B} (c : M A) (k : A -> M B) : M B :=
  fun st =>
    match c st with
    | (Ret a, st') => k a st'
    | (Raise e, st') => (Raise e, st')
    end.
Definition get : M state := fun st => (Ret st, st).
Definition put (st : state) : M unit := fun _ => (Ret tt, st).
Definition lift {A} (r : res A) : M A := fun st => (r, st).

(** [try: c except <classes>: pass] *)
Definition try_pass (caught : exn -> bool) (c : M unit) : M unit :=
  fun st =>
    match c st with
    | (Raise e, st') => if caught e then (Ret tt, st') else (Raise e, st')
    | r => r
    end.

Declare Scope py_scope.
Delimit Scope py_scope with py.
Notation "x <- c ;; k" := (bind c (fun x => k))
  (at level 100, c at next level, right associativity) : py_scope.
Notation "c ;; k" := (bind c (fun _ => k))
  (at level 100, right associativity) : py_scope.
Local Open Scope py_scope.

Definition set_self (f : handle -> handle) : M unit :=
  fun st => (Ret tt, State (f (self st)) (heap st) (os st)).
Definition set_os (f : world -> world) : M unit :=
  fun st => (Ret tt, State (self st) (heap st) (f (os st))).
Definition set_heap (f : list pydict -> list pydict) : M unit :=
  fun st => (Ret tt, State (self st) (f (heap st)) (os st)).

(** [try: c except: handler], where [handler e = None] when no clause
    matches [e]. *)
Definition try_except {A} (c : M A) (handler : exn -> option (M A)) : M A :=
  fun st =>
    match c st with
    | (Raise e, st') =>
        match handler e with
        | Some k => k st'
        | None => (Raise e, st')
        end
    | r => r
    end.

(** Field updates. *)
Definition with_semaphore (s : option pystr) (h : handle) : handle :=
  Handle (name h) (persist_file h) (lock_timeout h) (auto_unlock h)
         s (_map_file h) (__thread_local h) (__internal_dict h) (__dirty h).
Definition with_map_file (m : option pystr) (h : handle) : handle :=
  Handle (name h) (persist_file h) (lock_timeout h) (auto_unlock h)
         (_semaphore h) m (__thread_local h) (__internal_dict h) (__dirty h).
Definition with_thread_local (t : gmap nat bool) (h : handle) : handle :=
  Handle (name h) (persist_file h) (lock_timeout h) (auto_unlock h)
         (_semaphore h) (_map_file h) t (__internal_dict h) (__dirty h).
Definition with_internal_dict (r : pyref) (h : handle) : handle :=
  Handle (name h) (persist_file h) (lock_timeout h) (auto_unlock h)
         (_semaphore h) (_map_file h) (__thread_local h) r (__dirty h).
Definition with_dirty (b : bool) (h : handle) : handle :=
  Handle (name h) (persist_file h) (lock_timeout h) (auto_unlock h)
         (_semaphore h) (_map_file h) (__thread_local h) (__internal_dict h) b.

Definition with_sems (s : gmap pystr Z) (w : world) : world :=
  World s (shms w) (files w) (waited w).
Definition with_shms (s : gmap pystr (list byte)) (w : world) : world :=
  World (sems w) s (files w) (waited w).
Definition with_files (f : gmap pystr fnode) (w : world) : world :=
  World (sems w) (shms w) f (waited w).
Definition with_waited (t : Z) (w : world) : world :=
  World (sems w) (shms w) (files w) t.

(** ** The collaborators: [posix_ipc], [mmap], files *)

(** [ftruncate]: cut, or extend with zero bytes. *)
Definition resize_bytes (n : nat) (bs : list byte) : list byte :=
  take n bs ++ repeat x00 (n - length bs).

(** [mmap.write] at position 0. *)
Definition overwrite (payload bs : list byte) : list byte :=
  payload ++ drop (length payload) bs.

(** [Semaphore.acquire(timeout)]: a negative timeout is refused with
    [TypeError] before the semaphore is looked at. Otherwise the call
    takes the semaphore when its value is positive; when it is not, it
    waits for [timeout] seconds (not at all when the timeout is 0) and
    raises [BusyError]. A process that gets the semaphore while waiting
    is the interleaving in which the release comes first. *)
Definition sem_acquire (nm : pystr) (timeout : Z) : M unit :=
  if decide (timeout < 0)%Z then raise TypeError
  else
    st <- get;;
    match sems (os st) !! nm with
    | Some v =>
        if decide (0 < v)%Z
        then set_os (with_sems (<[nm := (v - 1)%Z]> (sems (os st))))
        else set_os (with_waited (waited (os st) + timeout)%Z);;
             raise BusyError
    | None => raise ExistentialError
    end.

(** [Semaphore.release()] *)
Definition sem_release (nm : pystr) : M unit :=
  st <- get;;
  match sems (os st) !! nm with
  | Some v => set_os (with_sems (<[nm := (v + 1)%Z]> (sems (os st))))
  | None => raise ExistentialError
  end.

(** [mmap.resize(n)]: truncates the segment behind the mapping. *)
Definition mmap_resize (nm : pystr) (n : nat) : M unit :=
  st <- get;;
  match shms (os st) !! nm with
  | Some bs => set_os (with_shms (<[nm := resize_bytes n bs]> (shms (os st))))
  | None => raise ValueError
  end.

Definition mmap_read (nm : pystr) : M (list byte) :=
  st <- get;;
  match shms (os st) !! nm with
  | Some bs => ret bs
  | None => raise ValueError
  end.

(** [seek(0)] then [write(payload)]: refused when the payload does not
    fit in the mapping. *)
Definition mmap_write (nm : pystr) (payload : list byte) : M unit :=
  st <- get;;
  match shms (os st) !! nm with
  | Some bs =>
      if decide (length payload <= length bs)
      then set_os (with_shms (<[nm := overwrite payload bs]> (shms (os st))))
      else raise ValueError
  | None => raise ValueError
  end.

(** [open(path, "rb").read()] *)
Definition file_read (path : pystr) : M (list byte) :=
  st <- get;;
  match files (os st) !! path with
  | Some (FFile bs) => ret bs
  | _ => raise IOError
  end.

(** [open(path, "wb").write(payload)]: a full overwrite. *)
Definition file_write (path : pystr) (payload : list byte) : M unit :=
  st <- get;;
  match files (os st) !! path with
  | Some FDenied => raise IOError
  | _ => set_os (with_files (<[path := FFile payload]> (files (os st))))
  end.

(** A new dict object. *)
Definition alloc (d : pydict) : M pyref :=
  st <- get;;
  set_heap (fun hp => hp ++ [d]);;
  ret (RDict (length (heap st))).

(** The object a [pickle.load] returns, as a reference. *)
Definition new_object (o : pyobj) : M pyref :=
  match o with
  | ONone => ret RNone
  | OInt z => ret (RInt z)
  | ODict d => alloc d
  end.

(** ** The methods of [SHMDict] *)

Section SHMDict.
Context {P : Platform}.

(** [__init__], run by thread [tid]. The thread-local attribute
    [semaphore] is set in that thread only. *)
Definition __init__ (tid : nat) (nm : pystr) (persist : bool)
    (timeout : Z) (unlock : bool) : handle :=
  {| name := nm;
     persist_file := if persist then Some (os_path_resolve nm) else None;
     lock_timeout := timeout;
     auto_unlock := unlock;
     _semaphore := None;
     _map_file := None;
     __thread_local := {[ tid := false ]};
     __internal_dict := RNone;
     __dirty := false |}.

(** [_safe_name]: ["/{}".format(urlsafe_b64encode(sha512(
    "_".join([prefix, str(self.name)]).encode("utf-8")).digest()))]. *)
Definition _safe_name (h : handle) (prefix : pystr) : res pystr :=
  match Utf8.encode false (prefix ++ lit "_" ++ name h) with
  | None => Raise UnicodeEncodeError
  | Some bs =>
      Ret (lit "/" ++
           BytesRepr.bytes_repr (Base64.urlsafe_b64encode (Sha512.digest bs)))
  end.

Definition safe_sem_name (h : handle) : res pystr := _safe_name h (lit "sem").
Definition safe_shm_name (h : handle) : res pystr := _safe_name h (lit "shm").

(** Property [semaphore]: the cached object, or open the named
    semaphore, creating it with value 1 when it does not exist. *)
Definition semaphore : M pystr :=
  st <- get;;
  match _semaphore (self st) with
  | Some nm => ret nm
  | None =>
      nm <- lift (safe_sem_name (self st));;
      match sems (os st) !! nm with
      | Some _ => ret tt
      | None => set_os (with_sems (<[nm := 1%Z]> (sems (os st))))
      end;;
      set_self (with_semaphore (Some nm));;
      ret nm
  end.

(** Property [shared_mem]: open the named segment with
    [size=len(pickle.dumps(self.__internal_dict))], which truncates an
    existing segment to that size when it is not 0; or create it with
    one page. Returns the segment's name and size. *)
Definition shared_mem : M (pystr * nat) :=
  st <- get;;
  nm <- lift (safe_shm_name (self st));;
  let size := length (pickle_dumps
                        (deref (heap st) (__internal_dict (self st)))) in
  match shms (os st) !! nm with
  | Some bs =>
      if decide (size = 0) then ret (nm, length bs)
      else set_os (with_shms (<[nm := resize_bytes size bs]> (shms (os st))));;
           ret (nm, size)
  | None =>
      set_os (with_shms (<[nm := repeat x00 (Pos.to_nat PAGESIZE)]> (shms (os st))));;
      ret (nm, Pos.to_nat PAGESIZE)
  end.

(** [int(ceil(float(n) / mmap.PAGESIZE) * mmap.PAGESIZE)] *)
Definition page_round (n : nat) : nat :=
  (n + Pos.to_nat PAGESIZE - 1) / Pos.to_nat PAGESIZE * Pos.to_nat PAGESIZE.

(** Property [map_file]: create the mapping once, then on every access
    resize it to the page-rounded length of the pickled cache. *)
Definition map_file : M pystr :=
  st <- get;;
  nm <- match _map_file (self st) with
        | Some nm => ret nm
        | None =>
            fd <- shared_mem;;
            sz <- shared_mem;;
            set_self (with_map_file (Some (fst fd)));;
            _ <- shared_mem;;
            ret (fst fd)
        end;;
  st <- get;;
  mmap_resize nm
    (page_round (length (pickle_dumps_2
                           (deref (heap st) (__internal_dict (self st))))));;
  ret nm.

Definition load_caught (e : exn) : bool :=
  match e with
  | KeyError | UnpicklingError | EOFError => true
  | _ => false
  end.

Definition is_IOError (e : exn) : bool :=
  match e with IOError => true | _ => false end.

Definition is_None (r : pyref) : bool :=
  match r with RNone => true | _ => false end.

(** [pickle.load] from a byte source into [__internal_dict]. *)
Definition unpickle_into_cache (bs : list byte) : M unit :=
  o <- lift (pickle_load bs);;
  r <- new_object o;;
  set_self (with_internal_dict r).

(** [__load_dict], in the three steps of the source. First: read in
    the internal data from the map file. *)
Definition load_from_segment : M unit :=
  _ <- map_file;;                                   (* self.map_file.seek(0) *)
  try_pass load_caught
    (nm <- map_file;;
     bs <- mmap_read nm;;
     unpickle_into_cache bs).

(** Second: if nothing is there and the dictionary is persistent,
    load from disk. *)
Definition load_from_file : M unit :=
  st <- get;;
  match is_None (__internal_dict (self st)), persist_file (self st) with
  | true, Some path =>
      try_pass is_IOError
        (bs <- file_read path;;
         unpickle_into_cache bs)
  | _, _ => ret tt
  end.

(** Third: if there is still nothing, create a new empty dictionary. *)
Definition load_default : M unit :=
  st <- get;;
  if is_None (__internal_dict (self st))
  then r <- alloc [];; set_self (with_internal_dict r)
  else ret tt.

Definition __load_dict : M unit :=
  load_from_segment;;
  load_from_file;;
  load_default.

Definition __save_dict : M unit :=
  st <- get;;
  (if __dirty (self st) then
     _ <- map_file;;                                (* self.map_file.seek(0) *)
     st1 <- get;;
     let cache := deref (heap st1) (__internal_dict (self st1)) in
     nm <- map_file;;
     mmap_write nm (pickle_dumps_2 cache);;
     match persist_file (self st1) with
     | Some path => file_write path (pickle_dumps_2 cache)
     | None => ret tt
     end
   else ret tt);;
  set_self (with_dirty false).

Definition set_held (tid : nat) (b : bool) : M unit :=
  set_self (fun h => with_thread_local (<[tid := b]> (__thread_local h)) h).

Definition _acquire_lock (tid : nat) : M unit :=
  st <- get;;
  match __thread_local (self st) !! tid with
  | None => raise AttributeError
  | Some false =>
      try_except
        (nm <- semaphore;;
         sem_acquire nm (lock_timeout (self st));;
         set_held tid true)
        (fun e =>
           match e with
           | BusyError =>
               Some (if auto_unlock (self st) then set_held tid true
                     else raise BusyError)
           | _ => None
           end)
  | Some true => ret tt
  end;;
  __load_dict.

Definition _release_lock (tid : nat) : M unit :=
  st <- get;;
  match __thread_local (self st) !! tid with
  | None => raise AttributeError
  | Some true =>
      __save_dict;;
      nm <- semaphore;;
      sem_release nm;;
      set_held tid false
  | Some false => ret tt
  end.

(** [with self.exclusive_lock(): body]. The context manager has no
    [try]: an exception in the body skips the release. *)
Definition exclusive_lock {A} (tid : nat) (body : M A) : M A :=
  _acquire_lock tid;;
  r <- body;;
  _release_lock tid;;
  ret r.
End SHMDict.

(** ** Dict iterators

    [iter(d)] on a dict gives a key iterator that refers to the dict
    object itself. [next] raises [RuntimeError] once the dict's size
    differs from the size at creation, and keeps raising it. The
    iterator is followed over a dict whose items stay as they are, and
    up to the first change of size: a deletion made up for by an
    insertion between two calls of [next] is left out. *)
Record dictiter : Type := DictIter {
  di_dict : option nat;   (* the dict object; [None] once exhausted *)
  di_used : Z;            (* size at creation; -1 after a size change *)
  di_pos : nat;
}.

Definition dict_iter (l : nat) (hp : list pydict) : dictiter :=
  DictIter (Some l) (Z.of_nat (length (default [] (hp !! l)))) 0.




(** ** The public mapping operations *)

Section Facade.
Context {P : Platform}.

(** What an operation body does on the object in [__internal_dict]. *)
Definition with_cache_dict {A} (on_other : exn) (k : nat -> pydict -> M A) : M A :=
  st <- get;;
  match __internal_dict (self st) with
  | RDict l => k l (default [] (heap st !! l))
  | _ => raise on_other
  end.

Definition store (l : nat) (d : pydict) : M unit :=
  set_heap (fun hp => <[l := d]> hp).

(** [self.__internal_dict[key] = value; self.__dirty = True] *)
Definition setitem_body (key value : pyval) : M unit :=
  with_cache_dict TypeError (fun l d => store l (dict_set key value d));;
  set_self (with_dirty true).

Definition __setitem__ (tid : nat) (key value : pyval) : M unit :=
  exclusive_lock tid (setitem_body key value).

Definition __getitem__ (tid : nat) (key : pyval) : M pyval :=
  exclusive_lock tid
    (with_cache_dict TypeError (fun l d =>
       match dict_get key d with
       | Some v => ret v
       | None => raise KeyError
       end)).

(** [repr] is given by the object it renders. *)
Definition __repr__ (tid : nat) : M pyobj :=
  exclusive_lock tid
    (st <- get;; ret (deref (heap st) (__internal_dict (self st)))).

Definition __len__ (tid : nat) : M nat :=
  exclusive_lock tid (with_cache_dict TypeError (fun l d => ret (length d))).

Definition __delitem__ (tid : nat) (key : pyval) : M unit :=
  exclusive_lock tid
    (with_cache_dict TypeError (fun l d =>
       match dict_get key d with
       | Some _ => store l (dict_del key d)
       | None => raise KeyError
       end);;
     set_self (with_dirty true)).

Definition clear (tid : nat) : M unit :=
  exclusive_lock tid
    (set_self (with_dirty true);;
     with_cache_dict AttributeError (fun l d => store l [])).

Definition copy (tid : nat) : M pyref :=
  exclusive_lock tid (with_cache_dict AttributeError (fun l d => alloc d)).

Definition has_key (tid : nat) (key : pyval) : M bool :=
  exclusive_lock tid
    (with_cache_dict TypeError (fun l d => ret (dict_has key d))).

Definition __contains__ (tid : nat) (key : pyval) : M bool :=
  exclusive_lock tid
    (with_cache_dict TypeError (fun l d => ret (dict_has key d))).

Definition __iter__ (tid : nat) : M dictiter :=
  exclusive_lock tid
    (st <- get;;
     with_cache_dict TypeError (fun l d => ret (dict_iter l (heap st)))).

(** The locking operations as one type, for statements about all of
    them. *)
Inductive op : Type :=
  | SetItem (key value : pyval)
  | GetItem (key : pyval)
  | Repr
  | Len
  | DelItem (key : pyval)
  | Clear
  | Copy
  | HasKey (key : pyval)
  | Contains (key : pyval)
  | Iter.

Inductive result : Type :=
  | NoResult
  | Value (v : pyval)
  | Object (o : pyobj)
  | Count (n : nat)
  | Truth (b : bool)
  | Reference (r : pyref)
  | Iterator (it : dictiter).

Definition call (tid : nat) (o : op) : M result :=
  match o with
  | SetItem k v => _ <- __setitem__ tid k v;; ret NoResult
  | GetItem k => v <- __getitem__ tid k;; ret (Value v)
  | Repr => o <- __repr__ tid;; ret (Object o)
  | Len => n <- __len__ tid;; ret (Count n)
  | DelItem k => _ <- __delitem__ tid k;; ret NoResult
  | Clear => _ <- clear tid;; ret NoResult
  | Copy => r <- copy tid;; ret (Reference r)
  | HasKey k => b <- has_key tid k;; ret (Truth b)
  | Contains k => b <- __contains__ tid k;; ret (Truth b)
  | Iter => it <- __iter__ tid;; ret (Iterator it)
  end.
End Facade.

(** ** A pickle codec to run the model

    The fragment of CPython 3.11's [pickle] that the modelled values
    need: the pickler of protocol 2 (what the program writes) and of
    protocol 4 (the default, used by the program for a length only), and
    the unpickler for the opcodes protocol 2 emits. String objects are
    taken to be pairwise distinct, so the pickler never emits a memo
    lookup. Anything else is reported as [Unmodelled]. *)
Module Pickle.
Local Open Scope N_scope.

Fixpoint le_bytes (len : nat) (x : N) : list byte :=
  match len with
  | O => []
  | S len' => byte_of_N x :: le_bytes len' (x / 256)
  end.

Definition le_to_N (bs : list byte) : N :=
  fold_right (fun b acc => Byte.to_N b + 256 * acc) 0 bs.

(** Two's complement, little-endian, as [save_long] lays it out. *)
Definition long_bytes (z : Z) : list byte :=
  let nbits := if (z =? 0)%Z then 0%Z else (Z.log2 (Z.abs z) + 1)%Z in
  let nbytes := Z.to_nat (nbits / 8 + 1) in
  let raw := le_bytes nbytes (Z.to_N (z mod 2 ^ (8 * Z.of_nat nbytes))) in
  match rev raw with
  | hi :: lo :: _ =>
      if (z <? 0)%Z && (Byte.to_N hi =? 255) && (128 <=? Byte.to_N lo)
      then removelast raw else raw
  | _ => raw
  end.

Definition save_long (z : Z) : list byte :=
  if (0 <=? z)%Z && (z <? 256)%Z then "K"%byte :: le_bytes 1 (Z.to_N z)
  else if (0 <=? z)%Z && (z <? 65536)%Z then "M"%byte :: le_bytes 2 (Z.to_N z)
  else if (- 2 ^ 31 <=? z)%Z && (z <? 2 ^ 31)%Z
    then "J"%byte :: le_bytes 4 (Z.to_N (z mod 2 ^ 32))
  else
    let bs := long_bytes z in
    if (length bs <? 256)%nat
    then x8a :: le_bytes 1 (N.of_nat (length bs)) ++ bs
    else x8b :: le_bytes 4 (N.of_nat (length bs)) ++ bs.

Definition utf8 (s : pystr) : list byte := default [] (Utf8.encode true s).

(** *** Protocol 2 *)

Definition memo_put (idx : nat) : list byte :=
  if (idx <? 256)%nat then "q"%byte :: le_bytes 1 (N.of_nat idx)
  else "r"%byte :: le_bytes 4 (N.of_nat idx).

(** One value, with the next free memo index. *)
Definition save_val (idx : nat) (v : pyval) : list byte * nat :=
  match v with
  | VNone => (["N"%byte], idx)
  | VInt z => (save_long z, idx)
  | VStr s =>
      let data := utf8 s in
      ("X"%byte :: le_bytes 4 (N.of_nat (length data)) ++ data ++ memo_put idx,
       S idx)
  end.

Fixpoint save_items (idx : nat) (items : pydict) : list byte * nat :=
  match items with
  | [] => ([], idx)
  | (k, v) :: rest =>
      let '(bk, i1) := save_val idx k in
      let '(bv, i2) := save_val i1 v in
      let '(br, i3) := save_items i2 rest in
      (bk ++ bv ++ br, i3)
  end.

Definition BATCHSIZE : nat := 1000.

(** [batch_dict_exact] for two items or more: batches of [BATCHSIZE]
    between MARK and SETITEMS; a full batch is followed by another
    one, even an empty one. *)
Fixpoint batch_dict (fuel : nat) (idx : nat) (items : pydict) : list byte :=
  match fuel with
  | O => []
  | S fuel' =>
      let '(body, idx') := save_items idx (take BATCHSIZE items) in
      "("%byte :: body ++ "u"%byte ::
        (if (BATCHSIZE <=? length items)%nat
         then batch_dict fuel' idx' (drop BATCHSIZE items) else [])
  end.

Definition save_dict (d : pydict) : list byte :=
  "}"%byte :: memo_put 0 ++
    match d with
    | [] => []
    | [(k, v)] =>
        let '(bk, i1) := save_val 1 k in
        let '(bv, _) := save_val i1 v in
        bk ++ bv ++ ["s"%byte]
    | _ => batch_dict (S (length d)) 1 d
    end.

Definition save (o : pyobj) : list byte :=
  match o with
  | ONone => ["N"%byte]
  | OInt z => save_long z
  | ODict d => save_dict d
  end.

Definition dumps_2 (o : pyobj) : list byte :=
  [x80; x02] ++ save o ++ ["."%byte].

(** *** Protocol 4 (the default protocol): new opcodes and framing *)

Record writer : Type := Writer {
  out : list byte;             (* what is committed *)
  frame : option (list byte);  (* the frame being filled, if any *)
}.

Definition FRAME_SIZE_MIN : nat := 4.
Definition FRAME_SIZE_TARGET : nat := 64 * 1024.

Definition commit_frame (w : writer) : writer :=
  match frame w with
  | None => w
  | Some body =>
      Writer (out w ++
              (if (FRAME_SIZE_MIN <=? length body)%nat
               then x95 :: le_bytes 8 (N.of_nat (length body)) ++ body
               else body)) None
  end.

Definition write (bs : list byte) (w : writer) : writer :=
  Writer (out w) (Some (default [] (frame w) ++ bs)).

Definition opcode_boundary (w : writer) : writer :=
  match frame w with
  | Some body =>
      if (FRAME_SIZE_TARGET <=? length body)%nat then commit_frame w else w
  | None => w
  end.

(** Large payloads go out between frames. *)
Definition write_bytes (header data : list byte) (w : writer) : writer :=
  if (FRAME_SIZE_TARGET <=? length data)%nat
  then Writer (out (commit_frame w) ++ header ++ data) None
  else write (header ++ data) w.

Definition save_val_4 (v : pyval) (w : writer) : writer :=
  let w := opcode_boundary w in
  match v with
  | VNone => write ["N"%byte] w
  | VInt z => write (save_long z) w
  | VStr s =>
      let data := utf8 s in
      let header :=
        if (length data <? 256)%nat
        then x8c :: le_bytes 1 (N.of_nat (length data))
        else "X"%byte :: le_bytes 4 (N.of_nat (length data)) in
      write [x94] (write_bytes header data w)
  end.

Definition save_items_4 (items : pydict) (w : writer) : writer :=
  fold_left (fun w kv => save_val_4 (snd kv) (save_val_4 (fst kv) w)) items w.

Fixpoint batch_dict_4 (fuel : nat) (items : pydict) (w : writer) : writer :=
  match fuel with
  | O => w
  | S fuel' =>
      let w := write ["u"%byte]
                 (save_items_4 (take BATCHSIZE items) (write ["("%byte] w)) in
      if (BATCHSIZE <=? length items)%nat
      then batch_dict_4 fuel' (drop BATCHSIZE items) w else w
  end.

Definition save_4 (o : pyobj) (w : writer) : writer :=
  match o with
  | ONone => save_val_4 VNone w
  | OInt z => save_val_4 (VInt z) w
  | ODict d =>
      let w := write [x94] (write ["}"%byte] (opcode_boundary w)) in
      match d with
      | [] => w
      | [(k, v)] => write ["s"%byte] (save_val_4 v (save_val_4 k w))
      | _ => batch_dict_4 (S (length d)) d w
      end
  end.

Definition dumps (o : pyobj) : list byte :=
  out (commit_frame (write ["."%byte] (save_4 o (Writer [x80; x04] None)))).

(** *** The unpickler *)

Definition HIGHEST_PROTOCOL : N := 5.

Inductive selem : Type :=
  | SVal (v : pyval)
  | SDict (d : pydict)
  | SMark.

Definition read (n : nat) (bs : list byte) : option (list byte * list byte) :=
  if (n <=? length bs)%nat then Some (take n bs, drop n bs) else None.

(** Signed value of [n] little-endian bytes. *)
Definition le_signed (bs : list byte) : Z :=
  let u := Z.of_N (le_to_N bs) in
  let w := (2 ^ (8 * Z.of_nat (length bs)))%Z in
  if (w <=? 2 * u)%Z then (u - w)%Z else u.

(** The pairs above the topmost mark, oldest first, and what lies
    below the mark. *)
Fixpoint split_mark (st : list selem) (acc : list selem)
    : option (list selem * list selem) :=
  match st with
  | [] => None
  | SMark :: below => Some (acc, below)
  | x :: st' => split_mark st' (x :: acc)
  end.

Fixpoint set_pairs (items : list selem) (d : pydict) : res pydict :=
  match items with
  | [] => Ret d
  | SVal k :: SVal v :: rest => set_pairs rest (dict_set k v d)
  | SDict _ :: _ :: _ => Raise TypeError      (* unhashable key *)
  | SVal _ :: SDict _ :: _ => Raise Unmodelled (* a nested dict *)
  | _ => Raise UnpicklingError
  end.

Definition do_setitems (items : list selem) (below : list selem)
    : res (list selem) :=
  match below with
  | [] | SMark :: _ => Raise UnpicklingError  (* stack underflow *)
  | target :: below' =>
      match items with
      | [] => Ret below
      | _ =>
          if Nat.odd (length items) then Raise UnpicklingError
          else match target with
               | SDict d =>
                   match set_pairs items d with
                   | Ret d' => Ret (SDict d' :: below')
                   | Raise e => Raise e
                   end
               | _ => Raise TypeError         (* no item assignment *)
               end
      end
  end.

Definition top (st : list selem) : option selem :=
  match st with
  | [] | SMark :: _ => None
  | x :: _ => Some x
  end.

Definition fixed (n : nat) (bs : list byte) (k : list byte -> list byte -> res pyobj)
    : res pyobj :=
  match read n bs with
  | Some (arg, rest) => k arg rest
  | None => Raise UnpicklingError             (* pickle data was truncated *)
  end.

Fixpoint load_fuel (fuel : nat) (bs : list byte) (st : list selem)
    (memo : list (N * selem)) : res pyobj :=
  match fuel with
  | O => Raise Unmodelled
  | S fuel' =>
      let continue := load_fuel fuel' in
      match bs with
      | [] => Raise EOFError                  (* ran out of input *)
      | opcode :: bs =>
          match opcode with
          | x80 => fixed 1 bs (fun a r =>
              if le_to_N a <=? HIGHEST_PROTOCOL then continue r st memo
              else Raise ValueError)          (* unsupported protocol *)
          | "N"%byte => continue bs (SVal VNone :: st) memo
          | "K"%byte => fixed 1 bs (fun a r =>
              continue r (SVal (VInt (Z.of_N (le_to_N a))) :: st) memo)
          | "M"%byte => fixed 2 bs (fun a r =>
              continue r (SVal (VInt (Z.of_N (le_to_N a))) :: st) memo)
          | "J"%byte => fixed 4 bs (fun a r =>
              continue r (SVal (VInt (le_signed a)) :: st) memo)
          | x8a => fixed 1 bs (fun n r =>
              fixed (N.to_nat (le_to_N n)) r (fun a r =>
                continue r (SVal (VInt (le_signed a)) :: st) memo))
          | x8b => fixed 4 bs (fun n r =>
              if (le_signed n <? 0)%Z then Raise UnpicklingError
              else fixed (N.to_nat (le_to_N n)) r (fun a r =>
                continue r (SVal (VInt (le_signed a)) :: st) memo))
          | "X"%byte => fixed 4 bs (fun n r =>
              fixed (N.to_nat (le_to_N n)) r (fun a r =>
                match Utf8.decode true a with
                | Some s => continue r (SVal (VStr s) :: st) memo
                | None => Raise UnicodeDecodeError
                end))
          | "}"%byte => continue bs (SDict [] :: st) memo
          | "q"%byte => fixed 1 bs (fun a r =>
              match top st with
              | Some x => continue r st ((le_to_N a, x) :: memo)
              | None => Raise UnpicklingError
              end)
          | "r"%byte => fixed 4 bs (fun a r =>
              match top st with
              | Some x => continue r st ((le_to_N a, x) :: memo)
              | None => Raise UnpicklingError
              end)
          | "h"%byte => fixed 1 bs (fun a r =>
              match list_find (fun e => fst e = le_to_N a) memo with
              | Some (_, (_, SVal v)) => continue r (SVal v :: st) memo
              | Some _ => Raise Unmodelled    (* a second reference to a dict *)
              | None => Raise UnpicklingError (* memo value not found *)
              end)
          | "("%byte => continue bs (SMark :: st) memo
          | "s"%byte =>
              match st with
              | v :: k :: st' =>
                  match top [v], top [k], top st' with
                  | Some _, Some _, Some _ =>
                      match do_setitems [k; v] st' with
                      | Ret st'' => continue bs st'' memo
                      | Raise e => Raise e
                      end
                  | _, _, _ => Raise UnpicklingError
                  end
              | _ => Raise UnpicklingError
              end
          | "u"%byte =>
              match split_mark st [] with
              | Some (items, below) =>
                  match do_setitems items below with
                  | Ret st' => continue bs st' memo
                  | Raise e => Raise e
                  end
              | None => Raise UnpicklingError (* could not find MARK *)
              end
          | "."%byte =>
              match top st with
              | Some (SVal VNone) => Ret ONone
              | Some (SVal (VInt z)) => Ret (OInt z)
              | Some (SDict d) => Ret (ODict d)
              | Some _ => Raise Unmodelled    (* a str at top level *)
              | None => Raise UnpicklingError
              end
          | x00 => Raise UnpicklingError      (* invalid load key *)
          | _ => Raise Unmodelled
          end
      end
  end.

(** [pickle.load] on a source holding [bs] from its position on. *)
Definition load (bs : list byte) : res pyobj :=
  load_fuel (S (length bs)) bs [] [].
End Pickle.

(** CPython 3.11 on Linux with 4096-byte pages; paths are taken to be
    absolute and canonical already. *)
#[global] Instance cpython_linux : Platform := {|
  PAGESIZE := 4096;
  pickle_dumps := Pickle.dumps;
  pickle_dumps_2 := Pickle.dumps_2;
  pickle_load := Pickle.load;
  os_path_resolve := fun p => p;
|}.

(** ** Running the model *)

Definition empty_world : world := World ∅ ∅ ∅ 0.

(** A process that has just built its handle. *)
Definition boot (h : handle) (w : world) : state := State h [] w.

(** The state a computation leaves. *)
Definition run {A} (c : M A) (st : state) : state := snd (c st).

(** Process [mine] goes on in the world that [other] has left. *)
Definition resume (mine other : state) : state :=
  State (self mine) (heap mine) (os other).

Definition set_segment (nm : pystr) (bs : list byte) (st : state) : state :=
  State (self st) (heap st) (with_shms (<[nm := bs]> (shms (os st))) (os st)).

Definition set_cache (r : pyref) (st : state) : state :=
  State (with_internal_dict r (self st)) (heap st) (os st).

Definition set_file (path : pystr) (bs : list byte) (st : state) : state :=
  State (self st) (heap st)
        (with_files (<[path := FFile bs]> (files (os st))) (os st)).

Definition set_dirty (b : bool) (st : state) : state :=
  State (with_dirty b (self st)) (heap st) (os st).

(** The handle after [pickle.load] has returned [o]. *)
Definition install (o : pyobj) (st : state) : state :=
  match o with
  | ONone => set_cache RNone st
  | OInt z => set_cache (RInt z) st
  | ODict d =>
      State (with_internal_dict (RDict (length (heap st))) (self st))
            (heap st ++ [d]) (os st)
  end.

(** What the persistence file gives to a load: [None] when no path is
    configured or the file cannot be opened. *)
Definition file_outcome `{Platform} (st : state) : option (res pyobj) :=
  match persist_file (self st) with
  | Some path =>
      match files (os st) !! path with
      | Some (FFile bs) => Some (pickle_load bs)
      | _ => None
      end
  | None => None
  end.

(** What a computation leaves alone. *)
Definition preserves {A X} (f : state -> X) (c : M A) : Prop :=
  forall st, f (snd (c st)) = f st.


(** All of a state but the mapping and the segments. *)
Definition beside_segment (st : state) :=
  (heap st, __internal_dict (self st), __dirty (self st),
   __thread_local (self st), _semaphore (self st),
   (name (self st), persist_file (self st), lock_timeout (self st),
    auto_unlock (self st)),
   (sems (os st), files (os st), waited (os st))).

(** What a load leaves alone: the lock, the files, the dirty flag. *)
Definition beside_load (st : state) :=
  (__dirty (self st), __thread_local (self st), _semaphore (self st),
   (name (self st), persist_file (self st), lock_timeout (self st),
    auto_unlock (self st)),
   (sems (os st), files (os st), waited (os st))).

(** What a save leaves alone: the lock and the objects. *)
Definition beside_save (st : state) :=
  (heap st, __internal_dict (self st),
   __thread_local (self st), _semaphore (self st),
   (name (self st), persist_file (self st), lock_timeout (self st),
    auto_unlock (self st)),
   (sems (os st), waited (os st))).

(** The read that a load starts with, and its last two steps. *)
Definition read_segment `{Platform} : M (list byte) :=
  _ <- map_file;; nm <- map_file;; mmap_read nm.

Definition fallback `{Platform} : M unit := load_from_file;; load_default.

(** The segment gives nothing to a load: it holds a pickled [None], or
    it does not deserialize (with a caught exception) and the handle has
    no cache yet. *)
Definition nothing_loaded `{Platform} (st : state) (bs : list byte) : Prop :=
  pickle_load bs = Ret ONone \/
  exists e, pickle_load bs = Raise e /\ load_caught e = true /\
            __internal_dict (self st) = RNone.

(** The bytes a load reads through a handle that is mapped already:
    the segment, resized for the cache the handle holds. *)
Definition view `{Platform} (st : state) : option (list byte) :=
  match _map_file (self st) with
  | Some nm =>
      resize_bytes
        (page_round (length (pickle_dumps_2
                               (deref (heap st) (__internal_dict (self st))))))
      <$> shms (os st) !! nm
  | None => None
  end.

(** The mapped segment's bytes as they are. *)
Definition segment (st : state) : option (list byte) :=
  match _map_file (self st) with
  | Some nm => shms (os st) !! nm
  | None => None
  end.

(** The value of the semaphore the handle has opened. *)
Definition sem_value (st : state) : option Z :=
  match _semaphore (self st) with
  | Some nm => sems (os st) !! nm
  | None => None
  end.

Definition cache (st : state) : pyobj :=
  deref (heap st) (__internal_dict (self st)).

Definition held (tid : nat) (st : state) : option bool :=
  __thread_local (self st) !! tid.

(** The characters of the URL-safe base64 alphabet. *)
Definition is_b64url (c : N) : bool :=
  ((65 <=? c) && (c <=? 90) || (97 <=? c) && (c <=? 122)
   || (48 <=? c) && (c <=? 57) || (c =? 45) || (c =? 95))%N.

(** A character of base64 text: of the alphabet, or the padding '='. *)
Definition b64_text (c : N) : Prop := is_b64url c = true \/ c = 61%N.

(** A code point that [encode("utf-8")] accepts. *)
Definition is_scalar (c : N) : bool :=
  ((c <? 1114112) && negb (Utf8.is_surrogate c))%N.

(** The codec round-trips [o], whatever follows it in the source. *)
Definition codec_supports `{Platform} (o : pyobj) : Prop :=
  forall tail, pickle_load (pickle_dumps_2 o ++ tail) = Ret o.

(** Handles and values of the test suite ([create_vol_shm_dict] is
    [SHMDict("PyTestSHMDict", lock_timeout=0)]), built by thread 0. *)
Definition vol_shm_dict : handle :=
  __init__ 0 (lit "PyTestSHMDict") false 0 false.

Definition str (s : string) : pyval := VStr (lit s).

(** One process has stored a key. *)
Definition first_stored : state :=
  run (__setitem__ 0 (str "K1") (str "V1")) (boot vol_shm_dict empty_world).

(** The persistent dictionary of the test suite, and a world in which
    its file cannot be written. *)
Definition per_path : pystr := lit "/tmp/pytest_shm_dict_0".

Definition per_shm_dict : handle := __init__ 0 per_path true 0 false.

Definition denied_world : world := World ∅ ∅ {[ per_path := FDenied ]} 0.

(** A handle that has taken the lock and stored a key, before the
    release. *)
Definition pending (h : handle) (w : world) : state :=
  run (_acquire_lock 0;; setitem_body (str "K1") (str "V1")) (boot h w).

(** A value whose pickle needs two pages. One process stores it and then
    clears the dictionary; or a second, new process asks for the length
    after the store. *)
Definition long_value : pyval := VStr (repeat 120%N (5 * 1000)).

Definition stored_long : state :=
  run (__setitem__ 0 (str "K1") long_value) (boot vol_shm_dict empty_world).

Definition cleared : state := run (clear 0) stored_long.

Definition second_looked_long : state :=
  run (__len__ 0) (boot vol_shm_dict (os stored_long)).

(** The first process goes on after the second one has looked. *)
Definition first_again : state := resume stored_long second_looked_long.



(** What an operation reads of the state to load, and what it shares
    with an iterator. *)
Definition load_input (st : state) :=
  (heap st, __internal_dict (self st), _map_file (self st), shms (os st)).

Definition objects (st : state) := (heap st, __internal_dict (self st)).

(** The dict objects below [n] are the same in both heaps. *)
Definition same_below (n : nat) (hp hp' : list pydict) : Prop :=
  forall l, l < n -> hp' !! l = hp !! l.



(** One process holds the lock, has changed the cache and takes the
    lock again before any release. *)
Definition outer_hold : state := run (_acquire_lock 0) first_stored.

Definition outer_mutated : state :=
  run (setitem_body (str "K2") (str "V2")) outer_hold.

(** The handle with its semaphore opened. *)
Definition opened (nm : pystr) (st : state) : state :=
  State (with_semaphore (Some nm) (self st)) (heap st) (os st).


(** The semaphore a handle works on: the one it has opened, or the one
    its name leads to. *)
Definition semaphore_of `{Platform} (st : state) : option pystr :=
  match _semaphore (self st) with
  | Some nm => Some nm
  | None =>
      match safe_sem_name (self st) with
      | Ret nm => Some nm
      | Raise _ => None
      end
  end.

(** The lock of the test suite, held by one process while a second one,
    with [auto_unlock=True], goes through an operation. *)
Definition bypass_dict : handle :=
  __init__ 0 (lit "PyTestSHMDict") false 0 true.

Definition holder_in : state :=
  run (_acquire_lock 0) (boot vol_shm_dict empty_world).

Definition bypasser_in : state :=
  run (_acquire_lock 0) (boot bypass_dict (os holder_in)).

Definition bypasser_out : state := run (_release_lock 0) bypasser_in.

Definition holder_out : state :=
  run (_release_lock 0) (resume holder_in bypasser_out).





(** ** The rest of the class: destruction and comparison *)

(** [SharedMemory.unlink()] and [Semaphore.unlink()]: the name goes; a
    name that is gone already gives [ExistentialError]. A mapping that
    another handle still has on an unlinked segment is outside the
    model. *)
Definition shm_unlink (nm : pystr) : M unit :=
  st <- get;;
  match shms (os st) !! nm with
  | Some _ => set_os (with_shms (delete nm (shms (os st))))
  | None => raise ExistentialError
  end.

Definition sem_unlink (nm : pystr) : M unit :=
  st <- get;;
  match sems (os st) !! nm with
  | Some _ => set_os (with_sems (delete nm (sems (os st))))
  | None => raise ExistentialError
  end.

Section Rest.
Context {P : Platform}.

(** [__del__]: [self.map_file.close()], [self.shared_mem.unlink()],
    [self.semaphore.unlink()]. The three properties are evaluated as
    everywhere else: the mapping is made and resized, the segment is
    opened once more. The result tells where the destructor stopped;
    Python itself ignores an exception raised in a destructor. *)
Definition __del__ : M unit :=
  _ <- map_file;;
  sm <- shared_mem;;
  shm_unlink (fst sm);;
  nm <- semaphore;;
  sem_unlink nm.

(** [__eq__] and [__ne__]; [other] is [None] for an object that is not
    an [SHMDict]. *)
Definition __eq__ (h : handle) (other : option handle) : res bool :=
  match other with
  | None => Ret false
  | Some o =>
      match safe_shm_name h with
      | Raise e => Raise e
      | Ret a =>
          match safe_shm_name o with
          | Raise e => Raise e
          | Ret b => Ret (bool_decide (a = b))
          end
      end
  end.

Definition __ne__ (h : handle) (other : option handle) : res bool :=
  match other with
  | None => Ret true
  | Some o =>
      match safe_shm_name h with
      | Raise e => Raise e
      | Ret a =>
          match safe_shm_name o with
          | Raise e => Raise e
          | Ret b => Ret (negb (bool_decide (a = b)))
          end
      end
  end.

(** The block that an operation runs under the lock, with its result. *)
Definition body (o : op) : M result :=
  match o with
  | SetItem k v => _ <- setitem_body k v;; ret NoResult
  | GetItem k =>
      v <- with_cache_dict TypeError (fun l d =>
             match dict_get k d with
             | Some v => ret v
             | None => raise KeyError
             end);;
      ret (Value v)
  | Repr => st <- get;; ret (Object (deref (heap st) (__internal_dict (self st))))
  | Len => n <- with_cache_dict TypeError (fun l d => ret (length d));; ret (Count n)
  | DelItem k =>
      with_cache_dict TypeError (fun l d =>
        match dict_get k d with
        | Some _ => store l (dict_del k d)
        | None => raise KeyError
        end);;
      set_self (with_dirty true);;
      ret NoResult
  | Clear =>
      set_self (with_dirty true);;
      with_cache_dict AttributeError (fun l d => store l []);;
      ret NoResult
  | Copy => r <- with_cache_dict AttributeError (fun l d => alloc d);; ret (Reference r)
  | HasKey k | Contains k =>
      b <- with_cache_dict TypeError (fun l d => ret (dict_has k d));;
      ret (Truth b)
  | Iter =>
      st <- get;;
      it <- with_cache_dict TypeError (fun l d => ret (dict_iter l (heap st)));;
      ret (Iterator it)
  end.
End Rest.

(** ** What the operations compute, on the items of a dict *)

(** The operations that only look. *)
Definition is_query (o : op) : bool :=
  match o with
  | GetItem _ | Repr | Len | HasKey _ | Contains _ => true
  | _ => false
  end.

Definition answer (o : op) (m : pydict) : res result :=
  match o with
  | GetItem k =>
      match dict_get k m with
      | Some v => Ret (Value v)
      | None => Raise KeyError
      end
  | Repr => Ret (Object (ODict m))
  | Len => Ret (Count (length m))
  | HasKey k | Contains k => Ret (Truth (dict_has k m))
  | _ => Raise Unmodelled
  end.

(** The operations that change the items, and the items they leave;
    [None] when the operation changes nothing or is refused. *)
Definition effect (o : op) (m : pydict) : option pydict :=
  match o with
  | SetItem k v => Some (dict_set k v m)
  | DelItem k => if dict_has k m then Some (dict_del k m) else None
  | Clear => Some []
  | _ => None
  end.

(** The operations that never set the dirty flag. *)
Definition is_reading (o : op) : bool :=
  match o with
  | SetItem _ _ | DelItem _ | Clear => false
  | _ => true
  end.

(** ** States of the lock *)

(** The lock is there for thread [tid] to take: the thread does not
    hold it, the named semaphore has the positive value [v], or does
    not exist yet and will be created with value 1, and the timeout of
    the handle is one that [acquire] accepts. *)
Definition lock_free `{Platform} (tid : nat) (st : state) (snm : pystr) (v : Z)
    : Prop :=
  held tid st = Some false /\
  semaphore_of st = Some snm /\
  (0 < v)%Z /\
  (sems (os st) !! snm = Some v \/
   (sems (os st) !! snm = None /\ _semaphore (self st) = None /\ v = 1%Z)) /\
  (0 <= lock_timeout (self st))%Z.

(** The state once the lock is taken, and once it is given back. *)
Definition locked (tid : nat) (snm : pystr) (v : Z) (st : state) : state :=
  State (with_thread_local (<[tid := true]> (__thread_local (self st)))
           (with_semaphore (Some snm) (self st)))
        (heap st)
        (with_sems (<[snm := (v - 1)%Z]> (sems (os st))) (os st)).

Definition unlocked (tid : nat) (snm : pystr) (v : Z) (st : state) : state :=
  State (with_thread_local (<[tid := false]> (__thread_local (self st))) (self st))
        (heap st)
        (with_sems (<[snm := (v + 1)%Z]> (sems (os st))) (os st)).

(** A relation that a computation keeps between the state it starts
    from and the state it leaves. *)
Definition keeps {A} (R : state -> state -> Prop) (c : M A) : Prop :=
  forall st, R st (snd (c st)).

(** A handle that has not mapped anything, on a name without segment. *)
Definition unmapped `{Platform} (st : state) (nm : pystr) : Prop :=
  _map_file (self st) = None /\
  safe_shm_name (self st) = Ret nm /\
  shms (os st) !! nm = None.

(** The codec finds nothing in a blank segment. *)
Definition blank_rejected `{Platform} : Prop :=
  forall n, exists e, pickle_load (repeat x00 n) = Raise e /\ load_caught e = true.

(** ** States between operations *)

(** The handle is in step with its segment: the cache is a dict object
    with the items [m], and what a load reads of the segment is a pickle
    of [m], or bytes that the codec rejects with an exception that the
    load catches, which leaves the cache as it is. *)
Definition in_step `{Platform} (st : state) (m : pydict) : Prop :=
  (exists l, __internal_dict (self st) = RDict l /\ heap st !! l = Some m) /\
  exists bs, view st = Some bs /\
    (pickle_load bs = Ret (ODict m) \/
     exists e, pickle_load bs = Raise e /\ load_caught e = true).

(** Thread [tid] holds the lock, with the semaphore at [x], and has
    nothing to save; the timeout of the handle is not negative. *)
Definition acquired `{Platform} (tid : nat) (st : state) (snm : pystr) (x : Z)
    (m : pydict) : Prop :=
  held tid st = Some true /\
  _semaphore (self st) = Some snm /\
  sems (os st) !! snm = Some x /\
  __dirty (self st) = false /\
  (0 <= lock_timeout (self st))%Z /\
  in_step st m.

(** Between two operations of thread [tid]: the lock is free (with a
    timeout that [acquire] accepts), nothing is unsaved, and the handle
    is in step with its segment. *)
Definition steady `{Platform} (tid : nat) (st : state) (snm : pystr) (v : Z)
    (m : pydict) : Prop :=
  lock_free tid st snm v /\ __dirty (self st) = false /\ in_step st m.

(** The persistence file can be written. *)
Definition writable (st : state) : Prop :=
  forall path, persist_file (self st) = Some path ->
               files (os st) !! path <> Some FDenied.

(** The file of a persistent handle holds the bytes [bs]. *)
Definition persisted (st : state) (bs : list byte) : Prop :=
  forall path, persist_file (self st) = Some path ->
               files (os st) !! path = Some (FFile bs).

(** The cached dict object [l] after a block has changed its items. *)
Definition mutated (l : nat) (m' : pydict) (s : state) : state :=
  State (with_dirty true (self s)) (<[l := m']> (heap s)) (os s).

(** From [s] to [s'] no dict object has gone, none but the cached one
    has changed, and the handle refers to the object of before or to a
    new one. *)
Definition evolves (s s' : state) : Prop :=
  length (heap s) <= length (heap s') /\
  (forall c, c < length (heap s) -> __internal_dict (self s) <> RDict c ->
             heap s' !! c = heap s !! c) /\
  (forall l, __internal_dict (self s') = RDict l ->
             __internal_dict (self s) = RDict l \/
             length (heap s) <= l < length (heap s')).

(** The handle refers to a dict object that exists. *)
Definition valid (s : state) : Prop :=
  forall l, __internal_dict (self s) = RDict l -> l < length (heap s).

(** What the lock manager leaves alone when there is nothing to save. *)
Definition beside_lock (s : state) :=
  (__dirty (self s), persist_file (self s), files (os s)).

(** The path of the persistence file, and the file system. *)
Definition paths (s : state) := (persist_file (self s), files (os s)).

(** The handle once it has mapped the segment [nm], which holds [bs]. *)
Definition mapped (nm : pystr) (bs : list byte) (st : state) : state :=
  State (with_map_file (Some nm) (self st)) (heap st)
        (with_shms (<[nm := bs]> (shms (os st))) (os st)).

(** What the first load of a handle takes when the segment gives
    nothing: the dictionary in the persistence file, or an empty one.
    [None] when the file holds something else. *)
Definition initial `{Platform} (st : state) : option pydict :=
  match file_outcome st with
  | None | Some (Ret ONone) | Some (Raise IOError) => Some []
  | Some (Ret (ODict m)) => Some m
  | _ => None
  end.

(** A handle that has not been used yet, on a name without segment,
    with the lock free. *)
Definition fresh `{Platform} (tid : nat) (st : state) (snm : pystr) (v : Z)
    (m : pydict) : Prop :=
  lock_free tid st snm v /\
  __dirty (self st) = false /\
  (exists nm, unmapped st nm) /\
  __internal_dict (self st) = RNone /\
  blank_rejected /\
  initial st = Some m.

(** The states from which the operations are followed: steady, with
    the lock still held by the thread, or fresh. *)
Definition enters `{Platform} (tid : nat) (st : state) (snm : pystr) (x : Z)
    (m : pydict) : Prop :=
  steady tid st snm (x + 1) m \/
  acquired tid st snm x m \/
  fresh tid st snm (x + 1) m.

(** The segment a handle works on: the one it has mapped, or the one
    its name leads to. *)
Definition segment_of `{Platform} (st : state) : res pystr :=
  match _map_file (self st) with
  | Some nm => Ret nm
  | None => safe_shm_name (self st)
  end.

(** What no operation changes of a handle. *)
Definition handle_of `{Platform} (st : state) :=
  (name (self st), persist_file (self st), segment_of st).

(** The handle and the world after the destructor. *)
Definition destroyed (nm snm : pystr) (st : state) : state :=
  State (with_semaphore (Some snm) (with_map_file (Some nm) (self st)))
        (heap st)
        (World (delete snm (sems (os st))) (delete nm (shms (os st)))
               (files (os st)) (waited (os st))).

(* ===================================================================== *)
(** * Part II: properties *)
(* ===================================================================== *)

(** ** The naming function *)

Section Naming.
Local Open Scope N_scope.

Lemma to_N_byte_of_N (n : N) : n < 256 -> Byte.to_N (byte_of_N n) = n.
Proof.
  intros Hn. unfold byte_of_N. rewrite N.mod_small by exact Hn.
  destruct (Byte.of_N n) as [b|] eqn:Hb.
  - apply Byte.to_of_N. exact Hb.
  - apply Byte.of_N_None_iff in Hb. lia.
Qed.

Lemma list_ind3 {A} (Q : list A -> Prop) :
  Q [] -> (forall a, Q [a]) -> (forall a b, Q [a; b]) ->
  (forall a b c l, Q l -> Q (a :: b :: c :: l)) ->
  forall l, Q l.
Proof.
  intros H0 H1 H2 H3. fix IH 1.
  intros [|a [|b [|c l]]]; [exact H0 | apply H1 | apply H2 |].
  apply H3, IH.
Qed.

(** Every index gives a character of the URL-safe alphabet. *)
Lemma alphabet_is_b64url (i : N) :
  is_b64url (Byte.to_N (Base64.alphabet i)) = true.
Proof.
  unfold Base64.alphabet.
  destruct (N.ltb_spec i 26).
  { rewrite to_N_byte_of_N by lia. unfold is_b64url.
    repeat match goal with
           | |- context [N.leb ?a ?b] => destruct (N.leb_spec a b)
           end; try reflexivity; lia. }
  destruct (N.ltb_spec i 52).
  { rewrite to_N_byte_of_N by lia. unfold is_b64url.
    repeat match goal with
           | |- context [N.leb ?a ?b] => destruct (N.leb_spec a b)
           end; try reflexivity; lia. }
  destruct (N.ltb_spec i 62).
  { rewrite to_N_byte_of_N by lia. unfold is_b64url.
    repeat match goal with
           | |- context [N.leb ?a ?b] => destruct (N.leb_spec a b)
           end; try reflexivity; lia. }
  destruct (N.eqb_spec i 62); reflexivity.
Qed.

Lemma b64encode_text (bs : list byte) :
  Forall (fun b => b64_text (Byte.to_N b)) (Base64.urlsafe_b64encode bs).
Proof.
  induction bs as [|a|a b|a b c l IH] using list_ind3; cbn [Base64.urlsafe_b64encode].
  - constructor.
  - repeat (constructor;
            [first [left; apply alphabet_is_b64url | right; reflexivity]|]).
    constructor.
  - repeat (constructor;
            [first [left; apply alphabet_is_b64url | right; reflexivity]|]).
    constructor.
  - repeat (constructor; [left; apply alphabet_is_b64url|]). exact IH.
Qed.

Lemma b64encode_length (bs : list byte) :
  length (Base64.urlsafe_b64encode bs) = (4 * ((length bs + 2) / 3))%nat.
Proof.
  induction bs as [|a|a b|a b c l IH] using list_ind3; cbn [Base64.urlsafe_b64encode];
    try reflexivity.
  cbn [length]. rewrite IH.
  replace (S (S (S (length l))) + 2)%nat with (length l + 2 + 1 * 3)%nat by lia.
  rewrite Nat.div_add by lia. lia.
Qed.

Lemma N_to_be_length (n : nat) (x : N) : length (Sha512.N_to_be n x) = n.
Proof.
  revert x. induction n as [|n IH]; intros x; cbn [Sha512.N_to_be].
  - reflexivity.
  - rewrite length_app, IH. cbn. lia.
Qed.

(** A SHA-512 digest has 64 bytes, whatever the message. *)
Lemma digest_length (msg : list byte) : length (Sha512.digest msg) = 64%nat.
Proof.
  unfold Sha512.digest, Sha512.output.
  generalize (fold_left Sha512.compress (Sha512.blocks (Sha512.pad msg)) Sha512.init).
  intros h. cbn [map concat].
  repeat rewrite length_app. repeat rewrite N_to_be_length. reflexivity.
Qed.

(** Base64 text needs no escape and no double quote in [repr]. *)
Lemma b64_text_plain (c : N) :
  b64_text c -> c <> 39 /\ c <> 92 /\ c <> 47 /\ c <> 0 /\ 32 <= c /\ c < 127.
Proof.
  intros [H|H]; [|lia].
  unfold is_b64url in H.
  repeat match type of H with
         | context [N.leb ?a ?b] => destruct (N.leb_spec a b)
         | context [N.eqb ?a ?b] => destruct (N.eqb_spec a b)
         end; cbn in H; try discriminate; lia.
Qed.

Lemma has_text (q : N) (bs : list byte) :
  (forall c, b64_text c -> c <> q) ->
  Forall (fun b => b64_text (Byte.to_N b)) bs ->
  BytesRepr.has q bs = false.
Proof.
  intros Hq. induction 1 as [|b bs Hb _ IH]; [reflexivity|].
  unfold BytesRepr.has in *. cbn [existsb]. rewrite IH.
  destruct (N.eqb_spec (Byte.to_N b) q) as [E|]; [|reflexivity].
  exfalso. exact (Hq _ Hb E).
Qed.

Lemma escape_text (b : byte) :
  b64_text (Byte.to_N b) -> BytesRepr.escape 39 b = [Byte.to_N b].
Proof.
  intros H. apply b64_text_plain in H. unfold BytesRepr.escape.
  repeat match goal with
         | |- context [N.eqb ?a ?b] => destruct (N.eqb_spec a b); [lia|]
         | |- context [N.ltb ?a ?b] => destruct (N.ltb_spec a b); [lia|]
         | |- context [N.leb ?a ?b] => destruct (N.leb_spec a b); [lia|]
         end.
  reflexivity.
Qed.

Lemma bytes_repr_text (bs : list byte) :
  Forall (fun b => b64_text (Byte.to_N b)) bs ->
  BytesRepr.bytes_repr bs = lit "b'" ++ str_of_bytes bs ++ lit "'".
Proof.
  intros H. unfold BytesRepr.bytes_repr.
  rewrite (has_text 39 bs) by (eauto; intros c Hc; apply b64_text_plain in Hc; lia).
  cbn [andb]. change (lit "b'") with [98; 39]. change (lit "'") with [39].
  do 2 f_equal. f_equal.
  induction H as [|b l Hb _ IH]; [reflexivity|].
  cbn [map concat str_of_bytes]. rewrite (escape_text b Hb).
  cbn [app]. f_equal. exact IH.
Qed.

Lemma encode_scalars (s : pystr) :
  forallb is_scalar s = true -> is_Some (Utf8.encode false s).
Proof.
  induction s as [|c s IH]; cbn [forallb Utf8.encode]; [eauto|].
  intros [Hc Hs]%andb_prop. destruct (IH Hs) as [rest ->].
  unfold is_scalar in Hc. apply andb_prop in Hc as [Hlt Hsur].
  unfold Utf8.encode_char. rewrite Hlt.
  destruct (Utf8.is_surrogate c); [discriminate|].
  cbn [andb negb].
  repeat match goal with
         | |- context [N.ltb ?a ?b] => destruct (N.ltb a b)
         end; eauto.
Qed.
End Naming.

(** C4 (as amended). For every role tag and every logical name made of
    Unicode scalar values, [_safe_name] returns a string that depends on
    the tag and the name only (two handles with the same name get the
    same string), begins with '/', and goes on with the rendering of a
    bytes literal: the letter b, a quote, 88 characters that are of the
    URL-safe base64 alphabet or the padding '=', and a closing quote.
    None of the characters after the first is '/' or NUL. *)
Theorem safe_name_shape (h h' : handle) (prefix : pystr) :
  forallb is_scalar (prefix ++ lit "_" ++ name h) = true ->
  name h' = name h ->
  exists body : pystr,
    _safe_name h prefix = Ret (lit "/" ++ lit "b'" ++ body ++ lit "'") /\
    _safe_name h' prefix = _safe_name h prefix /\
    length body = 88 /\
    Forall b64_text body /\
    Forall (fun c => c <> 47%N /\ c <> 0%N) (lit "b'" ++ body ++ lit "'").
Proof.
  intros Hs Hn.
  destruct (encode_scalars _ Hs) as [bs Hbs].
  pose proof (b64encode_text (Sha512.digest bs)) as Htext.
  exists (str_of_bytes (Base64.urlsafe_b64encode (Sha512.digest bs))).
  assert (Hbody : Forall b64_text
            (str_of_bytes (Base64.urlsafe_b64encode (Sha512.digest bs)))).
  { unfold str_of_bytes. apply Forall_map. exact Htext. }
  split; [|split; [|split; [|split]]].
  - unfold _safe_name. rewrite Hbs. rewrite (bytes_repr_text _ Htext). reflexivity.
  - unfold _safe_name. rewrite Hn. reflexivity.
  - unfold str_of_bytes. rewrite length_map, b64encode_length, digest_length.
    reflexivity.
  - exact Hbody.
  - change (lit "b'") with [98%N; 39%N]. change (lit "'") with [39%N].
    repeat (apply Forall_cons_2; [lia|]).
    apply Forall_app_2; [|repeat constructor; lia].
    eapply Forall_impl; [exact Hbody|].
    intros c Hc. apply b64_text_plain in Hc. lia.
Qed.

Lemma safe_name_shape_witness :
  exists body : pystr,
    _safe_name vol_shm_dict (lit "sem")
    = Ret (lit "/" ++ lit "b'" ++ body ++ lit "'") /\
    length body = 88.
Proof.
  destruct (safe_name_shape vol_shm_dict vol_shm_dict (lit "sem"))
    as (body & H1 & _ & H2 & _); [reflexivity | reflexivity |].
  exists body. split; assumption.
Defined.

(** The semaphore name of the test suite's dictionary, as CPython 3
    prints it. *)
Example safe_sem_name_PyTestSHMDict :
  safe_sem_name vol_shm_dict
  = Ret (lit "/b'NQP3zd332qROwPJ5RXfrOVi_09urYGW3GUrTkHlkdVMmCnDdzxC_ikjT-vQzTx6eTQont5Zb2gYH-EFvn0nHaA=='").
Proof. vm_compute. reflexivity. Qed.

(** C4 (as stated) fails: after the leading '/', the name of the test
    suite's dictionary holds a quote, which is not of the URL-safe base64
    alphabet. *)
Lemma safe_name_not_base64url :
  exists s : pystr,
    safe_sem_name vol_shm_dict = Ret s /\
    s !! 2%nat = Some 39%N /\
    ~ Forall (fun c => is_b64url c = true) (drop 1 s).
Proof.
  eexists. split; [vm_compute; reflexivity|]. split; [reflexivity|].
  intros H. apply Forall_cons_1 in H as [_ H].
  apply Forall_cons_1 in H as [H _]. vm_compute in H. discriminate.
Qed.

(** A lone surrogate in the name makes the naming function raise. *)
Example safe_name_surrogate :
  _safe_name (__init__ 0 [55296%N] false 30 false) (lit "sem")
  = Raise UnicodeEncodeError.
Proof. reflexivity. Qed.

(** ** Pages and byte buffers *)

Section Buffers.
Context {P : Platform}.

Lemma page_round_ge (n : nat) : n <= page_round n.
Proof.
  unfold page_round. pose proof (Pos2Nat.is_pos PAGESIZE) as Hp.
  set (p := Pos.to_nat PAGESIZE) in *.
  pose proof (Nat.div_mod_eq (n + p - 1) p) as Hd.
  pose proof (Nat.mod_upper_bound (n + p - 1) p) as Hm.
  nia.
Qed.

Lemma page_round_multiple (n : nat) :
  Nat.divide (Pos.to_nat PAGESIZE) (page_round n).
Proof. unfold page_round. eexists. reflexivity. Qed.

Lemma page_round_least (n m : nat) :
  n <= m -> Nat.divide (Pos.to_nat PAGESIZE) m -> page_round n <= m.
Proof.
  unfold page_round. pose proof (Pos2Nat.is_pos PAGESIZE) as Hp.
  set (p := Pos.to_nat PAGESIZE) in *.
  intros Hnm [k ->].
  apply Nat.mul_le_mono_r, Nat.lt_succ_r.
  apply Nat.Div0.div_lt_upper_bound. nia.
Qed.

Lemma length_resize_bytes (n : nat) (bs : list byte) :
  length (resize_bytes n bs) = n.
Proof.
  unfold resize_bytes. rewrite length_app, length_take, repeat_length. lia.
Qed.

Lemma resize_bytes_same (bs : list byte) : resize_bytes (length bs) bs = bs.
Proof.
  unfold resize_bytes. rewrite firstn_all, Nat.sub_diag. apply app_nil_r.
Qed.

Lemma resize_bytes_idem (n : nat) (bs : list byte) :
  resize_bytes n (resize_bytes n bs) = resize_bytes n bs.
Proof.
  rewrite <- (length_resize_bytes n bs) at 1. apply resize_bytes_same.
Qed.

Lemma length_overwrite (payload bs : list byte) :
  length payload <= length bs -> length (overwrite payload bs) = length bs.
Proof.
  intros H. unfold overwrite. rewrite length_app, length_drop. lia.
Qed.
End Buffers.

(** ** What the methods leave alone *)

Section Preserves.
Lemma preserves_ret {A X} (f : state -> X) (a : A) : preserves f (ret a).
Proof. intros st. reflexivity. Qed.

Lemma preserves_raise {A X} (f : state -> X) (e : exn) :
  preserves f (raise (A := A) e).
Proof. intros st. reflexivity. Qed.

Lemma preserves_lift {A X} (f : state -> X) (r : res A) : preserves f (lift r).
Proof. intros st. reflexivity. Qed.

Lemma preserves_get {X} (f : state -> X) : preserves f get.
Proof. intros st. reflexivity. Qed.

Lemma preserves_bind {A B X} (f : state -> X) (c : M A) (k : A -> M B) :
  preserves f c -> (forall a, preserves f (k a)) -> preserves f (bind c k).
Proof.
  intros Hc Hk st. unfold bind. specialize (Hc st).
  destruct (c st) as [[a|e] st']; cbn in *.
  - rewrite (Hk a st'). exact Hc.
  - exact Hc.
Qed.

Lemma preserves_try_pass {X} (f : state -> X) (caught : exn -> bool) (c : M unit) :
  preserves f c -> preserves f (try_pass caught c).
Proof.
  intros Hc st. unfold try_pass. specialize (Hc st).
  destruct (c st) as [[a|e] st']; [exact Hc|].
  destruct (caught e); exact Hc.
Qed.

Lemma preserves_try_except {A X} (f : state -> X) (c : M A)
    (handler : exn -> option (M A)) :
  preserves f c ->
  (forall e k, handler e = Some k -> preserves f k) ->
  preserves f (try_except c handler).
Proof.
  intros Hc Hh st. unfold try_except. specialize (Hc st).
  destruct (c st) as [[a|e] st']; [exact Hc|].
  destruct (handler e) as [k|] eqn:Hk; [|exact Hc].
  rewrite (Hh e k Hk st'). exact Hc.
Qed.

End Preserves.

Ltac frame :=
  repeat first
    [ solve [auto 1] | progress cbv zeta
    | apply preserves_ret | apply preserves_raise | apply preserves_lift
    | apply preserves_get | apply preserves_try_pass
    | apply preserves_bind; [|intros ?]
    | match goal with
      | |- preserves _ (match ?x with _ => _ end) => destruct x
      end
    | (intros ?; reflexivity) ].

Section Frames.
Context {P : Platform}.

Lemma shared_mem_frame : preserves beside_segment shared_mem.
Proof. unfold shared_mem. frame. Qed.

Lemma map_file_frame : preserves beside_segment map_file.
Proof.
  unfold map_file, mmap_resize.
  pose proof shared_mem_frame.
  frame.
Qed.

Lemma beside_segment_load {A} (c : M A) :
  preserves beside_segment c -> preserves beside_load c.
Proof.
  intros H st. specialize (H st). unfold beside_segment, beside_load in *.
  congruence.
Qed.

Lemma beside_segment_save {A} (c : M A) :
  preserves beside_segment c -> preserves beside_save c.
Proof.
  intros H st. specialize (H st). unfold beside_segment, beside_save in *.
  congruence.
Qed.

Lemma unpickle_frame (bs : list byte) :
  preserves beside_load (unpickle_into_cache bs).
Proof. unfold unpickle_into_cache, new_object, alloc. frame. Qed.

Lemma load_dict_frame : preserves beside_load __load_dict.
Proof.
  unfold __load_dict, load_from_segment, load_from_file, load_default,
    mmap_read, file_read, alloc.
  pose proof (beside_segment_load _ map_file_frame).
  pose proof unpickle_frame.
  frame.
Qed.

Lemma save_dict_frame : preserves beside_save __save_dict.
Proof.
  unfold __save_dict, mmap_write, file_write.
  pose proof (beside_segment_save _ map_file_frame).
  frame.
Qed.
End Frames.

(** ** Running load and save *)

Section Protocol.
Context {P : Platform}.

Lemma map_file_mapped (st : state) (nm : pystr) (bs : list byte) :
  _map_file (self st) = Some nm ->
  shms (os st) !! nm = Some bs ->
  map_file st
  = (Ret nm,
     set_segment nm
       (resize_bytes (page_round (length (pickle_dumps_2 (cache st)))) bs) st).
Proof.
  intros Hm Hs. unfold map_file, bind, get. rewrite Hm.
  unfold ret at 1. unfold mmap_resize, bind, get. rewrite Hs.
  reflexivity.
Qed.

Lemma set_segment_twice (nm : pystr) (bs bs' : list byte) (st : state) :
  set_segment nm bs' (set_segment nm bs st) = set_segment nm bs' st.
Proof.
  unfold set_segment, with_shms. cbn. rewrite insert_insert_eq. reflexivity.
Qed.

Lemma map_file_again (st : state) (nm : pystr) (bs : list byte) :
  _map_file (self st) = Some nm ->
  let v := resize_bytes (page_round (length (pickle_dumps_2 (cache st)))) bs in
  map_file (set_segment nm v st) = (Ret nm, set_segment nm v st).
Proof.
  intros Hm v.
  rewrite (map_file_mapped (set_segment nm v st) nm v);
    [|exact Hm|apply lookup_insert_eq].
  change (cache (set_segment nm v st)) with (cache st).
  unfold v. rewrite resize_bytes_idem, set_segment_twice. reflexivity.
Qed.

Lemma set_segment_same (st : state) (nm : pystr) (bs : list byte) :
  shms (os st) !! nm = Some bs -> set_segment nm bs st = st.
Proof.
  destruct st as [h hp [s1 s2 s3 s4]]. unfold set_segment, with_shms. cbn.
  intros Hs. rewrite (insert_id _ _ _ Hs). reflexivity.
Qed.

Lemma shared_mem_beside : preserves (fun st => (self st, heap st)) shared_mem.
Proof. unfold shared_mem. frame. Qed.

(** An access that returns has mapped the handle onto a segment of the
    page-rounded length; the cache is the same. *)
Lemma map_file_returned (st st' : state) (nm : pystr) :
  map_file st = (Ret nm, st') ->
  _map_file (self st') = Some nm /\
  cache st' = cache st /\
  exists bs0,
    shms (os st') !! nm
    = Some (resize_bytes (page_round (length (pickle_dumps_2 (cache st)))) bs0).
Proof.
  assert (Hresize : forall s nm0 s',
            (s0 <- get;;
             mmap_resize nm0
               (page_round (length (pickle_dumps_2
                  (deref (heap s0) (__internal_dict (self s0))))));;
             ret nm0) s = (Ret nm, s') ->
            nm0 = nm /\ self s' = self s /\ heap s' = heap s /\
            exists bs0, shms (os s') !! nm
                        = Some (resize_bytes
                                  (page_round (length (pickle_dumps_2 (cache s))))
                                  bs0)).
  { intros s nm0 s'. unfold bind at 1, get at 1. unfold bind at 1.
    unfold mmap_resize. unfold bind at 1, get at 1.
    destruct (shms (os s) !! nm0) as [bs0|]; [|discriminate].
    unfold set_os, ret. intros [= <- <-]. repeat split.
    exists bs0. cbn. apply lookup_insert_eq. }
  unfold map_file. unfold bind at 1, get at 1. unfold bind at 1.
  destruct (_map_file (self st)) as [nm0|] eqn:Hm.
  - unfold ret at 1. intros Hrun.
    destruct (Hresize st nm0 st' Hrun) as (-> & Hself & Hheap & Hseg).
    unfold cache. rewrite Hself, Hheap. repeat split; [exact Hm|exact Hseg].
  - unfold bind at 1.
    pose proof (shared_mem_beside st) as F1.
    destruct (shared_mem st) as [[fd|e] s1]; [|discriminate].
    unfold bind at 1. pose proof (shared_mem_beside s1) as F2.
    destruct (shared_mem s1) as [[sz|e] s2]; [|discriminate].
    unfold bind at 1. unfold set_self at 1. unfold bind at 1.
    set (s3 := State (with_map_file (Some (fst fd)) (self s2)) (heap s2) (os s2)).
    pose proof (shared_mem_beside s3) as F3.
    destruct (shared_mem s3) as [[x|e] s4]; [|discriminate].
    unfold ret at 1. intros Hrun.
    destruct (Hresize s4 (fst fd) st' Hrun) as (Hnm & Hself & Hheap & Hseg).
    rewrite <- Hnm in *. cbn [snd] in F1, F2, F3.
    injection F1 as Hs1 Hh1. injection F2 as Hs2 Hh2. injection F3 as Hs3 Hh3.
    assert (Hc4 : cache s4 = cache st).
    { unfold cache. rewrite Hs3, Hh3. unfold s3. cbn.
      rewrite Hs2, Hh2, Hs1, Hh1. reflexivity. }
    rewrite Hc4 in Hseg.
    split; [rewrite Hself, Hs3; reflexivity|].
    split; [|exact Hseg].
    unfold cache. rewrite Hself, Hheap. exact Hc4.
Qed.

Lemma read_segment_mapped (st : state) (nm : pystr) (bs : list byte) :
  _map_file (self st) = Some nm ->
  shms (os st) !! nm = Some bs ->
  let v := resize_bytes (page_round (length (pickle_dumps_2 (cache st)))) bs in
  read_segment st = (Ret v, set_segment nm v st).
Proof.
  intros Hm Hs v. unfold read_segment, bind.
  rewrite (map_file_mapped st nm bs Hm Hs). fold v.
  rewrite (map_file_mapped (set_segment nm v st) nm v);
    [|exact Hm|apply lookup_insert_eq].
  change (cache (set_segment nm v st)) with (cache st). fold v.
  unfold v at 1. rewrite resize_bytes_idem. fold v.
  rewrite set_segment_twice.
  unfold mmap_read, bind, get. cbn. rewrite lookup_insert_eq. reflexivity.
Qed.

Lemma read_segment_frame : preserves beside_segment read_segment.
Proof.
  intros st. unfold read_segment, bind.
  pose proof (map_file_frame st) as H1.
  destruct (map_file st) as [[nm0|e] sa]; [|exact H1].
  pose proof (map_file_frame sa) as H2.
  destruct (map_file sa) as [[nm|e] sb]; [|cbn in *; congruence].
  unfold mmap_read, bind, get. cbn in *.
  destruct (shms (os sb) !! nm); cbn; congruence.
Qed.

Lemma unpickle_run (bs : list byte) (st : state) :
  unpickle_into_cache bs st
  = match pickle_load bs with
    | Ret o => (Ret tt, install o st)
    | Raise e => (Raise e, st)
    end.
Proof.
  unfold unpickle_into_cache, bind, lift.
  destruct (pickle_load bs) as [[| z | d]|e]; reflexivity.
Qed.

Lemma load_from_segment_run (st st1 : state) (bs : list byte) :
  read_segment st = (Ret bs, st1) ->
  load_from_segment st = try_pass load_caught (unpickle_into_cache bs) st1.
Proof.
  unfold read_segment, load_from_segment, try_pass, bind.
  destruct (map_file st) as [[nm0|e] sa]; [|discriminate].
  destruct (map_file sa) as [[nm|e] sb]; [|discriminate].
  unfold mmap_read, bind, get.
  destruct (shms (os sb) !! nm); [|discriminate].
  unfold ret. intros [= <- <-]. reflexivity.
Qed.

Lemma load_dict_run (st st1 : state) (bs : list byte) :
  read_segment st = (Ret bs, st1) ->
  __load_dict st
  = match pickle_load bs with
    | Ret o => fallback (install o st1)
    | Raise e => if load_caught e then fallback st1 else (Raise e, st1)
    end.
Proof.
  intros H. unfold __load_dict. unfold bind at 1.
  rewrite (load_from_segment_run st st1 bs H).
  unfold try_pass. rewrite unpickle_run.
  destruct (pickle_load bs) as [o|e]; [reflexivity|].
  destruct (load_caught e); reflexivity.
Qed.

Lemma fallback_kept (st : state) :
  __internal_dict (self st) <> RNone -> fallback st = (Ret tt, st).
Proof.
  intros H. unfold fallback, load_from_file, load_default, bind, get.
  destruct (__internal_dict (self st)) eqn:E; [congruence| |];
    cbn; rewrite E; reflexivity.
Qed.

Lemma fallback_none (st : state) :
  __internal_dict (self st) = RNone ->
  fallback st
  = match file_outcome st with
    | Some (Ret ONone) | None => (Ret tt, install (ODict []) st)
    | Some (Ret o) => (Ret tt, install o st)
    | Some (Raise e) =>
        if is_IOError e then (Ret tt, install (ODict []) st) else (Raise e, st)
    end.
Proof.
  intros H. unfold fallback, load_from_file, file_outcome.
  unfold bind at 1. unfold bind at 1. unfold get at 1.
  rewrite H. cbn [is_None].
  assert (Hd : load_default st = (Ret tt, install (ODict []) st)).
  { unfold load_default, bind, get. rewrite H. reflexivity. }
  destruct (persist_file (self st)) as [path|]; [|exact Hd].
  unfold try_pass, bind at 1, file_read, bind at 1, get at 1.
  destruct (files (os st) !! path) as [[fbs|]|]; cbn [raise is_IOError];
    [|exact Hd|exact Hd].
  unfold ret at 1. rewrite unpickle_run.
  destruct (pickle_load fbs) as [[| z | d]|e].
  - unfold load_default, bind, get. cbn. destruct st as [[] ? ?]. reflexivity.
  - reflexivity.
  - reflexivity.
  - destruct (is_IOError e); [exact Hd|reflexivity].
Qed.

Lemma cache_install (o : pyobj) (st : state) : cache (install o st) = o.
Proof.
  destruct o as [| z | d]; try reflexivity.
  unfold cache, install, deref. cbn.
  rewrite lookup_app_r by reflexivity. rewrite Nat.sub_diag. reflexivity.
Qed.
End Protocol.

(** ** Load *)

(** A computation's result and the state it leaves. *)
Lemma run_result {A} (c : M A) (st : state) (r : res A) :
  fst (c st) = r -> c st = (r, run c st).
Proof. intros <-. unfold run. apply surjective_pairing. Qed.

Section Load.
Context {P : Platform}.

Lemma read_segment_cache (st st1 : state) (bs : list byte) :
  read_segment st = (Ret bs, st1) ->
  __internal_dict (self st1) = __internal_dict (self st) /\
  cache st1 = cache st /\
  file_outcome st1 = file_outcome st.
Proof.
  intros H. pose proof (read_segment_frame st) as F. rewrite H in F.
  unfold beside_segment in F. cbn [snd] in F.
  injection F as Hheap Hdict _ _ _ _ Hpath _ _ _ Hfiles _.
  unfold cache, file_outcome.
  rewrite Hheap, Hdict, Hpath, Hfiles. repeat split.
Qed.

Lemma load_nothing (st st1 : state) (bs : list byte) :
  read_segment st = (Ret bs, st1) ->
  nothing_loaded st bs ->
  exists s, __load_dict st = fallback s /\
            __internal_dict (self s) = RNone /\
            file_outcome s = file_outcome st.
Proof.
  intros H Hn. destruct (read_segment_cache _ _ _ H) as (Hc & _ & Hf).
  rewrite (load_dict_run st st1 bs H).
  destruct Hn as [Hn | (e & He & Hcaught & Hnone)].
  - rewrite Hn. exists (install ONone st1). repeat split. exact Hf.
  - rewrite He, Hcaught. exists st1. repeat split; congruence.
Qed.
End Load.

(** C6 (as amended). A load reads the bytes at offset 0 of the segment.
    (1) If they deserialize to an object other than [None], that object
    becomes the cache. If deserializing raises an exception that is not
    [KeyError], [UnpicklingError] or [EOFError], the exception is
    surfaced. If it raises one of these three and the handle already has
    a cache, the cache is kept as it is. Otherwise (the segment gives
    nothing and there is no cache): (2) with a persistence path whose
    file opens, the file is deserialized, an object other than [None]
    becomes the cache, and an exception other than [IOError] is
    surfaced; (3) in every remaining case, among them a file that does
    not open, the cache becomes an empty mapping. *)
Theorem load_dict_outcomes `{Platform} (st st1 : state) (bs : list byte) :
  read_segment st = (Ret bs, st1) ->
  (forall o, pickle_load bs = Ret o -> o <> ONone ->
     exists st', __load_dict st = (Ret tt, st') /\ cache st' = o) /\
  (forall e, pickle_load bs = Raise e -> load_caught e = false ->
     __load_dict st = (Raise e, st1)) /\
  (forall e, pickle_load bs = Raise e -> load_caught e = true ->
     __internal_dict (self st) <> RNone ->
     __load_dict st = (Ret tt, st1) /\ cache st1 = cache st) /\
  (nothing_loaded st bs ->
     (forall o, file_outcome st = Some (Ret o) -> o <> ONone ->
        exists st', __load_dict st = (Ret tt, st') /\ cache st' = o) /\
     (forall e, file_outcome st = Some (Raise e) -> is_IOError e = false ->
        exists st', __load_dict st = (Raise e, st')) /\
     (file_outcome st = None \/ file_outcome st = Some (Ret ONone) \/
      file_outcome st = Some (Raise IOError) ->
        exists st', __load_dict st = (Ret tt, st') /\ cache st' = ODict [])).
Proof.
  intros Hread.
  destruct (read_segment_cache _ _ _ Hread) as (Hc & Hcache & Hf).
  pose proof (load_dict_run st st1 bs Hread) as Hrun.
  split; [|split; [|split]].
  - intros o Ho Hne. rewrite Ho in Hrun.
    exists (install o st1). split; [|apply cache_install].
    rewrite Hrun. apply fallback_kept. destruct o; cbn; congruence.
  - intros e He Hn. rewrite He, Hn in Hrun. exact Hrun.
  - intros e He Hcaught Hsome. rewrite He, Hcaught in Hrun.
    split; [|exact Hcache].
    rewrite Hrun. apply fallback_kept. congruence.
  - intros Hnothing.
    destruct (load_nothing st st1 bs Hread Hnothing) as (s & Hs & Hnone & Hfs).
    rewrite Hs, (fallback_none s Hnone), Hfs.
    split; [|split].
    + intros o Ho Hne. rewrite Ho. exists (install o s).
      split; [|apply cache_install]. destruct o; congruence.
    + intros e He Hio. rewrite He, Hio. eauto.
    + intros [Ho | [Ho | Ho]]; rewrite Ho; cbn [is_IOError];
        exists (install (ODict []) s); split; reflexivity || apply cache_install.
Qed.

(** A new handle on a new name: the segment is created with zero bytes,
    which do not deserialize, and the cache becomes an empty mapping. *)
Lemma load_dict_outcomes_witness :
  exists st', __load_dict (boot vol_shm_dict empty_world) = (Ret tt, st') /\
              cache st' = ODict [].
Proof.
  destruct (load_dict_outcomes (boot vol_shm_dict empty_world)
              (run read_segment (boot vol_shm_dict empty_world))
              (repeat x00 4096)) as (_ & _ & _ & H4).
  - apply run_result. vm_compute. reflexivity.
  - destruct H4 as (_ & _ & H).
    + right. exists UnpicklingError. vm_compute. repeat split.
    + apply H. left. reflexivity.
Defined.

(** C6 (as stated) fails. A process has stored a long value; after
    another process has looked at the dictionary, the segment no longer
    deserializes; no persistence path is configured; yet the load of the
    first process does not initialize an empty mapping: the cache of
    before is kept. And bytes that name an unknown pickle protocol make
    a load raise [ValueError]. *)
Lemma load_dict_fourth_outcome :
  (exists bs,
     fst (read_segment first_again) = Ret bs /\
     pickle_load bs = Raise UnpicklingError /\
     persist_file (self first_again) = None /\
     fst (__load_dict first_again) = Ret tt /\
     cache (run __load_dict first_again) = ODict [(str "K1", long_value)] /\
     cache (run __load_dict first_again) <> ODict []) /\
  (exists nm,
     _map_file (self first_stored) = Some nm /\
     fst (__load_dict (set_segment nm (x80 :: xff :: repeat x00 4094) first_stored))
     = Raise ValueError).
Proof.
  split.
  - eexists.
    split; [vm_compute; reflexivity|].
    split; [vm_compute; reflexivity|].
    split; [vm_compute; reflexivity|].
    split; [vm_compute; reflexivity|].
    split; [vm_compute; reflexivity|].
    vm_compute. discriminate.
  - eexists. split; [vm_compute; reflexivity|]. vm_compute. reflexivity.
Qed.

(** ** Save *)

Section Save.
Context {P : Platform}.

Lemma save_dict_mapped (st : state) (nm : pystr) (bs : list byte) :
  _map_file (self st) = Some nm ->
  shms (os st) !! nm = Some bs ->
  __dirty (self st) = true ->
  let payload := pickle_dumps_2 (cache st) in
  let seg := overwrite payload (resize_bytes (page_round (length payload)) bs) in
  __save_dict st
  = match persist_file (self st) with
    | None => (Ret tt, set_dirty false (set_segment nm seg st))
    | Some path =>
        match files (os st) !! path with
        | Some FDenied => (Raise IOError, set_segment nm seg st)
        | _ => (Ret tt,
                set_dirty false (set_file path payload (set_segment nm seg st)))
        end
    end.
Proof.
  intros Hm Hs Hd payload seg.
  pose proof (map_file_again st nm bs Hm) as Hagain.
  pose proof (map_file_mapped st nm bs Hm Hs) as Hfirst.
  fold payload in Hagain, Hfirst. cbv zeta in Hagain.
  set (v := resize_bytes (page_round (length payload)) bs) in *.
  assert (Hfit : length payload <= length v).
  { unfold v. rewrite length_resize_bytes. apply page_round_ge. }
  unfold __save_dict. unfold bind at 1. unfold get at 1. rewrite Hd.
  unfold bind at 1. unfold bind at 1. rewrite Hfirst.
  unfold bind at 1. unfold get at 1. unfold bind at 1. rewrite Hagain.
  change (deref (heap (set_segment nm v st))
            (__internal_dict (self (set_segment nm v st)))) with (cache st).
  fold payload.
  unfold bind at 1. unfold mmap_write at 1. unfold bind at 1. unfold get at 1.
  change (shms (os (set_segment nm v st)) !! nm)
    with (<[nm := v]> (shms (os st)) !! nm).
  rewrite lookup_insert_eq.
  destruct (decide (length payload <= length v)) as [_|Hn]; [|contradiction].
  change (set_os _ (set_segment nm v st))
    with (Ret tt, set_segment nm (overwrite payload v) (set_segment nm v st)).
  rewrite set_segment_twice. fold seg.
  change (persist_file (self (set_segment nm v st))) with (persist_file (self st)).
  destruct (persist_file (self st)) as [path|]; [|reflexivity].
  unfold file_write, bind, get.
  change (files (os (set_segment nm seg st))) with (files (os st)).
  destruct (files (os st) !! path) as [[fbs|]|]; reflexivity.
Qed.

(** Whatever happens to the persistence file, a save of a dirty cache
    leaves the pickled cache at offset 0 of a segment of the
    page-rounded length. *)
Lemma save_dict_segment (st : state) (nm : pystr) (bs : list byte) :
  _map_file (self st) = Some nm ->
  shms (os st) !! nm = Some bs ->
  __dirty (self st) = true ->
  let payload := pickle_dumps_2 (cache st) in
  let seg := overwrite payload (resize_bytes (page_round (length payload)) bs) in
  let st1 := run __save_dict st in
  _map_file (self st1) = Some nm /\
  shms (os st1) !! nm = Some seg /\
  cache st1 = cache st /\
  length seg = page_round (length payload).
Proof.
  intros Hm Hs Hd payload seg st1.
  assert (Hlen : length seg = page_round (length payload)).
  { unfold seg. rewrite length_overwrite; rewrite length_resize_bytes;
      [reflexivity | apply page_round_ge]. }
  unfold st1, run. rewrite (save_dict_mapped st nm bs Hm Hs Hd).
  fold payload. fold seg.
  destruct (persist_file (self st)) as [path|];
    [destruct (files (os st) !! path) as [[fbs|]|]|];
    cbn [snd]; (split; [exact Hm|]); (split; [apply lookup_insert_eq|]);
    (split; [reflexivity|exact Hlen]).
Qed.
End Save.

(** C7. A save with the dirty flag set and a persistence path: when the
    file cannot be written the save raises [IOError] and the flag stays
    set; otherwise the save returns, the segment and the file hold the
    pickled cache and the flag is cleared. So the flag is clear after
    the save only if both writes were made. *)
Theorem save_persist_failure `{Platform}
    (st : state) (nm path : pystr) (bs : list byte) :
  _map_file (self st) = Some nm ->
  shms (os st) !! nm = Some bs ->
  __dirty (self st) = true ->
  persist_file (self st) = Some path ->
  let payload := pickle_dumps_2 (cache st) in
  let st1 := run __save_dict st in
  let written :=
    (exists seg, segment st1 = Some seg /\ take (length payload) seg = payload) /\
    files (os st1) !! path = Some (FFile payload) in
  (files (os st) !! path = Some FDenied ->
     fst (__save_dict st) = Raise IOError /\ __dirty (self st1) = true) /\
  (files (os st) !! path <> Some FDenied ->
     fst (__save_dict st) = Ret tt /\ __dirty (self st1) = false /\ written) /\
  (__dirty (self st1) = false -> written).
Proof.
  intros Hm Hs Hd Hp payload st1 written.
  pose proof (save_dict_mapped st nm bs Hm Hs Hd) as Hrun.
  cbv zeta in Hrun. fold payload in Hrun. rewrite Hp in Hrun.
  set (seg := overwrite payload
                (resize_bytes (page_round (length payload)) bs)) in Hrun.
  assert (Hok : files (os st) !! path <> Some FDenied ->
                fst (__save_dict st) = Ret tt /\ __dirty (self st1) = false /\
                written).
  { intros Hw. unfold written, st1, run.
    assert (E : __save_dict st
                = (Ret tt, set_dirty false
                             (set_file path payload (set_segment nm seg st)))).
    { rewrite Hrun. destruct (files (os st) !! path) as [[fbs|]|];
        [reflexivity|contradiction|reflexivity]. }
    rewrite E. cbn [fst snd]. split; [reflexivity|]. split; [reflexivity|].
    split.
    - exists seg. split.
      + unfold segment. cbn. rewrite Hm. apply lookup_insert_eq.
      + unfold seg, overwrite. rewrite take_app_length. reflexivity.
    - cbn. apply lookup_insert_eq. }
  assert (Hko : files (os st) !! path = Some FDenied ->
                fst (__save_dict st) = Raise IOError /\
                __dirty (self st1) = true).
  { intros Hw. unfold st1, run. rewrite Hrun, Hw. cbn. split; [reflexivity|exact Hd]. }
  split; [exact Hko|]. split; [exact Hok|].
  intros Hclear.
  destruct (files (os st) !! path) as [[fbs|]|] eqn:Hw.
  - apply Hok. discriminate.
  - destruct (Hko eq_refl) as [_ Hset]. congruence.
  - apply Hok. discriminate.
Qed.

Lemma save_persist_failure_witness :
  (fst (__save_dict (pending per_shm_dict denied_world)) = Raise IOError /\
   __dirty (self (run __save_dict (pending per_shm_dict denied_world))) = true) /\
  (fst (__save_dict (pending per_shm_dict empty_world)) = Ret tt /\
   __dirty (self (run __save_dict (pending per_shm_dict empty_world))) = false).
Proof.
  split.
  - edestruct (save_persist_failure (pending per_shm_dict denied_world))
      as (H1 & _ & _); [vm_compute; reflexivity ..|].
    apply H1. vm_compute. reflexivity.
  - edestruct (save_persist_failure (pending per_shm_dict empty_world))
      as (_ & H2 & _); [vm_compute; reflexivity ..|].
    destruct H2 as (Hr & Hd & _); [vm_compute; discriminate|].
    split; assumption.
Defined.





(** C5 (as amended). Every access to the mapping that returns has
    resized the segment to exactly the smallest multiple of the page
    size that holds the pickled cache: the bytes of a mapped segment are
    cut or extended with zeros, so the length grows or shrinks; an
    access with the same target leaves the segment as it is. Right after
    a save of a dirty cache the segment has that length for the cache
    just saved. *)
Theorem map_file_resizes `{Platform} (st st' : state) (nm : pystr) :
  map_file st = (Ret nm, st') ->
  let target := length (pickle_dumps_2 (cache st)) in
  let page := Pos.to_nat PAGESIZE in
  exists seg,
    segment st' = Some seg /\
    target <= length seg /\
    Nat.divide page (length seg) /\
    (forall m, target <= m -> Nat.divide page m -> length seg <= m) /\
    (forall bs, segment st = Some bs -> seg = resize_bytes (length seg) bs) /\
    map_file st' = (Ret nm, st') /\
    (__dirty (self st) = true -> is_Some (segment st) ->
       exists seg', segment (run __save_dict st) = Some seg' /\
                    length seg' = length seg).
Proof.
  intros Hrun target page.
  destruct (map_file_returned st st' nm Hrun) as (Hm' & Hc' & bs0 & Hs').
  fold target in Hs'.
  set (seg := resize_bytes (page_round target) bs0) in *.
  assert (Hlen : length seg = page_round target) by apply length_resize_bytes.
  exists seg.
  split; [unfold segment; rewrite Hm'; exact Hs'|].
  split; [rewrite Hlen; apply page_round_ge|].
  split; [rewrite Hlen; apply page_round_multiple|].
  split; [intros m H1 H2; rewrite Hlen; apply page_round_least; assumption|].
  split; [|split].
  - unfold segment. intros bs Hbs.
    destruct (_map_file (self st)) as [nm0|] eqn:Hm; [|discriminate].
    rewrite (map_file_mapped st nm0 bs Hm Hbs) in Hrun.
    injection Hrun as <- <-. fold target in Hs'.
    cbn in Hs'. rewrite lookup_insert_eq in Hs'. injection Hs' as Hs'.
    rewrite Hlen. symmetry. exact Hs'.
  - rewrite (map_file_mapped st' nm seg Hm' Hs'). rewrite Hc'. fold target.
    rewrite <- Hlen, resize_bytes_same.
    rewrite (set_segment_same st' nm seg Hs'). reflexivity.
  - intros Hd [bs Hbs]. unfold segment in Hbs.
    destruct (_map_file (self st)) as [nm0|] eqn:Hm; [|discriminate].
    destruct (save_dict_segment st nm0 bs Hm Hbs Hd) as (Hm1 & Hs1 & _ & Hl1).
    eexists. split.
    + unfold segment. rewrite Hm1. exact Hs1.
    + rewrite Hl1, Hlen. reflexivity.
Qed.

Lemma map_file_resizes_witness :
  exists seg,
    segment (run map_file (boot vol_shm_dict empty_world)) = Some seg /\
    Nat.divide (Pos.to_nat PAGESIZE) (length seg) /\
    fst (map_file (run map_file (boot vol_shm_dict empty_world)))
    = fst (map_file (boot vol_shm_dict empty_world)).
Proof.
  epose proof (map_file_resizes (boot vol_shm_dict empty_world)
                 (run map_file (boot vol_shm_dict empty_world)) _) as HT.
  cbv zeta in HT.
  edestruct HT as (seg & Hseg & _ & Hdiv & _ & _ & Hidem & _).
  - apply run_result. vm_compute. reflexivity.
  - exists seg. split; [exact Hseg|]. split; [exact Hdiv|].
    rewrite Hidem. vm_compute. reflexivity.
Defined.

(** C5 (as stated) fails. Storing a long value makes the segment two
    pages long; clearing the dictionary then shrinks it to one page. And
    when a second process looks at the dictionary after the store, the
    segment is one page long, less than the page-rounded length of what
    the first process has saved last. *)
Lemma resize_shrinks :
  (length <$> segment stored_long = Some (2 * 4096) /\
   fst (clear 0 stored_long) = Ret tt /\
   length <$> segment cleared = Some 4096) /\
  (__dirty (self stored_long) = false /\
   page_round (length (pickle_dumps_2 (cache stored_long))) = 2 * 4096 /\
   fst (__len__ 0 (boot vol_shm_dict (os stored_long))) = Ret 0 /\
   length <$> segment first_again = Some 4096).
Proof.
  split; (split; [vm_compute; reflexivity|]);
    (split; [vm_compute; reflexivity|]);
    [|split; [vm_compute; reflexivity|]]; vm_compute; reflexivity.
Qed.

(** ** The lock *)

Section Lock.
Context {P : Platform}.

Lemma acquire_held (tid : nat) (st : state) :
  held tid st = Some true -> _acquire_lock tid st = __load_dict st.
Proof.
  unfold held. intros H. unfold _acquire_lock.
  unfold bind at 1. unfold get at 1. unfold bind at 1. rewrite H. reflexivity.
Qed.

Lemma view_read_segment (st : state) (v : list byte) :
  view st = Some v -> read_segment st = (Ret v, run read_segment st).
Proof.
  unfold view. intros H.
  destruct (_map_file (self st)) as [nm|] eqn:Hm; [|discriminate].
  destruct (shms (os st) !! nm) as [bs|] eqn:Hs; [|discriminate].
  injection H as <-. apply run_result.
  rewrite (read_segment_mapped st nm bs Hm Hs). reflexivity.
Qed.

Lemma load_dict_lock (st st' : state) :
  st' = run __load_dict st ->
  sems (os st') = sems (os st) /\
  waited (os st') = waited (os st) /\
  __thread_local (self st') = __thread_local (self st) /\
  _semaphore (self st') = _semaphore (self st).
Proof.
  intros ->. pose proof (load_dict_frame st) as F.
  unfold beside_load in F. fold (run __load_dict st) in F.
  injection F as _ Hlocal Hsem _ _ _ _ Hsems _ Hwait.
  repeat split; assumption.
Qed.

Lemma save_dict_lock (st st' : state) :
  st' = run __save_dict st ->
  sems (os st') = sems (os st) /\
  __thread_local (self st') = __thread_local (self st) /\
  _semaphore (self st') = _semaphore (self st) /\
  heap st' = heap st /\
  __internal_dict (self st') = __internal_dict (self st).
Proof.
  intros ->. pose proof (save_dict_frame st) as F.
  unfold beside_save in F. fold (run __save_dict st) in F.
  injection F as Hheap Hdict Hlocal Hsem _ _ _ _ Hsems _.
  repeat split; assumption.
Qed.

(** The release after a save that has returned. *)
Lemma release_after_save (tid : nat) (s : state) (nm : pystr) (v : Z) :
  _semaphore (self s) = Some nm ->
  sems (os s) !! nm = Some v ->
  (nm' <- semaphore;; sem_release nm';; set_held tid false) s
  = (Ret tt,
     State (with_thread_local (<[tid := false]> (__thread_local (self s))) (self s))
           (heap s)
           (with_sems (<[nm := (v + 1)%Z]> (sems (os s))) (os s))).
Proof.
  intros Hsem Hv. unfold semaphore, bind, get. rewrite Hsem.
  unfold ret at 1. unfold sem_release, bind, get. rewrite Hv. reflexivity.
Qed.
End Lock.

(** C1 (as amended). A release on a thread whose flag is set first
    saves; if the save raises, the exception goes to the caller, the
    semaphore is not released and the flag stays set. Otherwise the
    semaphore is released, its value going up by one, whether or not
    this thread's acquire had taken it, and then the flag is cleared;
    the release changes nothing else of what the save has left. *)
Theorem release_lock_steps `{Platform}
    (st : state) (tid : nat) (nm : pystr) (v : Z) :
  held tid st = Some true ->
  _semaphore (self st) = Some nm ->
  sems (os st) !! nm = Some v ->
  let saved := run __save_dict st in
  let st' := run (_release_lock tid) st in
  (forall e, fst (__save_dict st) = Raise e ->
     _release_lock tid st = (Raise e, saved) /\
     sems (os saved) !! nm = Some v /\ held tid saved = Some true) /\
  (fst (__save_dict st) = Ret tt ->
     fst (_release_lock tid st) = Ret tt /\
     sems (os st') = <[nm := (v + 1)%Z]> (sems (os st)) /\
     held tid st' = Some false /\
     shms (os st') = shms (os saved) /\
     files (os st') = files (os saved) /\
     cache st' = cache saved /\
     __dirty (self st') = __dirty (self saved)).
Proof.
  intros Hheld Hsem Hv saved st'. unfold held in Hheld.
  destruct (save_dict_lock st saved eq_refl) as (Fsems & Flocal & Fsem & _).
  assert (Hrun : _release_lock tid st
                 = bind __save_dict
                     (fun _ => nm' <- semaphore;; sem_release nm';; set_held tid false) st).
  { unfold _release_lock. unfold bind at 1. unfold get at 1. rewrite Hheld.
    reflexivity. }
  split.
  - intros e He. split; [|split].
    + rewrite Hrun. unfold bind at 1.
      rewrite (surjective_pairing (__save_dict st)), He. reflexivity.
    + rewrite Fsems. exact Hv.
    + unfold held. rewrite Flocal. exact Hheld.
  - intros Hok.
    assert (E : _release_lock tid st
                = (Ret tt,
                   State (with_thread_local
                            (<[tid := false]> (__thread_local (self saved)))
                            (self saved))
                         (heap saved)
                         (with_sems (<[nm := (v + 1)%Z]> (sems (os saved)))
                                    (os saved)))).
    { rewrite Hrun. unfold bind at 1.
      rewrite (surjective_pairing (__save_dict st)), Hok.
      apply (release_after_save tid saved nm v); [rewrite Fsem; exact Hsem|].
      rewrite Fsems. exact Hv. }
    unfold st', run. rewrite E. cbn [fst snd].
    split; [reflexivity|]. split; [cbn; rewrite Fsems; reflexivity|].
    split; [unfold held; cbn; apply lookup_insert_eq|].
    repeat split.
Qed.

Lemma release_lock_steps_witness :
  fst (_release_lock 0 (pending vol_shm_dict empty_world)) = Ret tt /\
  held 0 (run (_release_lock 0) (pending vol_shm_dict empty_world)) = Some false.
Proof.
  epose proof (release_lock_steps (pending vol_shm_dict empty_world) 0 _ _) as HT.
  cbv zeta in HT.
  edestruct HT as (_ & H2).
  - vm_compute. reflexivity.
  - vm_compute. reflexivity.
  - vm_compute. reflexivity.
  - destruct H2 as (Hr & _ & Hh & _); [vm_compute; reflexivity|].
    split; [exact Hr|exact Hh].
Defined.

(** C1 (as stated) fails. One process holds the lock (value 0). A second
    one, with [auto_unlock] set and a timeout of 0, goes on without
    taking the semaphore (the value stays 0); its release raises the
    value to 1 all the same; the release of the holder then raises it
    to 2, above the initial value. *)
Lemma release_without_acquire :
  sem_value holder_in = Some 0%Z /\
  fst (_acquire_lock 0 (boot bypass_dict (os holder_in))) = Ret tt /\
  held 0 bypasser_in = Some true /\
  sem_value bypasser_in = Some 0%Z /\
  fst (_release_lock 0 bypasser_in) = Ret tt /\
  sem_value bypasser_out = Some 1%Z /\
  fst (_release_lock 0 (resume holder_in bypasser_out)) = Ret tt /\
  sem_value holder_out = Some 2%Z.
Proof. repeat (split; [vm_compute; reflexivity|]). vm_compute. reflexivity. Qed.

(** C2 (as amended). An acquire on a thread that holds the lock does not
    touch the semaphore (neither its value nor any wait) and leaves the
    flag set, but it is a load all the same: when the bytes of the
    segment deserialize to an object, that object replaces the cache;
    the cache is kept only when they do not deserialize (with a caught
    exception). *)
Theorem acquire_reentrant `{Platform} (st : state) (tid : nat) (v : list byte) :
  held tid st = Some true ->
  view st = Some v ->
  let st' := run (_acquire_lock tid) st in
  _acquire_lock tid st = __load_dict st /\
  sems (os st') = sems (os st) /\
  waited (os st') = waited (os st) /\
  held tid st' = Some true /\
  (forall o, pickle_load v = Ret o -> o <> ONone ->
     fst (_acquire_lock tid st) = Ret tt /\ cache st' = o) /\
  (forall e, pickle_load v = Raise e -> load_caught e = true ->
     __internal_dict (self st) <> RNone ->
     fst (_acquire_lock tid st) = Ret tt /\ cache st' = cache st).
Proof.
  intros Hheld Hview st'.
  pose proof (acquire_held tid st Hheld) as Hacq.
  assert (Hst' : st' = run __load_dict st).
  { unfold st', run. rewrite Hacq. reflexivity. }
  destruct (load_dict_lock st st' Hst') as (Fsems & Fwait & Flocal & _).
  pose proof (view_read_segment st v Hview) as Hread.
  pose proof (load_dict_run _ _ _ Hread) as Hrun.
  destruct (read_segment_cache _ _ _ Hread) as (Hdict & Hcache & _).
  split; [exact Hacq|]. split; [exact Fsems|]. split; [exact Fwait|].
  split; [unfold held; rewrite Flocal; exact Hheld|].
  rewrite Hst'. unfold run. rewrite Hacq, Hrun. split.
  - intros o Ho Hne. rewrite Ho.
    rewrite fallback_kept by (destruct o; cbn; congruence).
    split; [reflexivity|apply cache_install].
  - intros e He Hcaught Hsome. rewrite He, Hcaught.
    rewrite fallback_kept by congruence.
    split; [reflexivity|exact Hcache].
Qed.

Lemma acquire_reentrant_witness :
  fst (_acquire_lock 0 outer_mutated) = Ret tt /\
  cache (run (_acquire_lock 0) outer_mutated) = ODict [(str "K1", str "V1")].
Proof.
  epose proof (acquire_reentrant outer_mutated 0 _) as HT.
  cbv zeta in HT.
  edestruct HT as (_ & _ & _ & _ & H5 & _).
  - vm_compute. reflexivity.
  - vm_compute. reflexivity.
  - apply (H5 (ODict [(str "K1", str "V1")])).
    + vm_compute. reflexivity.
    + discriminate.
Defined.

(** C2 (as stated) fails. A thread holds the lock and has stored a
    second key in the cache; it takes the lock again: the segment, which
    holds the first key only, is loaded and the second key is gone from
    the cache. *)
Lemma nested_acquire_reloads :
  held 0 outer_mutated = Some true /\
  __dirty (self outer_mutated) = true /\
  cache outer_mutated = ODict [(str "K1", str "V1"); (str "K2", str "V2")] /\
  fst (_acquire_lock 0 outer_mutated) = Ret tt /\
  cache (run (_acquire_lock 0) outer_mutated) = ODict [(str "K1", str "V1")] /\
  cache (run (_acquire_lock 0) outer_mutated) <> cache outer_mutated.
Proof.
  repeat (split; [vm_compute; reflexivity|]). vm_compute. discriminate.
Qed.

(** ** The first access of a handle *)

Lemma resize_zeros (n k : nat) : resize_bytes n (repeat x00 k) = repeat x00 n.
Proof.
  unfold resize_bytes. revert k.
  induction n as [|n IH]; intros [|k]; cbn; try reflexivity.
  f_equal. apply IH.
Qed.

Section FirstAccess.
Context {P : Platform}.

Lemma shared_mem_create (st : state) (nm : pystr) :
  safe_shm_name (self st) = Ret nm ->
  shms (os st) !! nm = None ->
  shared_mem st
  = (Ret (nm, Pos.to_nat PAGESIZE),
     set_segment nm (repeat x00 (Pos.to_nat PAGESIZE)) st).
Proof.
  intros Hn Hs. unfold shared_mem, bind, get, lift. rewrite Hn, Hs. reflexivity.
Qed.

(** Opening a segment that exists: it is as it was, or truncated. *)
Lemma shared_mem_open (st : state) (nm : pystr) (bs : list byte) :
  safe_shm_name (self st) = Ret nm ->
  shms (os st) !! nm = Some bs ->
  exists n, shared_mem st
            = (Ret (nm, n), set_segment nm (resize_bytes n bs) st).
Proof.
  intros Hn Hs. unfold shared_mem, bind, get, lift. rewrite Hn, Hs.
  destruct (decide (_ = 0)) as [E|E].
  - exists (length bs). rewrite resize_bytes_same.
    rewrite (set_segment_same st nm bs Hs). reflexivity.
  - eexists. reflexivity.
Qed.

Lemma map_file_unmapped (st : state) (nm : pystr) :
  unmapped st nm ->
  map_file st
  = (Ret nm,
     mapped nm (repeat x00 (page_round (length (pickle_dumps_2 (cache st))))) st).
Proof.
  intros (Hm & Hn & Hs). unfold map_file. unfold bind at 1, get at 1.
  rewrite Hm. unfold bind at 1. unfold bind at 1.
  rewrite (shared_mem_create st nm Hn Hs).
  set (s1 := set_segment nm _ st).
  destruct (shared_mem_open s1 nm (repeat x00 (Pos.to_nat PAGESIZE)) Hn)
    as (n2 & H2); [apply lookup_insert_eq|].
  unfold bind at 1. rewrite H2. rewrite resize_zeros.
  set (s2 := set_segment nm _ s1).
  unfold bind at 1. unfold set_self at 1. cbn [fst snd].
  set (s2' := State _ _ _).
  destruct (shared_mem_open s2' nm (repeat x00 n2) Hn)
    as (n3 & H3); [apply lookup_insert_eq|].
  unfold bind at 1. rewrite H3. rewrite resize_zeros.
  unfold ret at 1. unfold bind at 1, get at 1.
  unfold mmap_resize, bind, get. cbn [set_segment os shms with_shms self heap].
  rewrite lookup_insert_eq. unfold set_os, ret. cbn [self heap os fst snd].
  rewrite resize_zeros. unfold mapped, with_shms. cbn.
  rewrite !insert_insert_eq. reflexivity.
Qed.

Lemma read_segment_unmapped (st : state) (nm : pystr) :
  unmapped st nm ->
  let zeros := repeat x00 (page_round (length (pickle_dumps_2 (cache st)))) in
  read_segment st = (Ret zeros, mapped nm zeros st).
Proof.
  intros Hun zeros. unfold read_segment. unfold bind at 1.
  rewrite (map_file_unmapped st nm Hun). fold zeros.
  unfold bind at 1.
  rewrite (map_file_mapped (mapped nm zeros st) nm zeros);
    [|reflexivity|apply lookup_insert_eq].
  change (cache (mapped nm zeros st)) with (cache st).
  unfold zeros at 1. rewrite resize_zeros. fold zeros.
  rewrite (set_segment_same _ nm zeros) by apply lookup_insert_eq.
  unfold mmap_read, bind, get. cbn [mapped os shms with_shms].
  rewrite lookup_insert_eq. reflexivity.
Qed.

(** The first load of a handle on a name without segment. *)
Lemma first_load (st : state) (nm : pystr) (m : pydict) :
  unmapped st nm ->
  __internal_dict (self st) = RNone ->
  blank_rejected ->
  initial st = Some m ->
  let zeros := repeat x00 (page_round (length (pickle_dumps_2 ONone))) in
  __load_dict st = (Ret tt, install (ODict m) (mapped nm zeros st)).
Proof.
  intros Hun Hi Hblank Hinit zeros.
  pose proof (read_segment_unmapped st nm Hun) as Hread. cbv zeta in Hread.
  assert (Hc : cache st = ONone) by (unfold cache; rewrite Hi; reflexivity).
  rewrite Hc in Hread. fold zeros in Hread.
  rewrite (load_dict_run _ _ _ Hread).
  destruct (Hblank (page_round (length (pickle_dumps_2 ONone)))) as (e & He & Hcaught).
  fold zeros in He. rewrite He, Hcaught.
  rewrite fallback_none by exact Hi.
  unfold initial in Hinit.
  change (file_outcome (mapped nm zeros st)) with (file_outcome st).
  destruct (file_outcome st) as [[[|z|d]|e']|];
    try discriminate Hinit; try (injection Hinit as <-; reflexivity).
  destruct e'; try discriminate Hinit. injection Hinit as <-. reflexivity.
Qed.
End FirstAccess.

Lemma cpython_blank_rejected : blank_rejected (H := cpython_linux).
Proof.
  intros [|n]; [exists EOFError|exists UnpicklingError]; split; reflexivity.
Qed.

(** ** A busy semaphore *)

Section Busy.
Context {P : Platform}.

Lemma opened_already (st : state) (nm : pystr) :
  _semaphore (self st) = Some nm -> opened nm st = st.
Proof.
  destruct st as [[] hp w]. cbn. intros ->. reflexivity.
Qed.

Lemma semaphore_run (st : state) (nm : pystr) (v : Z) :
  semaphore_of st = Some nm ->
  sems (os st) !! nm = Some v ->
  semaphore st = (Ret nm, opened nm st).
Proof.
  unfold semaphore_of, semaphore. intros Hof Hv. unfold bind at 1, get at 1.
  destruct (_semaphore (self st)) as [nm'|] eqn:Hsem.
  - injection Hof as ->. rewrite (opened_already st nm Hsem). reflexivity.
  - destruct (safe_sem_name (self st)) as [nm'|e]; [|discriminate].
    injection Hof as ->. unfold bind, lift. rewrite Hv. reflexivity.
Qed.



End Busy.

Section Avoids.





End Avoids.


Section NeverBusy.
Context {P : Platform}.
Hypothesis codec_not_busy : forall bs, pickle_load bs <> Raise BusyError.





End NeverBusy.




(** ** Threads *)

Section Threads.
Context {P : Platform}.


Lemma load_dict_held (tid : nat) : preserves (held tid) __load_dict.
Proof.
  intros st. destruct (load_dict_lock st _ eq_refl) as (_ & _ & H & _).
  unfold held. fold (run __load_dict st). rewrite H. reflexivity.
Qed.







End Threads.



(** ** Iterators *)

Section Iterators.
Context {P : Platform}.





Lemma release_lock_objects (tid : nat) : preserves objects (_release_lock tid).
Proof.
  assert (Hsave : preserves objects __save_dict).
  { intros st. destruct (save_dict_lock st _ eq_refl) as (_ & _ & _ & H1 & H2).
    unfold objects. fold (run __save_dict st). rewrite H1, H2. reflexivity. }
  unfold _release_lock, semaphore, sem_release, set_held. frame.
Qed.


(** The lock step of an acquire, and what follows it. *)
Lemma acquire_lock_run (tid : nat) (st : state) :
  _acquire_lock tid st
  = match __thread_local (self st) !! tid with
    | Some true => __load_dict st
    | Some false =>
        match (nm <- semaphore;; sem_acquire nm (lock_timeout (self st));;
               set_held tid true) st with
        | (Ret _, s1) => __load_dict s1
        | (Raise BusyError, s1) =>
            if auto_unlock (self st)
            then __load_dict (run (set_held tid true) s1)
            else (Raise BusyError, s1)
        | (Raise e, s1) => (Raise e, s1)
        end
    | None => (Raise AttributeError, st)
    end.
Proof.
  unfold _acquire_lock. unfold bind at 1, get at 1. unfold bind at 1.
  destruct (__thread_local (self st) !! tid) as [[|]|]; try reflexivity.
  unfold try_except.
  destruct ((nm <- semaphore;; sem_acquire nm (lock_timeout (self st));;
             set_held tid true) st) as [[[]|e] s1]; [reflexivity|].
  destruct e; try reflexivity.
  destruct (auto_unlock (self st)); reflexivity.
Qed.


Lemma view_load_input (s s' : state) :
  load_input s' = load_input s -> view s' = view s.
Proof.
  unfold load_input, view. intros [= -> -> -> ->]. reflexivity.
Qed.




End Iterators.




(* ===================================================================== *)
(** * Part II, continued: the operations *)
(* ===================================================================== *)

(** ** An operation, phase by phase *)

Section Phases.
Context {P : Platform}.

Lemma exclusive_lock_ext {A} (tid : nat) (c c' : M A) (st : state) :
  (forall s, c s = c' s) ->
  exclusive_lock tid c st = exclusive_lock tid c' st.
Proof.
  intros E. unfold exclusive_lock, bind.
  destruct (_acquire_lock tid st) as [[[]|e] s1]; [|reflexivity].
  rewrite E. reflexivity.
Qed.

Lemma exclusive_lock_map {A B} (tid : nat) (c : M A) (f : A -> B) (st : state) :
  (x <- exclusive_lock tid c;; ret (f x)) st
  = exclusive_lock tid (x <- c;; ret (f x)) st.
Proof.
  unfold exclusive_lock, bind, ret.
  destruct (_acquire_lock tid st) as [[[]|e] s1]; [|reflexivity].
  destruct (c s1) as [[a|e] s2]; [|reflexivity].
  destruct (_release_lock tid s2) as [[[]|e] s3]; reflexivity.
Qed.

Lemma bind_assoc {A B C} (c : M A) (k : A -> M B) (k' : B -> M C) (st : state) :
  (y <- (x <- c;; k x);; k' y) st = (x <- c;; y <- k x;; k' y) st.
Proof.
  unfold bind. destruct (c st) as [[a|e] s1]; reflexivity.
Qed.

(** Every operation is its block inside the lock. *)
Lemma call_body (tid : nat) (o : op) (st : state) :
  call tid o st = exclusive_lock tid (body o) st.
Proof.
  destruct o; cbn [call body];
    unfold __setitem__, __getitem__, __repr__, __len__, __delitem__, clear,
      copy, has_key, __contains__, __iter__;
    rewrite exclusive_lock_map;
    first [reflexivity | apply exclusive_lock_ext; intros s; apply bind_assoc].
Qed.

Lemma exclusive_lock_run {A} (tid : nat) (c : M A) (st sA : state) :
  _acquire_lock tid st = (Ret tt, sA) ->
  exclusive_lock tid c st
  = match c sA with
    | (Ret a, sB) =>
        match _release_lock tid sB with
        | (Ret _, sC) => (Ret a, sC)
        | (Raise e, sC) => (Raise e, sC)
        end
    | (Raise e, sB) => (Raise e, sB)
    end.
Proof.
  intros HA. unfold exclusive_lock, bind. rewrite HA.
  destruct (c sA) as [[a|e] sB]; [|reflexivity].
  destruct (_release_lock tid sB) as [[[]|e] sC]; reflexivity.
Qed.

(** The lock step on a free lock. *)
Lemma lock_step_free (tid : nat) (st : state) (snm : pystr) (v t : Z) :
  lock_free tid st snm v ->
  (0 <= t)%Z ->
  (nm <- semaphore;; sem_acquire nm t;; set_held tid true) st
  = (Ret tt, locked tid snm v st).
Proof.
  intros (_ & Hof & Hv & Hs & _) Ht.
  assert (Hsem : exists w, semaphore st = (Ret snm, State (with_semaphore (Some snm) (self st)) (heap st) w)
                      /\ sems w !! snm = Some v
                      /\ with_sems (<[snm := (v - 1)%Z]> (sems w)) w
                         = with_sems (<[snm := (v - 1)%Z]> (sems (os st))) (os st)).
  { destruct Hs as [Hs | (Hs & Hn & ->)].
    - exists (os st). rewrite (semaphore_run st snm v Hof Hs).
      split; [reflexivity|]. split; [exact Hs|reflexivity].
    - exists (with_sems (<[snm := 1%Z]> (sems (os st))) (os st)).
      unfold semaphore_of in Hof. rewrite Hn in Hof.
      split; [|split].
      + unfold semaphore, bind, get. rewrite Hn.
        destruct (safe_sem_name (self st)) as [nm'|e]; [|discriminate].
        injection Hof as ->. unfold lift. rewrite Hs. reflexivity.
      + cbn. apply lookup_insert_eq.
      + unfold with_sems. cbn. rewrite insert_insert_eq. reflexivity. }
  destruct Hsem as (w & Hrun & Hw & Heq).
  unfold bind at 1. rewrite Hrun. unfold bind at 1.
  unfold sem_acquire. destruct (decide (t < 0)%Z) as [Hneg|_]; [lia|].
  unfold bind at 1, get at 1. cbn [os]. rewrite Hw.
  destruct (decide (0 < v)%Z) as [_|Hn]; [|lia].
  unfold set_os, set_held, set_self. cbn [self heap os]. rewrite Heq.
  reflexivity.
Qed.

Lemma acquire_free (tid : nat) (st : state) (snm : pystr) (v : Z) :
  lock_free tid st snm v ->
  _acquire_lock tid st = __load_dict (locked tid snm v st).
Proof.
  intros Hfree. rewrite acquire_lock_run.
  pose proof (proj2 (proj2 (proj2 (proj2 Hfree)))) as Htime.
  destruct Hfree as (Hheld & Hrest) eqn:E. unfold held in Hheld. rewrite Hheld.
  rewrite (lock_step_free tid st snm v _ Hfree Htime). reflexivity.
Qed.

(** A load through a handle that is in step with its segment. *)
Lemma load_in_step (s : state) (m : pydict) :
  in_step s m ->
  fst (__load_dict s) = Ret tt /\
  in_step (run __load_dict s) m /\
  same_below (length (heap s)) (heap s) (heap (run __load_dict s)).
Proof.
  intros ((l & Hi & Hl) & bs & Hv & Hload).
  unfold view in Hv.
  destruct (_map_file (self s)) as [nm|] eqn:Hm; [|discriminate].
  destruct (shms (os s) !! nm) as [seg0|] eqn:Hs; [|discriminate].
  assert (Hc : cache s = ODict m).
  { unfold cache. rewrite Hi. cbn. rewrite Hl. reflexivity. }
  fold (cache s) in Hv. rewrite Hc in Hv. injection Hv as Hv.
  pose proof (read_segment_mapped s nm seg0 Hm Hs) as Hread.
  cbv zeta in Hread. rewrite Hc, Hv in Hread.
  pose proof (load_dict_run _ _ _ Hread) as Hrun.
  assert (Hsame : resize_bytes (page_round (length (pickle_dumps_2 (ODict m)))) bs = bs).
  { rewrite <- Hv. apply resize_bytes_idem. }
  destruct Hload as [Hok | (e & He & Hcaught)].
  - rewrite Hok in Hrun. rewrite fallback_kept in Hrun by (cbn; discriminate).
    unfold run. rewrite Hrun. cbn [fst snd].
    split; [reflexivity|]. split; [split|].
    + exists (length (heap s)). cbn. split; [reflexivity|].
      rewrite lookup_app_r by reflexivity. rewrite Nat.sub_diag. reflexivity.
    + exists bs. split; [|left; exact Hok].
      unfold view. cbn. rewrite Hm, lookup_insert_eq. cbn.
      rewrite lookup_app_r by reflexivity. rewrite Nat.sub_diag. cbn.
      rewrite Hsame. reflexivity.
    + intros l' Hl'. cbn. apply lookup_app_l. exact Hl'.
  - rewrite He, Hcaught in Hrun.
    rewrite fallback_kept in Hrun by (cbn; rewrite Hi; discriminate).
    unfold run. rewrite Hrun. cbn [fst snd].
    split; [reflexivity|]. split; [split|].
    + exists l. split; [exact Hi|exact Hl].
    + exists bs. split; [|right; exists e; split; assumption].
      unfold view. cbn. rewrite Hm, lookup_insert_eq. cbn.
      rewrite Hi. cbn. rewrite Hl. cbn. rewrite Hsame. reflexivity.
    + intros l' Hl'. reflexivity.
Qed.

Lemma in_step_input (s s' : state) (m : pydict) :
  load_input s' = load_input s -> in_step s m -> in_step s' m.
Proof.
  intros E ((l & Hi & Hl) & bs & Hv & Hload).
  pose proof (view_load_input _ _ E) as Hview.
  unfold load_input in E. injection E as Eh Ei _ _.
  split.
  - exists l. rewrite Eh, Ei. split; assumption.
  - exists bs. rewrite Hview. split; assumption.
Qed.

(** The acquire of a thread that finds the lock free, or holds it
    already, on a handle in step with its segment. *)
Lemma acquire_steady (tid : nat) (st : state) (snm : pystr) (v : Z) (m : pydict) :
  steady tid st snm v m ->
  fst (_acquire_lock tid st) = Ret tt /\
  acquired tid (run (_acquire_lock tid) st) snm (v - 1) m /\
  files (os (run (_acquire_lock tid) st)) = files (os st) /\
  waited (os (run (_acquire_lock tid) st)) = waited (os st) /\
  same_below (length (heap st)) (heap st) (heap (run (_acquire_lock tid) st)).
Proof.
  intros (Hfree & Hd & Hstep).
  assert (Hstep' : in_step (locked tid snm v st) m).
  { apply (in_step_input st); [reflexivity|exact Hstep]. }
  destruct (load_in_step _ _ Hstep') as (Hr & Hs & Hb).
  pose proof (load_dict_frame (locked tid snm v st)) as F.
  unfold beside_load in F. fold (run __load_dict (locked tid snm v st)) in F.
  injection F as Fd Fl Fs _ _ Ft _ Fsems Ffiles Fw.
  unfold run at 1 2 3 4. rewrite (acquire_free tid st snm v Hfree).
  fold (run __load_dict (locked tid snm v st)).
  split; [exact Hr|]. split; [|split; [exact Ffiles|split; [exact Fw|exact Hb]]].
  unfold acquired, held. rewrite Fl, Fs, Fsems, Fd, Ft.
  split; [cbn; apply lookup_insert_eq|].
  split; [reflexivity|].
  split; [cbn; apply lookup_insert_eq|].
  split; [exact Hd|]. split; [apply Hfree|exact Hs].
Qed.

Lemma acquire_again (tid : nat) (st : state) (snm : pystr) (x : Z) (m : pydict) :
  acquired tid st snm x m ->
  fst (_acquire_lock tid st) = Ret tt /\
  acquired tid (run (_acquire_lock tid) st) snm x m /\
  files (os (run (_acquire_lock tid) st)) = files (os st) /\
  waited (os (run (_acquire_lock tid) st)) = waited (os st) /\
  same_below (length (heap st)) (heap st) (heap (run (_acquire_lock tid) st)).
Proof.
  intros (Hheld & Hsem & Hx & Hd & Ht & Hstep).
  destruct (load_in_step _ _ Hstep) as (Hr & Hs & Hb).
  pose proof (load_dict_frame st) as F.
  unfold beside_load in F. fold (run __load_dict st) in F.
  injection F as Fd Fl Fs _ _ Ft' _ Fsems Ffiles Fw.
  unfold run at 1 2 3 4. rewrite (acquire_held tid st Hheld).
  fold (run __load_dict st).
  split; [exact Hr|]. split; [|split; [exact Ffiles|split; [exact Fw|exact Hb]]].
  unfold acquired, held. rewrite Fl, Fs, Fsems, Fd, Ft'.
  unfold held in Hheld.
  split; [exact Hheld|]. split; [exact Hsem|]. split; [exact Hx|].
  split; [exact Hd|]. split; [exact Ht|exact Hs].
Qed.
End Phases.

Section Blocks.
Context {P : Platform}.

(** The blocks, on the dict object the handle refers to. *)
Lemma body_query (o : op) (s : state) (l : nat) (m : pydict) :
  __internal_dict (self s) = RDict l ->
  heap s !! l = Some m ->
  is_query o = true ->
  body o s = (answer o m, s).
Proof.
  intros Hi Hl Hq.
  destruct o; try discriminate Hq; cbn [body answer];
    unfold with_cache_dict, bind, get; rewrite ?Hi; cbn [deref];
    rewrite Hl; cbn [default from_option id]; try reflexivity.
  destruct (dict_get key m); reflexivity.
Qed.

Lemma body_effect (o : op) (s : state) (l : nat) (m m' : pydict) :
  __internal_dict (self s) = RDict l ->
  heap s !! l = Some m ->
  effect o m = Some m' ->
  body o s = (Ret NoResult, mutated l m' s).
Proof.
  intros Hi Hl He.
  destruct o; try discriminate He; cbn [body effect] in *.
  - injection He as <-.
    unfold setitem_body, with_cache_dict, bind, get. rewrite Hi, Hl. reflexivity.
  - unfold dict_has in He.
    unfold with_cache_dict, bind, get. rewrite Hi, Hl. cbn [default from_option id].
    destruct (dict_get key m) as [x|]; [|discriminate He].
    injection He as <-. reflexivity.
  - injection He as <-.
    unfold with_cache_dict, bind, get, set_self. cbn [self heap os with_dirty __internal_dict].
    rewrite Hi. reflexivity.
Qed.

Lemma body_missing (o : op) (k : pyval) (s : state) (l : nat) (m : pydict) :
  __internal_dict (self s) = RDict l ->
  heap s !! l = Some m ->
  o = GetItem k \/ o = DelItem k ->
  dict_get k m = None ->
  body o s = (Raise KeyError, s).
Proof.
  intros Hi Hl [-> | ->] Hk; cbn [body];
    unfold with_cache_dict, bind, get; rewrite Hi, Hl; cbn [default from_option id];
    rewrite Hk; reflexivity.
Qed.

Lemma body_held (tid : nat) (o : op) : preserves (held tid) (body o).
Proof.
  destruct o; unfold body, setitem_body, with_cache_dict, store, alloc; frame.
Qed.

(** ** The release *)

Lemma release_run (tid : nat) (s : state) (snm : pystr) (x : Z) :
  held tid s = Some true ->
  _semaphore (self s) = Some snm ->
  sems (os s) !! snm = Some x ->
  _release_lock tid s
  = match __save_dict s with
    | (Ret _, s1) => (Ret tt, unlocked tid snm x s1)
    | (Raise e, s1) => (Raise e, s1)
    end.
Proof.
  unfold held. intros Hheld Hsem Hx.
  unfold _release_lock. unfold bind at 1, get at 1. rewrite Hheld.
  unfold bind at 1.
  destruct (save_dict_lock s _ eq_refl) as (Hs & _ & Ho & _).
  unfold run in Hs, Ho.
  destruct (__save_dict s) as [[[]|e] s1]; [|reflexivity].
  cbn [snd] in Hs, Ho.
  apply (release_after_save tid s1 snm x); [congruence|].
  rewrite Hs. exact Hx.
Qed.

Lemma set_dirty_same (s : state) :
  __dirty (self s) = false -> set_dirty false s = s.
Proof.
  destruct s as [[] hp w]. cbn. intros ->. reflexivity.
Qed.

Lemma save_clean (s : state) :
  __dirty (self s) = false -> __save_dict s = (Ret tt, s).
Proof.
  intros Hd. unfold __save_dict, bind, get. rewrite Hd.
  unfold ret, set_self. fold (set_dirty false s).
  rewrite (set_dirty_same s Hd). reflexivity.
Qed.

Lemma steady_unlocked (tid : nat) (s : state) (snm : pystr) (x : Z) (m : pydict) :
  acquired tid s snm x m -> (0 <= x)%Z ->
  steady tid (unlocked tid snm x s) snm (x + 1) m.
Proof.
  intros (Hheld & Hsem & Hx & Hd & Ht & Hstep) Hpos.
  split; [|split].
  - split; [unfold held; cbn; apply lookup_insert_eq|].
    split; [unfold semaphore_of; cbn; rewrite Hsem; reflexivity|].
    split; [lia|]. split; [left; cbn; apply lookup_insert_eq|exact Ht].
  - exact Hd.
  - apply (in_step_input s); [reflexivity|exact Hstep].
Qed.

Lemma release_clean (tid : nat) (s : state) (snm : pystr) (x : Z) (m : pydict) :
  acquired tid s snm x m ->
  _release_lock tid s = (Ret tt, unlocked tid snm x s).
Proof.
  intros (Hheld & Hsem & Hx & Hd & Ht & Hstep).
  rewrite (release_run tid s snm x Hheld Hsem Hx).
  rewrite (save_clean s Hd). reflexivity.
Qed.

(** The save of a changed cache that the codec supports. *)
Lemma save_dirty (s : state) (l : nat) (m' : pydict) (bs : list byte) :
  view s = Some bs ->
  __internal_dict (self s) = RDict l ->
  heap s !! l = Some m' ->
  __dirty (self s) = true ->
  codec_supports (ODict m') ->
  writable s ->
  let s1 := run __save_dict s in
  __save_dict s = (Ret tt, s1) /\
  __dirty (self s1) = false /\
  in_step s1 m' /\
  persisted s1 (pickle_dumps_2 (ODict m')) /\
  (exists seg tail, segment s1 = Some seg /\
                    seg = pickle_dumps_2 (ODict m') ++ tail) /\
  (forall p, persist_file (self s) <> Some p ->
             files (os s1) !! p = files (os s) !! p) /\
  waited (os s1) = waited (os s).
Proof.
  intros Hv Hi Hl Hd Hcodec Hw s1.
  unfold view in Hv.
  destruct (_map_file (self s)) as [nm|] eqn:Hm; [|discriminate].
  destruct (shms (os s) !! nm) as [seg0|] eqn:Hs; [|discriminate].
  clear Hv.
  assert (Hc : cache s = ODict m').
  { unfold cache. rewrite Hi. cbn. rewrite Hl. reflexivity. }
  destruct (save_dict_segment s nm seg0 Hm Hs Hd) as (Hm1 & Hs1 & Hc1 & Hlen).
  fold s1 in Hm1, Hs1, Hc1. rewrite Hc in *.
  set (payload := pickle_dumps_2 (ODict m')) in *.
  set (seg := overwrite payload
                (resize_bytes (page_round (length payload)) seg0)) in *.
  destruct (save_dict_lock s s1 eq_refl) as (_ & _ & _ & Hh1 & Hi1).
  pose proof (save_dict_frame s) as F. unfold beside_save in F.
  fold (run __save_dict s) in F. fold s1 in F.
  injection F as _ _ _ _ _ Fp _ _ _ Fw.
  pose proof (save_dict_mapped s nm seg0 Hm Hs Hd) as Hrun.
  cbv zeta in Hrun. rewrite Hc in Hrun. fold payload seg in Hrun.
  assert (Hres : fst (__save_dict s) = Ret tt /\ __dirty (self s1) = false /\
                 persisted s1 payload /\
                 (forall p, persist_file (self s) <> Some p ->
                            files (os s1) !! p = files (os s) !! p)).
  { unfold persisted, s1, run. rewrite Hrun.
    destruct (persist_file (self s)) as [path|] eqn:Hp.
    - specialize (Hw path Hp).
      destruct (files (os s) !! path) as [[fbs|]|] eqn:Hf;
        [|contradiction|];
        (split; [reflexivity|]); (split; [reflexivity|]);
        cbn [snd set_dirty set_file set_segment self os with_dirty persist_file
             with_files with_shms files];
        (split; [intros path' Hp'; rewrite Hp in Hp'; injection Hp' as <-;
                 apply lookup_insert_eq|]);
        intros p Hne; apply lookup_insert_ne; congruence.
    - split; [reflexivity|]. split; [reflexivity|].
      cbn [snd set_dirty set_segment self os with_dirty persist_file]. rewrite Hp.
      split; [intros path' Hp'; discriminate Hp'|]. intros p _. reflexivity. }
  destruct Hres as (Hr & Hd1 & Hpers & Hother).
  split; [apply run_result; exact Hr|]. split; [exact Hd1|].
  split; [|split; [exact Hpers|split; [|split; [exact Hother|exact Fw]]]].
  - split.
    + exists l. rewrite Hi1, Hh1. split; assumption.
    + exists seg. split.
      * unfold view. rewrite Hm1, Hs1. cbn. fold (cache s1). rewrite Hc1.
        fold payload. rewrite <- Hlen, resize_bytes_same. reflexivity.
      * left. unfold seg, overwrite. apply Hcodec.
  - exists seg, (drop (length payload) (resize_bytes (page_round (length payload)) seg0)).
    split; [unfold segment; rewrite Hm1; exact Hs1|reflexivity].
Qed.
End Blocks.

Section FirstAccess.
Context {P : Platform}.

Lemma in_step_first (st : state) (nm : pystr) (m : pydict) (n : nat) :
  blank_rejected ->
  in_step (install (ODict m) (mapped nm (repeat x00 n) st)) m.
Proof.
  intros Hblank. split.
  - exists (length (heap st)). cbn. split; [reflexivity|].
    rewrite lookup_app_r by reflexivity. rewrite Nat.sub_diag. reflexivity.
  - eexists. split.
    + unfold view. cbn. rewrite lookup_insert_eq. cbn. rewrite resize_zeros.
      reflexivity.
    + right. apply Hblank.
Qed.

Lemma acquire_fresh (tid : nat) (st : state) (snm : pystr) (v : Z) (m : pydict) :
  fresh tid st snm v m ->
  fst (_acquire_lock tid st) = Ret tt /\
  acquired tid (run (_acquire_lock tid) st) snm (v - 1) m /\
  files (os (run (_acquire_lock tid) st)) = files (os st) /\
  waited (os (run (_acquire_lock tid) st)) = waited (os st).
Proof.
  intros (Hfree & Hd & (nm & Hm & Hn & Hs) & Hi & Hblank & Hinit).
  unfold run. rewrite (acquire_free tid st snm v Hfree).
  rewrite (first_load (locked tid snm v st) nm m);
    [|split; [exact Hm|split; [exact Hn|exact Hs]]|exact Hi|exact Hblank|exact Hinit].
  cbn [fst snd]. split; [reflexivity|].
  split; [|split; reflexivity].
  split; [unfold held; cbn; apply lookup_insert_eq|].
  split; [reflexivity|]. split; [cbn; apply lookup_insert_eq|].
  split; [exact Hd|]. split; [apply Hfree|].
  apply (in_step_first (locked tid snm v st)). exact Hblank.
Qed.
End FirstAccess.

Section Operations.
Context {P : Platform}.

(** The acquire that starts an operation. *)
Lemma acquire_entry (tid : nat) (st : state) (snm : pystr) (x : Z) (m : pydict) :
  enters tid st snm x m ->
  let sA := run (_acquire_lock tid) st in
  _acquire_lock tid st = (Ret tt, sA) /\
  acquired tid sA snm x m /\
  files (os sA) = files (os st) /\
  waited (os sA) = waited (os st) /\
  persist_file (self sA) = persist_file (self st).
Proof.
  intros Hentry sA.
  assert (Hp : persist_file (self sA) = persist_file (self st)).
  { assert (F : preserves (fun s => persist_file (self s)) (_acquire_lock tid)).
    { unfold _acquire_lock.
      assert (F1 : preserves (fun s => persist_file (self s)) __load_dict).
      { intros s. pose proof (load_dict_frame s) as F. unfold beside_load in F.
        injection F as _ _ _ _ F _ _ _ _ _. exact F. }
      apply preserves_bind; [apply preserves_get|]. intros s.
      apply preserves_bind; [|intros ?; exact F1].
      destruct (__thread_local (self s) !! tid) as [[|]|]; [frame| |frame].
      apply preserves_try_except.
      - unfold semaphore, sem_acquire, set_held. frame.
      - intros e k Hk. destruct e; try discriminate. injection Hk as <-.
        destruct (auto_unlock (self s)); unfold set_held; frame. }
    apply F. }
  destruct Hentry as [Hs | [Ha | Hf]].
  - destruct (acquire_steady tid st snm (x + 1) m Hs) as (Hr & Hacq & Hf & Hw & _).
    replace (x + 1 - 1)%Z with x in Hacq by lia.
    split; [apply run_result; exact Hr|]. repeat (split; [assumption|]). exact Hp.
  - destruct (acquire_again tid st snm x m Ha) as (Hr & Hacq & Hf & Hw & _).
    split; [apply run_result; exact Hr|]. repeat (split; [assumption|]). exact Hp.
  - destruct (acquire_fresh tid st snm (x + 1) m Hf) as (Hr & Hacq & Hfl & Hw).
    replace (x + 1 - 1)%Z with x in Hacq by lia.
    split; [apply run_result; exact Hr|]. repeat (split; [assumption|]). exact Hp.
Qed.

(** A query: the answer comes from the items in step, and the lock is
    given back. *)
Lemma query_run (tid : nat) (o : op) (st : state) (snm : pystr) (x : Z) (m : pydict) :
  enters tid st snm x m ->
  is_query o = true ->
  let st' := run (call tid o) st in
  fst (call tid o st) = answer o m /\
  files (os st') = files (os st) /\
  waited (os st') = waited (os st) /\
  (forall r, answer o m = Ret r -> (0 <= x)%Z ->
     steady tid st' snm (x + 1) m /\ sems (os st') !! snm = Some (x + 1)%Z) /\
  (forall e, answer o m = Raise e -> acquired tid st' snm x m).
Proof.
  intros Hentry Hq.
  destruct (acquire_entry tid st snm x m Hentry) as (HA & Hacq & Hf & Hw & _).
  set (sA := run (_acquire_lock tid) st) in *.
  destruct Hacq as (Hheld & Hsem & Hx & Hd & Ht & Hstep) eqn:E.
  destruct Hstep as ((l & Hi & Hl) & Hview) eqn:E'.
  cbv zeta. unfold run. rewrite call_body, (exclusive_lock_run tid _ st sA HA).
  rewrite (body_query o sA l m Hi Hl Hq).
  destruct (answer o m) as [r|e] eqn:Ha.
  - rewrite (release_clean tid sA snm x m Hacq). cbn [fst snd].
    split; [reflexivity|]. split; [exact Hf|]. split; [exact Hw|].
    split; [|intros e' He'; discriminate He'].
    intros r' _ Hpos. split; [apply steady_unlocked; assumption|].
    cbn. apply lookup_insert_eq.
  - cbn [fst snd]. split; [reflexivity|]. split; [exact Hf|]. split; [exact Hw|].
    split; [intros r' Hr'; discriminate Hr'|]. intros e' _. exact Hacq.
Qed.

(** A lookup or a deletion of a key that is not there. *)
Lemma missing_run (tid : nat) (o : op) (k : pyval) (st : state) (snm : pystr)
    (x : Z) (m : pydict) :
  enters tid st snm x m ->
  o = GetItem k \/ o = DelItem k ->
  dict_get k m = None ->
  let st' := run (call tid o) st in
  fst (call tid o st) = Raise KeyError /\
  acquired tid st' snm x m /\
  files (os st') = files (os st).
Proof.
  intros Hentry Ho Hk.
  destruct (acquire_entry tid st snm x m Hentry) as (HA & Hacq & Hf & Hw & _).
  set (sA := run (_acquire_lock tid) st) in *.
  destruct Hacq as (Hheld & Hsem & Hx & Hd & Ht & Hstep) eqn:E.
  destruct Hstep as ((l & Hi & Hl) & Hview) eqn:E'.
  cbv zeta. unfold run. rewrite call_body, (exclusive_lock_run tid _ st sA HA).
  rewrite (body_missing o k sA l m Hi Hl Ho Hk). cbn [fst snd].
  split; [reflexivity|]. split; [exact Hacq|exact Hf].
Qed.

(** A change of the items: it is saved before the lock is given back. *)
Lemma mutation_run (tid : nat) (o : op) (st : state) (snm : pystr) (x : Z)
    (m m' : pydict) :
  enters tid st snm x m ->
  (0 <= x)%Z ->
  effect o m = Some m' ->
  codec_supports (ODict m') ->
  writable st ->
  let st' := run (call tid o) st in
  fst (call tid o st) = Ret NoResult /\
  steady tid st' snm (x + 1) m' /\
  sems (os st') !! snm = Some (x + 1)%Z /\
  persisted st' (pickle_dumps_2 (ODict m')) /\
  (exists seg tail, segment st' = Some seg /\
                    seg = pickle_dumps_2 (ODict m') ++ tail) /\
  (forall p, persist_file (self st) <> Some p ->
             files (os st') !! p = files (os st) !! p) /\
  waited (os st') = waited (os st).
Proof.
  intros Hentry Hpos He Hcodec Hwr.
  destruct (acquire_entry tid st snm x m Hentry) as (HA & Hacq & Hf & Hw & Hp).
  set (sA := run (_acquire_lock tid) st) in *.
  destruct Hacq as (Hheld & Hsem & Hx & Hd & Ht & (l & Hi & Hl) & bs & Hv & Hload).
  cbv zeta. unfold run. rewrite call_body, (exclusive_lock_run tid _ st sA HA).
  rewrite (body_effect o sA l m m' Hi Hl He).
  set (sB := mutated l m' sA).
  assert (Hlt : l < length (heap sA)) by (eapply lookup_lt_Some; exact Hl).
  assert (HvB : exists bsB, view sB = Some bsB).
  { unfold view in *. change (_map_file (self sB)) with (_map_file (self sA)).
    change (shms (os sB)) with (shms (os sA)).
    destruct (_map_file (self sA)) as [nm|]; [|discriminate].
    destruct (shms (os sA) !! nm) as [seg0|]; [|discriminate].
    eexists. reflexivity. }
  destruct HvB as (bsB & HvB).
  assert (HwB : writable sB).
  { intros path Hpath. change (persist_file (self sB)) with (persist_file (self sA)) in Hpath.
    change (files (os sB)) with (files (os sA)). rewrite Hf. apply Hwr.
    rewrite <- Hp. exact Hpath. }
  destruct (save_dirty sB l m' bsB HvB Hi)
    as (Hsave & Hd1 & Hstep1 & Hpers & Hseg & Hother & Hwait);
    [apply list_lookup_insert_eq; exact Hlt|reflexivity|exact Hcodec|exact HwB|].
  set (s1 := run __save_dict sB) in *.
  destruct (save_dict_lock sB s1 eq_refl) as (Hsems1 & Hlocal1 & Hsem1 & _ & _).
  rewrite (release_run tid sB snm x Hheld Hsem Hx), Hsave. cbn [fst snd].
  split; [reflexivity|].
  assert (Ht1 : lock_timeout (self s1) = lock_timeout (self sA)).
  { pose proof (save_dict_frame sB) as F. unfold beside_save in F.
    injection F as _ _ _ _ _ _ F _ _ _. exact F. }
  assert (Hacq1 : acquired tid s1 snm x m').
  { unfold acquired, held. rewrite Hlocal1, Hsem1, Hsems1, Ht1.
    split; [exact Hheld|]. split; [exact Hsem|]. split; [exact Hx|].
    split; [exact Hd1|]. split; [exact Ht|exact Hstep1]. }
  split; [apply steady_unlocked; assumption|].
  split; [cbn; apply lookup_insert_eq|].
  split; [exact Hpers|]. split; [exact Hseg|].
  split; [|cbn [unlocked os with_sems waited]; rewrite Hwait; exact Hw].
  intros p Hne. cbn [unlocked os with_sems files].
  rewrite Hother by (change (persist_file (self sB)) with (persist_file (self sA));
                     rewrite Hp; exact Hne).
  change (files (os sB)) with (files (os sA)). rewrite Hf. reflexivity.
Qed.
End Operations.

(** ** Items of a dict *)

Lemma dict_get_set_eq (k v : pyval) (m : pydict) :
  dict_get k (dict_set k v m) = Some v.
Proof.
  induction m as [|[k' v'] m IH]; cbn.
  - destruct (decide (k = k)); [reflexivity|contradiction].
  - destruct (decide (k' = k)) as [E|E]; cbn;
      destruct (decide (k' = k)); try contradiction; [reflexivity|exact IH].
Qed.

Lemma dict_get_set_ne (k k' v : pyval) (m : pydict) :
  k' <> k -> dict_get k' (dict_set k v m) = dict_get k' m.
Proof.
  intros Hne. induction m as [|[k0 v0] m IH]; cbn.
  - destruct (decide (k = k')); [congruence|reflexivity].
  - destruct (decide (k0 = k)) as [E|E]; cbn.
    + destruct (decide (k0 = k')); [congruence|reflexivity].
    + destruct (decide (k0 = k')); [reflexivity|exact IH].
Qed.

Lemma dict_get_keys (k : pyval) (m : pydict) :
  dict_get k m = None <-> k ∉ dict_keys m.
Proof.
  induction m as [|[k0 v0] m IH]; cbn.
  - split; [intros _; apply not_elem_of_nil|reflexivity].
  - rewrite not_elem_of_cons. destruct (decide (k0 = k)) as [E|E].
    + split; [discriminate|]. intros [Hne _]. congruence.
    + rewrite IH. split; [intros Hn; split; [congruence|exact Hn]|intros [_ Hn]; exact Hn].
Qed.

Lemma dict_get_del_eq (k : pyval) (m : pydict) :
  NoDup (dict_keys m) -> dict_get k (dict_del k m) = None.
Proof.
  induction m as [|[k0 v0] m IH]; cbn; [reflexivity|].
  intros Hnd. apply NoDup_cons in Hnd as [Hnotin Hnd].
  destruct (decide (k0 = k)) as [E|E]; cbn.
  - subst k0. apply dict_get_keys. exact Hnotin.
  - destruct (decide (k0 = k)); [contradiction|]. apply IH, Hnd.
Qed.

Lemma dict_get_del_ne (k k' : pyval) (m : pydict) :
  k' <> k -> dict_get k' (dict_del k m) = dict_get k' m.
Proof.
  intros Hne. induction m as [|[k0 v0] m IH]; cbn; [reflexivity|].
  destruct (decide (k0 = k)) as [E|E]; cbn.
  - destruct (decide (k0 = k')); [congruence|reflexivity].
  - destruct (decide (k0 = k')); [reflexivity|exact IH].
Qed.

Lemma dict_del_length (k : pyval) (m : pydict) :
  dict_has k m = true -> S (length (dict_del k m)) = length m.
Proof.
  unfold dict_has. intros Hh. apply bool_decide_eq_true in Hh.
  induction m as [|[k0 v0] m IH]; cbn in *.
  - destruct Hh as [? Hh]. discriminate Hh.
  - destruct (decide (k0 = k)); [reflexivity|]. cbn. rewrite IH by exact Hh.
    reflexivity.
Qed.

Lemma dict_has_get (k : pyval) (m : pydict) :
  dict_has k m = false <-> dict_get k m = None.
Proof.
  unfold dict_has. rewrite bool_decide_eq_false.
  destruct (dict_get k m); split; try reflexivity; try discriminate.
  - intros Hn. exfalso. apply Hn. eexists. reflexivity.
  - intros _ [? Hx]. discriminate Hx.
Qed.

Section Returns.
Context {P : Platform}.

Lemma acquire_returns_held (tid : nat) (st sA : state) :
  _acquire_lock tid st = (Ret tt, sA) -> held tid sA = Some true.
Proof.
  rewrite acquire_lock_run.
  assert (Hload : forall s s', __load_dict s = (Ret tt, s') ->
                               held tid s = Some true -> held tid s' = Some true).
  { intros s s' Hs Hh. pose proof (load_dict_held tid s) as F.
    rewrite Hs in F. cbn in F. congruence. }
  assert (Hstep : forall t s s1 r,
             (nm <- semaphore;; sem_acquire nm t;; set_held tid true) s = (Ret r, s1) ->
             held tid s1 = Some true).
  { intros t s s1 r Hs. unfold bind in Hs.
    destruct (semaphore s) as [[nm|e] sa]; [|discriminate Hs].
    destruct (sem_acquire nm t sa) as [[[]|e] sb]; [|discriminate Hs].
    unfold set_held, set_self in Hs. injection Hs as _ <-.
    unfold held. cbn. apply lookup_insert_eq. }
  destruct (__thread_local (self st) !! tid) as [[|]|] eqn:Hh.
  - intros Hl. eapply Hload; [exact Hl|exact Hh].
  - destruct ((nm <- semaphore;; sem_acquire nm (lock_timeout (self st));;
               set_held tid true) st) as [[r|e] s1] eqn:Hs.
    + intros Hl. eapply Hload; [exact Hl|]. eapply Hstep. exact Hs.
    + destruct e; try discriminate.
      destruct (auto_unlock (self st)); [|discriminate].
      intros Hl. eapply Hload; [exact Hl|].
      unfold run, set_held, set_self, held. cbn. apply lookup_insert_eq.
  - discriminate.
Qed.

Lemma save_returns_clean (s s1 : state) :
  __save_dict s = (Ret tt, s1) -> __dirty (self s1) = false.
Proof.
  unfold __save_dict. unfold bind at 1, get at 1. unfold bind at 1.
  match goal with |- context [match ?c s with _ => _ end] =>
    destruct (c s) as [[[]|e] s0] end; [|discriminate].
  unfold set_self. intros [= <-]. reflexivity.
Qed.

Lemma release_returns (tid : nat) (s sC : state) :
  held tid s = Some true ->
  _release_lock tid s = (Ret tt, sC) ->
  held tid sC = Some false /\ __dirty (self sC) = false.
Proof.
  unfold held. intros Hheld. unfold _release_lock.
  unfold bind at 1, get at 1. rewrite Hheld. unfold bind at 1.
  destruct (__save_dict s) as [[[]|e] s1] eqn:Hs; [|discriminate].
  apply save_returns_clean in Hs.
  unfold bind at 1.
  assert (F1 : preserves (fun s => __dirty (self s)) semaphore)
    by (unfold semaphore; frame).
  specialize (F1 s1).
  destruct (semaphore s1) as [[nm|e] s2]; [|discriminate]. cbn [snd] in F1.
  unfold bind at 1.
  assert (F2 : preserves (fun s => __dirty (self s)) (sem_release nm))
    by (unfold sem_release; frame).
  specialize (F2 s2).
  destruct (sem_release nm s2) as [[[]|e] s3]; [|discriminate]. cbn [snd] in F2.
  unfold set_held, set_self. intros [= <-]. cbn.
  split; [apply lookup_insert_eq|congruence].
Qed.

Lemma call_returns (tid : nat) (o : op) (st st' : state) (r : result) :
  call tid o st = (Ret r, st') ->
  held tid st' = Some false /\ __dirty (self st') = false.
Proof.
  rewrite call_body. unfold exclusive_lock. unfold bind at 1.
  destruct (_acquire_lock tid st) as [[[]|e] sA] eqn:HA; [|discriminate].
  apply acquire_returns_held in HA.
  unfold bind at 1. pose proof (body_held tid o sA) as HB.
  destruct (body o sA) as [[r'|e] sB]; [|discriminate]. cbn [snd] in HB.
  rewrite HA in HB. unfold bind at 1.
  destruct (_release_lock tid sB) as [[[]|e] sC] eqn:HC; [|discriminate].
  unfold ret. intros [= _ <-]. apply (release_returns tid sB sC HB HC).
Qed.
End Returns.

(** The dictionary of the test suite after one store: a steady state.
    Each part is checked by evaluation. *)
Ltac steady_here :=
  split;
  [ split; [vm_compute; reflexivity|];
    split; [vm_compute; reflexivity|];
    split; [lia|];
    split; [left; vm_compute; reflexivity|vm_compute; discriminate]
  | split; [vm_compute; reflexivity|];
    split;
    [ eexists; split; vm_compute; reflexivity
    | eexists; split; [vm_compute; reflexivity|left; vm_compute; reflexivity] ] ].

(** X1. An acquire by a thread that does not hold the lock, with a
    timeout that is not negative, on a semaphore whose value is
    positive or that does not exist yet (it is then created with value
    1): the semaphore is opened and loses one unit, the thread's flag
    is set, no time is spent waiting, and what follows is the load. *)
Theorem acquire_takes_free_lock `{Platform}
    (tid : nat) (st : state) (snm : pystr) (v : Z) :
  lock_free tid st snm v ->
  let st' := run (_acquire_lock tid) st in
  _acquire_lock tid st = __load_dict (locked tid snm v st) /\
  held tid st' = Some true /\
  _semaphore (self st') = Some snm /\
  sems (os st') = <[snm := (v - 1)%Z]> (sems (os st)) /\
  waited (os st') = waited (os st).
Proof.
  intros Hfree st'. pose proof (acquire_free tid st snm v Hfree) as Hrun.
  split; [exact Hrun|].
  destruct (load_dict_lock (locked tid snm v st) st') as (Hs & Hw & Hl & Ho).
  { unfold st', run. rewrite Hrun. reflexivity. }
  unfold held. rewrite Hl, Ho, Hs, Hw.
  split; [cbn; apply lookup_insert_eq|]. repeat split.
Qed.

Lemma acquire_takes_free_lock_witness :
  held 0 (run (_acquire_lock 0) first_stored) = Some true /\
  sem_value (run (_acquire_lock 0) first_stored) = Some 0%Z.
Proof.
  epose proof (acquire_takes_free_lock 0 first_stored _ 1) as HT.
  cbv zeta in HT. edestruct HT as (_ & Hh & Ho & Hs & _).
  - split; [vm_compute; reflexivity|].
    split; [vm_compute; reflexivity|].
    split; [lia|].
    split; [left; vm_compute; reflexivity|vm_compute; discriminate].
  - split; [exact Hh|]. unfold sem_value. rewrite Ho, Hs.
    apply lookup_insert_eq.
Defined.

(** X2. An operation that returns has given the lock back and has
    nothing unsaved, whatever the state it started from: the thread's
    flag is clear and the dirty flag is clear, also when the thread
    held the lock already on entry. *)
Theorem operation_returns_released `{Platform}
    (tid : nat) (o : op) (st st' : state) (r : result) :
  call tid o st = (Ret r, st') ->
  held tid st' = Some false /\ __dirty (self st') = false.
Proof. apply call_returns. Qed.

Lemma operation_returns_released_witness :
  held 0 (run (call 0 Len) outer_mutated) = Some false /\
  __dirty (self (run (call 0 Len) outer_mutated)) = false.
Proof.
  apply (operation_returns_released 0 Len outer_mutated _ (Count 1)).
  apply run_result. vm_compute. reflexivity.
Defined.

(** X3. A lookup, a length, a membership test or a [repr] on a steady
    dictionary (lock free, timeout not negative, nothing unsaved, cache
    in step with the segment) answers from the items the handle is in
    step with; the
    files are as before, no time was spent waiting, and when the answer
    is a value the state is steady again with the semaphore at the same
    value. *)
Theorem query_answers `{Platform}
    (tid : nat) (o : op) (st : state) (snm : pystr) (v : Z) (m : pydict) :
  steady tid st snm v m ->
  is_query o = true ->
  let st' := run (call tid o) st in
  fst (call tid o st) = answer o m /\
  files (os st') = files (os st) /\
  waited (os st') = waited (os st) /\
  (forall r, answer o m = Ret r ->
     steady tid st' snm v m /\ sems (os st') !! snm = Some v).
Proof.
  intros Hs Hq st'.
  assert (Hpos : (0 <= v - 1)%Z) by (destruct Hs as ((_ & _ & Hv & _) & _); lia).
  replace v with (v - 1 + 1)%Z in Hs |- * by lia.
  destruct (query_run tid o st snm (v - 1) m (or_introl Hs) Hq)
    as (Hr & Hf & Hw & Hok & _).
  split; [exact Hr|]. split; [exact Hf|]. split; [exact Hw|].
  intros r Ha. apply (Hok r Ha Hpos).
Qed.

Lemma query_answers_witness :
  fst (call 0 (GetItem (str "K1")) first_stored) = Ret (Value (str "V1")) /\
  fst (call 0 Len first_stored) = Ret (Count 1).
Proof.
  split.
  - epose proof (query_answers 0 (GetItem (str "K1")) first_stored _ 1
                   [(str "K1", str "V1")]) as HT.
    cbv zeta in HT. edestruct HT as (Hr & _);
      [steady_here|reflexivity|]. rewrite Hr. vm_compute. reflexivity.
  - epose proof (query_answers 0 Len first_stored _ 1
                   [(str "K1", str "V1")]) as HT.
    cbv zeta in HT. edestruct HT as (Hr & _);
      [steady_here|reflexivity|]. rewrite Hr. reflexivity.
Defined.

(** X4. A lookup or a deletion of a key that is not in a steady
    dictionary (its timeout not negative) raises [KeyError] and leaves
    the lock taken: the context manager has no [finally], so the
    thread's flag stays set and the semaphore stays one unit down. The
    next query of the same thread goes through
    without taking the semaphore again, and gives the lock back. *)
Theorem missing_key_keeps_lock `{Platform}
    (tid : nat) (o : op) (k : pyval) (st : state) (snm : pystr) (v : Z)
    (m : pydict) :
  steady tid st snm v m ->
  o = GetItem k \/ o = DelItem k ->
  dict_get k m = None ->
  let st' := run (call tid o) st in
  fst (call tid o st) = Raise KeyError /\
  held tid st' = Some true /\
  sems (os st') !! snm = Some (v - 1)%Z /\
  files (os st') = files (os st) /\
  (forall q r, is_query q = true -> answer q m = Ret r ->
     fst (call tid q st') = Ret r /\
     steady tid (run (call tid q) st') snm v m).
Proof.
  intros Hs Ho Hk st'.
  assert (Hpos : (0 <= v - 1)%Z) by (destruct Hs as ((_ & _ & Hv & _) & _); lia).
  replace v with (v - 1 + 1)%Z in Hs |- * by lia.
  destruct (missing_run tid o k st snm (v - 1) m (or_introl Hs) Ho Hk)
    as (Hr & Hacq & Hf).
  fold st' in Hacq, Hf.
  split; [exact Hr|].
  split; [apply Hacq|]. split; [replace (v - 1 + 1 - 1)%Z with (v - 1)%Z by lia; apply Hacq|].
  split; [exact Hf|].
  intros q r Hq Ha.
  destruct (query_run tid q st' snm (v - 1) m (or_intror (or_introl Hacq)) Hq)
    as (Hr' & _ & _ & Hok & _).
  rewrite Hr', Ha. split; [reflexivity|]. apply (Hok r Ha Hpos).
Qed.

Lemma missing_key_keeps_lock_witness :
  fst (call 0 (GetItem (str "K2")) first_stored) = Raise KeyError /\
  held 0 (run (call 0 (GetItem (str "K2"))) first_stored) = Some true.
Proof.
  epose proof (missing_key_keeps_lock 0 _ (str "K2") first_stored _ 1
                 [(str "K1", str "V1")]) as HT.
  cbv zeta in HT. edestruct HT as (Hr & Hh & _);
    [steady_here|left; reflexivity|vm_compute; reflexivity|].
  split; [exact Hr|exact Hh].
Defined.

(** X5. A store, a deletion of a key that is there, or a [clear] on a
    steady dictionary (its timeout not negative), when the codec supports the new items and the
    persistence file can be written: the operation returns, the new
    items are at the start of the segment and, for a persistent
    dictionary, are the whole content of its file; no other file has
    changed; the state is steady again with the new items, so that
    every query that follows answers from them. *)
Theorem mutation_saved `{Platform}
    (tid : nat) (o : op) (st : state) (snm : pystr) (v : Z) (m m' : pydict) :
  steady tid st snm v m ->
  effect o m = Some m' ->
  codec_supports (ODict m') ->
  writable st ->
  let st' := run (call tid o) st in
  fst (call tid o st) = Ret NoResult /\
  steady tid st' snm v m' /\
  persisted st' (pickle_dumps_2 (ODict m')) /\
  (exists seg tail, segment st' = Some seg /\
                    seg = pickle_dumps_2 (ODict m') ++ tail) /\
  (forall p, persist_file (self st) <> Some p ->
             files (os st') !! p = files (os st) !! p) /\
  (forall q, is_query q = true -> fst (call tid q st') = answer q m').
Proof.
  intros Hs He Hcodec Hwr st'.
  assert (Hpos : (0 <= v - 1)%Z) by (destruct Hs as ((_ & _ & Hv & _) & _); lia).
  replace v with (v - 1 + 1)%Z in Hs |- * by lia.
  destruct (mutation_run tid o st snm (v - 1) m m' (or_introl Hs) Hpos He Hcodec Hwr)
    as (Hr & Hst & _ & Hpers & Hseg & Hother & _).
  fold st' in Hst, Hpers, Hseg, Hother.
  split; [exact Hr|]. split; [exact Hst|]. split; [exact Hpers|].
  split; [exact Hseg|]. split; [exact Hother|].
  intros q Hq.
  destruct (query_run tid q st' snm (v - 1) m' (or_introl Hst) Hq) as (Hr' & _).
  exact Hr'.
Qed.

Lemma mutation_saved_witness :
  fst (call 0 Clear first_stored) = Ret NoResult /\
  fst (call 0 Len (run (call 0 Clear) first_stored)) = Ret (Count 0).
Proof.
  epose proof (mutation_saved 0 Clear first_stored _ 1
                 [(str "K1", str "V1")] []) as HT.
  cbv zeta in HT. edestruct HT as (Hr & _ & _ & _ & _ & Hq).
  - steady_here.
  - reflexivity.
  - intros tail. vm_compute. reflexivity.
  - intros path Hp. vm_compute in Hp. discriminate Hp.
  - split; [exact Hr|]. rewrite (Hq Len eq_refl). reflexivity.
Defined.

(** X6. A value that has been stored is read back: after
    [d[k] = val] returns on a steady dictionary (its timeout not
    negative), [d[k]] is [val], [has_key(k)] and [k in d] are true, and
    the lookup of any other key gives what it gave before. *)
Theorem stored_value_read_back `{Platform}
    (tid : nat) (k val : pyval) (st : state) (snm : pystr) (v : Z) (m : pydict) :
  steady tid st snm v m ->
  codec_supports (ODict (dict_set k val m)) ->
  writable st ->
  let st' := run (call tid (SetItem k val)) st in
  fst (call tid (SetItem k val) st) = Ret NoResult /\
  fst (call tid (GetItem k) st') = Ret (Value val) /\
  fst (call tid (HasKey k) st') = Ret (Truth true) /\
  fst (call tid (Contains k) st') = Ret (Truth true) /\
  (forall k', k' <> k ->
     fst (call tid (GetItem k') st') = fst (call tid (GetItem k') st)).
Proof.
  intros Hs Hcodec Hwr st'.
  assert (Hpos : (0 <= v - 1)%Z) by (destruct Hs as ((_ & _ & Hv & _) & _); lia).
  replace v with (v - 1 + 1)%Z in Hs by lia.
  destruct (mutation_run tid (SetItem k val) st snm (v - 1) m _
              (or_introl Hs) Hpos eq_refl Hcodec Hwr) as (Hr & Hst & _).
  fold st' in Hst.
  assert (Hq : forall q, is_query q = true ->
                         fst (call tid q st') = answer q (dict_set k val m)).
  { intros q Hq. apply (query_run tid q st' snm (v - 1) _ (or_introl Hst) Hq). }
  assert (Hhas : dict_has k (dict_set k val m) = true).
  { unfold dict_has. apply bool_decide_eq_true. rewrite dict_get_set_eq.
    eexists. reflexivity. }
  split; [exact Hr|].
  split; [rewrite (Hq (GetItem k) eq_refl); cbn; rewrite dict_get_set_eq; reflexivity|].
  split; [rewrite (Hq (HasKey k) eq_refl); cbn; rewrite Hhas; reflexivity|].
  split; [rewrite (Hq (Contains k) eq_refl); cbn; rewrite Hhas; reflexivity|].
  intros k' Hne. rewrite (Hq (GetItem k') eq_refl).
  destruct (query_run tid (GetItem k') st snm (v - 1) m (or_introl Hs) eq_refl)
    as (Hr0 & _).
  rewrite Hr0. cbn. rewrite dict_get_set_ne by exact Hne. reflexivity.
Qed.

Lemma stored_value_read_back_witness :
  fst (call 0 (GetItem (str "K2"))
         (run (call 0 (SetItem (str "K2") (str "V2"))) first_stored))
  = Ret (Value (str "V2")).
Proof.
  epose proof (stored_value_read_back 0 (str "K2") (str "V2") first_stored _ 1
                 [(str "K1", str "V1")]) as HT.
  cbv zeta in HT. edestruct HT as (_ & Hg & _).
  - steady_here.
  - intros tail. vm_compute. reflexivity.
  - intros path Hp. vm_compute in Hp. discriminate Hp.
  - exact Hg.
Defined.

(** X7. A key that has been deleted is gone: after [del d[k]] returns
    on a steady dictionary (its timeout not negative) that has the key
    (once, as in every dict), [k in d] is false, [d[k]] raises
    [KeyError], the length is one less, and the lookup of any other key
    gives what it gave before. *)
Theorem deleted_key_is_gone `{Platform}
    (tid : nat) (k : pyval) (st : state) (snm : pystr) (v : Z) (m : pydict) :
  steady tid st snm v m ->
  NoDup (dict_keys m) ->
  dict_has k m = true ->
  codec_supports (ODict (dict_del k m)) ->
  writable st ->
  let st' := run (call tid (DelItem k)) st in
  fst (call tid (DelItem k) st) = Ret NoResult /\
  fst (call tid (Contains k) st') = Ret (Truth false) /\
  fst (call tid (GetItem k) st') = Raise KeyError /\
  (forall n, fst (call tid Len st) = Ret (Count n) ->
             fst (call tid Len st') = Ret (Count (n - 1))) /\
  (forall k', k' <> k ->
     fst (call tid (GetItem k') st') = fst (call tid (GetItem k') st)).
Proof.
  intros Hs Hnd Hhas Hcodec Hwr st'.
  assert (Hpos : (0 <= v - 1)%Z) by (destruct Hs as ((_ & _ & Hv & _) & _); lia).
  replace v with (v - 1 + 1)%Z in Hs by lia.
  assert (He : effect (DelItem k) m = Some (dict_del k m)).
  { cbn. rewrite Hhas. reflexivity. }
  destruct (mutation_run tid (DelItem k) st snm (v - 1) m _
              (or_introl Hs) Hpos He Hcodec Hwr) as (Hr & Hst & _).
  fold st' in Hst.
  assert (Hq : forall q, is_query q = true ->
                         fst (call tid q st') = answer q (dict_del k m)).
  { intros q Hq. apply (query_run tid q st' snm (v - 1) _ (or_introl Hst) Hq). }
  assert (Hq0 : forall q, is_query q = true -> fst (call tid q st) = answer q m).
  { intros q Hq'. apply (query_run tid q st snm (v - 1) _ (or_introl Hs) Hq'). }
  pose proof (dict_get_del_eq k m Hnd) as Hgone.
  split; [exact Hr|].
  split; [rewrite (Hq (Contains k) eq_refl); cbn;
          rewrite (proj2 (dict_has_get k _) Hgone); reflexivity|].
  split; [rewrite (Hq (GetItem k) eq_refl); cbn; rewrite Hgone; reflexivity|].
  split.
  - intros n. rewrite (Hq0 Len eq_refl), (Hq Len eq_refl). cbn.
    intros [= <-]. rewrite <- (dict_del_length k m Hhas). cbn.
    rewrite Nat.sub_0_r. reflexivity.
  - intros k' Hne. rewrite (Hq (GetItem k') eq_refl), (Hq0 (GetItem k') eq_refl).
    cbn. rewrite dict_get_del_ne by exact Hne. reflexivity.
Qed.

Lemma deleted_key_is_gone_witness :
  fst (call 0 (DelItem (str "K1")) first_stored) = Ret NoResult /\
  fst (call 0 (Contains (str "K1")) (run (call 0 (DelItem (str "K1"))) first_stored))
  = Ret (Truth false).
Proof.
  epose proof (deleted_key_is_gone 0 (str "K1") first_stored _ 1
                 [(str "K1", str "V1")]) as HT.
  cbv zeta in HT. edestruct HT as (Hr & Hc & _).
  - steady_here.
  - apply (bool_decide_unpack _). vm_compute. exact I.
  - vm_compute. reflexivity.
  - intros tail. vm_compute. reflexivity.
  - intros path Hp. vm_compute in Hp. discriminate Hp.
  - split; [exact Hr|exact Hc].
Defined.

(** ** What an operation leaves alone *)

Section Untouched.
Context {P : Platform}.

Lemma load_dict_beside_lock : preserves beside_lock __load_dict.
Proof.
  intros s. pose proof (load_dict_frame s) as F. unfold beside_load in F.
  injection F as Fd _ _ _ Fp _ _ _ Ff _. unfold beside_lock. congruence.
Qed.

Lemma acquire_lock_keeps (tid : nat) : preserves beside_lock (_acquire_lock tid).
Proof.
  unfold _acquire_lock. pose proof load_dict_beside_lock as F1.
  apply preserves_bind; [apply preserves_get|]. intros s.
  apply preserves_bind; [|intros ?; exact F1].
  destruct (__thread_local (self s) !! tid) as [[|]|]; [frame| |frame].
  apply preserves_try_except.
  - unfold semaphore, sem_acquire, set_held. frame.
  - intros e k Hk. destruct e; try discriminate. injection Hk as <-.
    destruct (auto_unlock (self s)); unfold set_held; frame.
Qed.

Lemma lock_tail_keeps (tid : nat) :
  preserves beside_lock (nm <- semaphore;; sem_release nm;; set_held tid false).
Proof. unfold semaphore, sem_release, set_held. frame. Qed.

Lemma release_lock_clean_keeps (tid : nat) (s : state) :
  __dirty (self s) = false ->
  beside_lock (run (_release_lock tid) s) = beside_lock s.
Proof.
  intros Hd. unfold run, _release_lock. unfold bind at 1, get at 1.
  destruct (__thread_local (self s) !! tid) as [[|]|]; [|reflexivity|reflexivity].
  unfold bind at 1. rewrite (save_clean s Hd). apply lock_tail_keeps.
Qed.

Lemma body_reading_keeps (o : op) :
  is_reading o = true -> preserves beside_lock (body o).
Proof.
  intros Hr. destruct o; try discriminate Hr;
    unfold body, with_cache_dict, alloc; frame.
Qed.

Lemma reading_run (tid : nat) (o : op) (st : state) :
  is_reading o = true ->
  __dirty (self st) = false ->
  beside_lock (run (call tid o) st) = beside_lock st.
Proof.
  intros Hr Hd. unfold run. rewrite call_body.
  unfold exclusive_lock. unfold bind at 1.
  pose proof (acquire_lock_keeps tid st) as FA.
  destruct (_acquire_lock tid st) as [[[]|e] sA]; cbn [snd] in FA; [|exact FA].
  unfold bind at 1. pose proof (body_reading_keeps o Hr sA) as FB.
  rewrite FA in FB.
  destruct (body o sA) as [[r|e] sB]; cbn [snd] in FB; [|exact FB].
  assert (HdB : __dirty (self sB) = false).
  { unfold beside_lock in FB. injection FB as FB _ _. congruence. }
  pose proof (release_lock_clean_keeps tid sB HdB) as FC. unfold run in FC.
  rewrite FB in FC. unfold bind at 1.
  destruct (_release_lock tid sB) as [[[]|e] sC]; exact FC.
Qed.

(** The save writes no file but the handle's own. *)
Lemma beside_segment_paths {A} (c : M A) :
  preserves beside_segment c -> preserves paths c.
Proof.
  intros H st. specialize (H st). unfold beside_segment in H.
  unfold paths. congruence.
Qed.

Lemma save_dict_other (s : state) (p : pystr) :
  persist_file (self s) <> Some p ->
  persist_file (self (run __save_dict s)) = persist_file (self s) /\
  files (os (run __save_dict s)) !! p = files (os s) !! p.
Proof.
  intros Hne. split.
  { pose proof (save_dict_frame s) as F. unfold beside_save in F.
    injection F as _ _ _ _ _ F _ _ _ _. exact F. }
  unfold run, __save_dict. unfold bind at 1, get at 1.
  destruct (__dirty (self s)); [|reflexivity].
  unfold bind at 1. unfold bind at 1.
  pose proof (beside_segment_paths _ map_file_frame s) as F1.
  destruct (map_file s) as [[nm0|e] s1]; cbn [snd] in F1;
    [|unfold paths in F1; cbn; congruence].
  unfold bind at 1, get at 1. cbv zeta. unfold bind at 1.
  pose proof (beside_segment_paths _ map_file_frame s1) as F2.
  destruct (map_file s1) as [[nm|e] s2]; cbn [snd] in F2;
    [|unfold paths in F1, F2; cbn; congruence].
  unfold bind at 1.
  assert (F3 : preserves paths
                 (mmap_write nm (pickle_dumps_2
                                   (deref (heap s1) (__internal_dict (self s1))))))
    by (unfold mmap_write; frame).
  specialize (F3 s2).
  destruct (mmap_write nm _ s2) as [[[]|e] s3]; cbn [snd] in F3;
    [|unfold paths in F1, F2, F3; cbn; congruence].
  unfold paths in F1, F2, F3.
  injection F1 as Fp1 Ff1. injection F2 as Fp2 Ff2. injection F3 as Fp3 Ff3.
  destruct (persist_file (self s1)) as [path|] eqn:Hp.
  - unfold file_write, bind, get.
    assert (path <> p) by congruence.
    destruct (files (os s3) !! path) as [[fbs|]|]; cbn;
      rewrite ?lookup_insert_ne by assumption; congruence.
  - cbn. congruence.
Qed.

Lemma body_paths (o : op) : preserves paths (body o).
Proof.
  destruct o; unfold body, setitem_body, with_cache_dict, store, alloc; frame.
Qed.

Lemma beside_lock_paths {A} (c : M A) :
  preserves beside_lock c -> preserves paths c.
Proof.
  intros H st. specialize (H st). unfold beside_lock in H.
  unfold paths. congruence.
Qed.

Lemma release_lock_other_file (tid : nat) (s : state) (p : pystr) :
  persist_file (self s) <> Some p ->
  persist_file (self (run (_release_lock tid) s)) = persist_file (self s) /\
  files (os (run (_release_lock tid) s)) !! p = files (os s) !! p.
Proof.
  intros Hne. unfold run.
  destruct (_release_lock tid s) as [r sC] eqn:E. cbn [snd].
  unfold _release_lock in E. unfold bind at 1, get at 1 in E.
  destruct (__thread_local (self s) !! tid) as [[|]|];
    [|injection E as _ <-; split; reflexivity ..].
  unfold bind at 1 in E. destruct (save_dict_other s p Hne) as (Hp & Hf).
  unfold run in Hp, Hf.
  destruct (__save_dict s) as [[[]|e] s1]; cbn [snd] in Hp, Hf;
    [|injection E as _ <-; split; assumption].
  pose proof (beside_lock_paths _ (lock_tail_keeps tid) s1) as F.
  rewrite E in F. cbn [snd] in F. unfold paths in F.
  injection F as Fp Ff. rewrite Fp, Ff. split; assumption.
Qed.

Lemma call_other_file (tid : nat) (o : op) (st : state) (p : pystr) :
  persist_file (self st) <> Some p ->
  persist_file (self (run (call tid o) st)) = persist_file (self st) /\
  files (os (run (call tid o) st)) !! p = files (os st) !! p.
Proof.
  intros Hne. unfold run. rewrite call_body.
  destruct (exclusive_lock tid (body o) st) as [r sR] eqn:E. cbn [snd].
  unfold exclusive_lock in E. unfold bind at 1 in E.
  pose proof (beside_lock_paths _ (acquire_lock_keeps tid) st) as FA.
  unfold paths in FA.
  destruct (_acquire_lock tid st) as [[[]|e] sA]; cbn [snd] in FA;
    injection FA as FpA FfA;
    [|injection E as _ <-; rewrite FpA, FfA; split; reflexivity].
  unfold bind at 1 in E. pose proof (body_paths o sA) as FB. unfold paths in FB.
  destruct (body o sA) as [[r'|e] sB]; cbn [snd] in FB;
    injection FB as FpB FfB;
    [|injection E as _ <-; rewrite FpB, FfB, FpA, FfA; split; reflexivity].
  destruct (release_lock_other_file tid sB p) as (FpC & FfC); [congruence|].
  unfold run in FpC, FfC. unfold bind at 1 in E.
  destruct (_release_lock tid sB) as [[[]|e] sC]; cbn [snd] in FpC, FfC;
    injection E as _ <-; rewrite FpC, FfC, FpB, FfB, FpA, FfA; split; reflexivity.
Qed.
End Untouched.

(** X8. An operation that changes no item ([__getitem__], [__repr__],
    [__len__], [copy], [has_key], [__contains__], [__iter__]), on a
    handle with nothing unsaved, writes no file and leaves nothing
    unsaved, whatever the state of the lock and of the segment and
    whether it returns or raises. *)
Theorem reading_leaves_files `{Platform} (tid : nat) (o : op) (st : state) :
  is_reading o = true ->
  __dirty (self st) = false ->
  let st' := run (call tid o) st in
  files (os st') = files (os st) /\ __dirty (self st') = false.
Proof.
  intros Hr Hd st'. pose proof (reading_run tid o st Hr Hd) as F.
  fold st' in F. unfold beside_lock in F. injection F as Fd _ Ff.
  split; [exact Ff|congruence].
Qed.

Lemma reading_leaves_files_witness :
  files (os (run (call 0 Copy) (boot per_shm_dict empty_world))) = ∅.
Proof.
  edestruct (reading_leaves_files 0 Copy (boot per_shm_dict empty_world))
    as (Hf & _); [reflexivity|reflexivity|].
  rewrite Hf. reflexivity.
Defined.

(** X9. No operation touches a file other than the handle's own
    persistence file: every other path holds what it held before, and
    the handle's path stays what it is. A volatile dictionary touches
    no file at all. *)
Theorem other_files_untouched `{Platform}
    (tid : nat) (o : op) (st : state) (p : pystr) :
  persist_file (self st) <> Some p ->
  let st' := run (call tid o) st in
  persist_file (self st') = persist_file (self st) /\
  files (os st') !! p = files (os st) !! p.
Proof. intros Hne. apply call_other_file. exact Hne. Qed.

Lemma other_files_untouched_witness :
  files (os (run (call 0 (SetItem (str "K1") (str "V1")))
               (boot vol_shm_dict denied_world))) !! per_path
  = Some FDenied.
Proof.
  edestruct (other_files_untouched 0 (SetItem (str "K1") (str "V1"))
               (boot vol_shm_dict denied_world) per_path) as (_ & Hf).
  - vm_compute. discriminate.
  - rewrite Hf. vm_compute. reflexivity.
Defined.

(** ** The dict objects of a process *)

Section Evolves.

Lemma evolves_refl (s : state) : evolves s s.
Proof.
  split; [reflexivity|]. split; [reflexivity|]. intros l Hl. left. exact Hl.
Qed.

Lemma evolves_trans (s1 s2 s3 : state) :
  evolves s1 s2 -> evolves s2 s3 -> evolves s1 s3.
Proof.
  intros (L12 & K12 & R12) (L23 & K23 & R23).
  split; [lia|]. split.
  - intros c Hc Hne. rewrite K23; [apply K12; assumption|lia|].
    intros Hi. destruct (R12 c Hi) as [E|E]; [contradiction|lia].
  - intros l Hl. destruct (R23 l Hl) as [E|E]; [|right; lia].
    destruct (R12 l E) as [E'|E']; [left; exact E'|right; lia].
Qed.

Lemma objects_evolves (s s' : state) : objects s' = objects s -> evolves s s'.
Proof.
  unfold objects. intros [= Hh Hi]. unfold evolves. rewrite Hh, Hi.
  apply evolves_refl.
Qed.

Lemma keeps_objects {A} (c : M A) : preserves objects c -> keeps evolves c.
Proof. intros H st. apply objects_evolves, H. Qed.

Lemma keeps_ret {A} (a : A) : keeps evolves (ret a).
Proof. intros st. apply evolves_refl. Qed.

Lemma keeps_raise {A} (e : exn) : keeps evolves (raise (A := A) e).
Proof. intros st. apply evolves_refl. Qed.

Lemma keeps_lift {A} (r : res A) : keeps evolves (lift r).
Proof. intros st. apply evolves_refl. Qed.

Lemma keeps_get : keeps evolves get.
Proof. intros st. apply evolves_refl. Qed.

Lemma keeps_bind {A B} (c : M A) (k : A -> M B) :
  keeps evolves c -> (forall a, keeps evolves (k a)) -> keeps evolves (bind c k).
Proof.
  intros Hc Hk st. unfold bind. specialize (Hc st).
  destruct (c st) as [[a|e] st1]; [|exact Hc].
  eapply evolves_trans; [exact Hc|apply Hk].
Qed.

Lemma keeps_try_pass (caught : exn -> bool) (c : M unit) :
  keeps evolves c -> keeps evolves (try_pass caught c).
Proof.
  intros Hc st. unfold try_pass. specialize (Hc st).
  destruct (c st) as [[a|e] st1]; [exact Hc|].
  destruct (caught e); exact Hc.
Qed.

Lemma keeps_try_except {A} (c : M A) (handler : exn -> option (M A)) :
  keeps evolves c ->
  (forall e k, handler e = Some k -> keeps evolves k) ->
  keeps evolves (try_except c handler).
Proof.
  intros Hc Hh st. unfold try_except. specialize (Hc st).
  destruct (c st) as [[a|e] st1]; [exact Hc|].
  destruct (handler e) as [k|] eqn:Hk; [|exact Hc].
  eapply evolves_trans; [exact Hc|apply (Hh e k Hk)].
Qed.

Lemma install_evolves (o : pyobj) (s : state) : evolves s (install o s).
Proof.
  destruct o as [|z|d]; unfold evolves; cbn.
  - split; [reflexivity|]. split; [reflexivity|]. intros l Hl. discriminate Hl.
  - split; [reflexivity|]. split; [reflexivity|]. intros l Hl. discriminate Hl.
  - split; [rewrite length_app; lia|]. split.
    + intros c Hc _. apply lookup_app_l. exact Hc.
    + intros l [= <-]. right. rewrite length_app. cbn. lia.
Qed.

Lemma mutated_evolves (l : nat) (d : pydict) (s : state) :
  __internal_dict (self s) = RDict l ->
  evolves s (State (self s) (<[l := d]> (heap s)) (os s)).
Proof.
  intros Hi. unfold evolves. cbn.
  split; [rewrite length_insert; reflexivity|]. split.
  - intros c Hc Hne. cbn. apply list_lookup_insert_ne. congruence.
  - intros l' Hl. left. exact Hl.
Qed.

Lemma alloc_evolves (d : pydict) : keeps evolves (alloc d).
Proof.
  intros s. unfold evolves. cbn. split; [rewrite length_app; lia|]. split.
  - intros c Hc _. apply lookup_app_l. exact Hc.
  - intros l Hl. left. exact Hl.
Qed.

Lemma valid_evolves (s s' : state) : valid s -> evolves s s' -> valid s'.
Proof.
  intros Hv (L & _ & R) l Hl. destruct (R l Hl) as [E|E]; [|lia].
  specialize (Hv l E). lia.
Qed.
End Evolves.

Ltac evolve :=
  repeat first
    [ solve [auto 1] | progress cbv zeta
    | apply keeps_ret | apply keeps_raise | apply keeps_lift
    | apply keeps_get | apply keeps_try_pass
    | apply keeps_bind; [|intros ?]
    | match goal with
      | |- keeps _ (match ?x with _ => _ end) => destruct x
      end ].

Section Objects.
Context {P : Platform}.

Lemma map_file_evolves : keeps evolves map_file.
Proof.
  apply keeps_objects. intros s. pose proof (map_file_frame s) as F.
  unfold beside_segment in F. unfold objects. congruence.
Qed.

Lemma unpickle_evolves (bs : list byte) : keeps evolves (unpickle_into_cache bs).
Proof.
  intros s. rewrite unpickle_run.
  destruct (pickle_load bs); [apply install_evolves|apply evolves_refl].
Qed.

Lemma load_dict_evolves : keeps evolves __load_dict.
Proof.
  pose proof map_file_evolves. pose proof unpickle_evolves.
  assert (Hd : keeps evolves load_default).
  { intros s. unfold load_default, bind, get.
    destruct (is_None (__internal_dict (self s)));
      [apply (install_evolves (ODict []))|apply evolves_refl]. }
  unfold __load_dict, load_from_segment, load_from_file, mmap_read, file_read.
  evolve.
Qed.

Lemma set_held_evolves (tid : nat) (b : bool) : keeps evolves (set_held tid b).
Proof. intros s. apply objects_evolves. reflexivity. Qed.

Lemma semaphore_evolves : keeps evolves semaphore.
Proof.
  apply keeps_objects. unfold semaphore. frame.
Qed.

Lemma acquire_lock_evolves (tid : nat) : keeps evolves (_acquire_lock tid).
Proof.
  unfold _acquire_lock.
  pose proof load_dict_evolves. pose proof semaphore_evolves.
  pose proof (set_held_evolves tid true).
  apply keeps_bind; [apply keeps_get|]. intros s.
  apply keeps_bind; [|intros ?; assumption].
  destruct (__thread_local (self s) !! tid) as [[|]|]; [evolve| |evolve].
  apply keeps_try_except.
  - assert (forall nm t, keeps evolves (sem_acquire nm t))
      by (intros nm t; apply keeps_objects; unfold sem_acquire; frame).
    evolve.
  - intros e k Hk. destruct e; try discriminate. injection Hk as <-.
    destruct (auto_unlock (self s)); evolve.
Qed.

Lemma body_evolves (o : op) : keeps evolves (body o).
Proof.
  assert (Hstore : forall e (f : pydict -> res pydict),
             keeps evolves (with_cache_dict e (fun l d =>
               match f d with
               | Ret d' => store l d'
               | Raise e' => raise e'
               end))).
  { intros e f s. unfold with_cache_dict, bind, get.
    destruct (__internal_dict (self s)) as [|z|l] eqn:Hi;
      try apply evolves_refl.
    destruct (f _); [|apply evolves_refl].
    apply (mutated_evolves l _ s Hi). }
  assert (Hdirty : keeps evolves (set_self (with_dirty true)))
    by (intros s; apply objects_evolves; reflexivity).
  pose proof alloc_evolves.
  destruct o; unfold body, setitem_body.
  - pose proof (Hstore TypeError (fun d => Ret (dict_set key value d))). evolve.
  - unfold with_cache_dict. evolve.
  - evolve.
  - unfold with_cache_dict. evolve.
  - assert (Hdel : keeps evolves
                     (with_cache_dict TypeError (fun l d =>
                        match dict_get key d with
                        | Some _ => store l (dict_del key d)
                        | None => raise KeyError
                        end))).
    { intros s. specialize (Hstore TypeError
        (fun d => match dict_get key d with
                  | Some _ => Ret (dict_del key d)
                  | None => Raise KeyError
                  end) s).
      unfold with_cache_dict, bind, get in *.
      destruct (__internal_dict (self s)); try exact Hstore.
      destruct (dict_get key _); exact Hstore. }
    evolve.
  - pose proof (Hstore AttributeError (fun d => Ret [])). evolve.
  - unfold with_cache_dict. evolve.
  - unfold with_cache_dict. evolve.
  - unfold with_cache_dict. evolve.
  - unfold with_cache_dict. evolve.
Qed.

Lemma call_evolves (tid : nat) (o : op) : keeps evolves (call tid o).
Proof.
  intros st. rewrite call_body. revert st.
  pose proof (acquire_lock_evolves tid). pose proof (body_evolves o).
  assert (keeps evolves (_release_lock tid))
    by (apply keeps_objects, release_lock_objects).
  unfold exclusive_lock. evolve.
Qed.

(** What [copy] returns. *)
Lemma copy_run (tid : nat) (st st1 : state) (r : pyref) :
  valid st ->
  call tid Copy st = (Ret (Reference r), st1) ->
  exists c, r = RDict c /\
            length (heap st) <= c /\ c < length (heap st1) /\
            __internal_dict (self st1) <> RDict c /\
            deref (heap st1) r = cache st1 /\
            valid st1.
Proof.
  intros Hvalid. rewrite call_body. unfold exclusive_lock. unfold bind at 1.
  pose proof (acquire_lock_evolves tid st) as EA.
  destruct (_acquire_lock tid st) as [[[]|e] sA]; [|discriminate].
  cbn [snd] in EA. pose proof (valid_evolves _ _ Hvalid EA) as HvA.
  destruct EA as (LA & _ & _).
  unfold bind at 1. cbn [body]. unfold bind at 1, with_cache_dict.
  unfold bind at 1, get at 1.
  destruct (__internal_dict (self sA)) as [|z|l] eqn:Hi; try discriminate.
  specialize (HvA l Hi).
  unfold alloc, bind, get, set_heap, ret. cbn [self heap os fst snd].
  match goal with |- context [_release_lock tid ?s] => set (sB := s) end.
  pose proof (release_lock_objects tid sB) as F. unfold objects in F.
  destruct (_release_lock tid sB) as [[[]|e] sC]; [|discriminate].
  cbn [snd] in F. injection F as Fh Fi. intros [= <- <-].
  exists (length (heap sA)).
  split; [reflexivity|]. split; [exact LA|].
  rewrite Fh. cbn [sB heap]. split; [rewrite length_app; cbn; lia|].
  rewrite Fi. cbn [sB self]. rewrite Hi.
  split; [intros [= E]; lia|]. split.
  - unfold cache. rewrite Fh, Fi. cbn [sB self heap]. rewrite Hi. cbn.
    rewrite lookup_app_r by reflexivity. rewrite Nat.sub_diag. cbn.
    rewrite lookup_app_l by exact HvA. reflexivity.
  - intros l' Hl'. rewrite Fi in Hl'. cbn [sB self] in Hl'. rewrite Hi in Hl'.
    injection Hl' as <-. rewrite Fh. cbn [sB heap]. rewrite length_app. lia.
Qed.
End Objects.

(** X10. No operation loses a dict object or changes one other than the
    object the handle refers to when the operation starts; afterwards
    the handle refers to that object or to a new one. *)
Theorem operations_keep_other_objects `{Platform}
    (tid : nat) (o : op) (st : state) :
  evolves st (run (call tid o) st).
Proof. apply call_evolves. Qed.

(** X11. [copy] returns a new dict object with the items of the cache,
    distinct from the object the handle refers to; no later operation
    on the dictionary, by any thread, changes it. *)
Theorem copy_is_independent `{Platform}
    (tid : nat) (st st1 : state) (r : pyref) :
  valid st ->
  call tid Copy st = (Ret (Reference r), st1) ->
  exists c, r = RDict c /\
            length (heap st) <= c /\
            __internal_dict (self st1) <> RDict c /\
            deref (heap st1) r = cache st1 /\
            forall tid' o, heap (run (call tid' o) st1) !! c = heap st1 !! c.
Proof.
  intros Hvalid Hrun.
  destruct (copy_run tid st st1 r Hvalid Hrun) as (c & -> & L & U & Hne & Hd & _).
  exists c. split; [reflexivity|]. split; [exact L|]. split; [exact Hne|].
  split; [exact Hd|]. intros tid' o.
  destruct (call_evolves tid' o st1) as (_ & K & _). apply K; assumption.
Qed.

Lemma copy_is_independent_witness :
  exists c,
    fst (call 0 Copy first_stored) = Ret (Reference (RDict c)) /\
    heap (run (call 0 (DelItem (str "K1"))) (run (call 0 Copy) first_stored)) !! c
    = Some [(str "K1", str "V1")].
Proof.
  epose proof (copy_is_independent 0 first_stored
                 (run (call 0 Copy) first_stored) _) as HT.
  edestruct HT as (c & Hc & _ & _ & _ & Hkeep).
  - intros l Hl. vm_compute in Hl. injection Hl as <-. vm_compute. lia.
  - apply run_result. vm_compute. reflexivity.
  - exists c. split.
    + injection Hc as <-. vm_compute. reflexivity.
    + rewrite Hkeep. injection Hc as <-. vm_compute. reflexivity.
Defined.

(** ** The name, the path and the segment of a handle *)

Section Handle.
Context {P : Platform}.

Lemma shared_mem_name (st st' : state) (r : pystr * nat) :
  shared_mem st = (Ret r, st') -> safe_shm_name (self st) = Ret (fst r).
Proof.
  unfold shared_mem, bind, get, lift.
  destruct (safe_shm_name (self st)) as [nm|e]; [|discriminate].
  destruct (shms (os st) !! nm); [destruct (decide _)|];
    cbn; intros [= <- _]; reflexivity.
Qed.

Lemma map_file_handle : preserves handle_of map_file.
Proof.
  assert (Htail : forall nm (f : state -> nat),
             preserves handle_of (st <- get;; mmap_resize nm (f st);; ret nm))
    by (intros; unfold mmap_resize; frame).
  intros st. unfold map_file. unfold bind at 1, get at 1.
  destruct (_map_file (self st)) as [nm|] eqn:Hm.
  - unfold bind at 1. cbn [ret].
    apply (Htail nm (fun st => page_round (length (pickle_dumps_2
                       (deref (heap st) (__internal_dict (self st))))))).
  - unfold bind at 1. unfold bind at 1.
    pose proof (shared_mem_beside st) as B1.
    destruct (shared_mem st) as [[fd|e] s1] eqn:H1; cbn [snd] in B1;
      injection B1 as B1 _;
      [|unfold handle_of, segment_of; cbn [snd]; rewrite B1; reflexivity].
    apply shared_mem_name in H1.
    unfold bind at 1. pose proof (shared_mem_beside s1) as B2.
    destruct (shared_mem s1) as [[sz|e] s2]; cbn [snd] in B2;
      injection B2 as B2 _;
      [|unfold handle_of, segment_of; cbn [snd]; rewrite B2, B1; reflexivity].
    unfold bind at 1. unfold set_self at 1.
    unfold bind at 1.
    match goal with |- context [shared_mem ?s] => set (s2' := s) end.
    pose proof (shared_mem_beside s2') as B3.
    destruct (shared_mem s2') as [[x|e] s3]; cbn [snd] in B3;
      injection B3 as B3 _.
    + unfold ret at 1.
      rewrite (Htail (fst fd) (fun st => page_round (length (pickle_dumps_2
                         (deref (heap st) (__internal_dict (self st)))))) s3).
      unfold handle_of, segment_of. rewrite B3. cbn [s2' self].
      rewrite B2, B1. cbn. rewrite Hm, H1. reflexivity.
    + cbn [snd]. unfold handle_of, segment_of. rewrite B3. cbn [s2' self].
      rewrite B2, B1. cbn. rewrite Hm, H1. reflexivity.
Qed.

Lemma load_dict_handle : preserves handle_of __load_dict.
Proof.
  unfold __load_dict, load_from_segment, load_from_file, load_default,
    mmap_read, file_read, alloc.
  pose proof map_file_handle.
  assert (forall bs, preserves handle_of (unpickle_into_cache bs))
    by (intros; unfold unpickle_into_cache, new_object, alloc; frame).
  frame.
Qed.

Lemma save_dict_handle : preserves handle_of __save_dict.
Proof.
  unfold __save_dict, mmap_write, file_write.
  pose proof map_file_handle. frame.
Qed.

Lemma acquire_lock_handle (tid : nat) : preserves handle_of (_acquire_lock tid).
Proof.
  unfold _acquire_lock. pose proof load_dict_handle as F1.
  apply preserves_bind; [apply preserves_get|]. intros s.
  apply preserves_bind; [|intros ?; exact F1].
  destruct (__thread_local (self s) !! tid) as [[|]|]; [frame| |frame].
  apply preserves_try_except.
  - unfold semaphore, sem_acquire, set_held. frame.
  - intros e k Hk. destruct e; try discriminate. injection Hk as <-.
    destruct (auto_unlock (self s)); unfold set_held; frame.
Qed.

Lemma release_lock_handle (tid : nat) : preserves handle_of (_release_lock tid).
Proof.
  unfold _release_lock, semaphore, sem_release, set_held.
  pose proof save_dict_handle. frame.
Qed.

Lemma body_handle (o : op) : preserves handle_of (body o).
Proof.
  destruct o; unfold body, setitem_body, with_cache_dict, store, alloc; frame.
Qed.

Lemma call_handle (tid : nat) (o : op) : preserves handle_of (call tid o).
Proof.
  intros st. rewrite call_body. revert st.
  pose proof (acquire_lock_handle tid). pose proof (body_handle o).
  pose proof (release_lock_handle tid).
  unfold exclusive_lock. frame.
Qed.
End Handle.

(** ** Destruction *)

Section Destructor.
Context {P : Platform}.

Lemma mapped_already (nm : pystr) (bs : list byte) (st : state) :
  _map_file (self st) = Some nm -> mapped nm bs st = set_segment nm bs st.
Proof.
  destruct st as [[] hp w]. cbn. intros ->. reflexivity.
Qed.

(** The semaphore is opened, or created with value 1. *)
Lemma semaphore_opens (st : state) (snm : pystr) :
  semaphore_of st = Some snm ->
  _semaphore (self st) = None \/ is_Some (sems (os st) !! snm) ->
  exists v, semaphore st
            = (Ret snm,
               State (with_semaphore (Some snm) (self st)) (heap st)
                     (with_sems (<[snm := v]> (sems (os st))) (os st))).
Proof.
  intros Hof Hs.
  destruct (sems (os st) !! snm) as [v|] eqn:Hv.
  - exists v. rewrite (semaphore_run st snm v Hof Hv). unfold opened.
    rewrite insert_id by exact Hv. destruct st as [h hp []]. reflexivity.
  - destruct Hs as [Hn | [? Hx]]; [|discriminate Hx].
    exists 1%Z. unfold semaphore_of in Hof. rewrite Hn in Hof.
    unfold semaphore, bind, get. rewrite Hn.
    destruct (safe_sem_name (self st)) as [nm'|e]; [|discriminate].
    injection Hof as ->. unfold lift. rewrite Hv. reflexivity.
Qed.

Lemma del_run (st : state) (nm snm : pystr) :
  safe_shm_name (self st) = Ret nm ->
  unmapped st nm \/
    (_map_file (self st) = Some nm /\ is_Some (shms (os st) !! nm)) ->
  semaphore_of st = Some snm ->
  _semaphore (self st) = None \/ is_Some (sems (os st) !! snm) ->
  __del__ st = (Ret tt, destroyed nm snm st).
Proof.
  intros Hn Hmap Hof Hsem.
  assert (Hm : exists bs1, map_file st = (Ret nm, mapped nm bs1 st)).
  { destruct Hmap as [Hun | (Hm & bs & Hs)].
    - eexists. apply (map_file_unmapped st nm Hun).
    - eexists. rewrite (map_file_mapped st nm bs Hm Hs).
      rewrite (mapped_already nm _ st Hm). reflexivity. }
  destruct Hm as (bs1 & Hm).
  unfold __del__. unfold bind at 1. rewrite Hm.
  destruct (shared_mem_open (mapped nm bs1 st) nm bs1 Hn) as (n & Hsm);
    [apply lookup_insert_eq|].
  unfold bind at 1. rewrite Hsm. cbn [fst].
  unfold bind at 1. unfold shm_unlink. unfold bind at 1, get at 1.
  cbn [set_segment mapped os shms with_shms self heap].
  rewrite lookup_insert_eq. unfold set_os at 1. cbn [self heap os].
  match goal with |- bind _ _ ?s = _ => set (s3 := s) end.
  destruct (semaphore_opens s3 snm Hof Hsem) as (v & Hopen).
  unfold bind at 1. rewrite Hopen.
  unfold sem_unlink, bind, get. cbn [s3 os sems with_sems with_shms self heap].
  rewrite lookup_insert_eq. unfold set_os, destroyed, with_sems, with_shms.
  cbn. rewrite !delete_insert_eq. reflexivity.
Qed.
End Destructor.

(** X12. The first load of a handle on a name that has no segment: the
    segment is created and mapped, one page of zero bytes for a handle
    without cache; when the codec finds nothing in zero bytes, the
    cache becomes the dictionary that the persistence file holds, or an
    empty one when there is no file, when it cannot be opened or when
    it holds [None]. *)
Theorem first_load_new_name `{Platform} (st : state) (nm : pystr) (m : pydict) :
  unmapped st nm ->
  __internal_dict (self st) = RNone ->
  blank_rejected ->
  initial st = Some m ->
  let st' := run __load_dict st in
  fst (__load_dict st) = Ret tt /\
  cache st' = ODict m /\
  _map_file (self st') = Some nm /\
  segment st' = Some (repeat x00 (page_round (length (pickle_dumps_2 ONone)))) /\
  files (os st') = files (os st) /\
  in_step st' m.
Proof.
  intros Hun Hi Hblank Hinit st'.
  pose proof (first_load st nm m Hun Hi Hblank Hinit) as Hrun. cbv zeta in Hrun.
  unfold st', run. rewrite Hrun. cbn [fst snd].
  split; [reflexivity|]. split; [apply cache_install|].
  split; [reflexivity|].
  split; [unfold segment; cbn; apply lookup_insert_eq|].
  split; [reflexivity|]. apply in_step_first. exact Hblank.
Qed.

Lemma first_load_new_name_witness :
  fst (__load_dict (boot per_shm_dict empty_world)) = Ret tt /\
  cache (run __load_dict (boot per_shm_dict empty_world)) = ODict [] /\
  length <$> segment (run __load_dict (boot per_shm_dict empty_world)) = Some 4096.
Proof.
  epose proof (first_load_new_name (boot per_shm_dict empty_world) _ []) as HT.
  cbv zeta in HT. edestruct HT as (Hr & Hc & _ & Hs & _).
  - split; [reflexivity|]. split; [vm_compute; reflexivity|reflexivity].
  - reflexivity.
  - exact cpython_blank_rejected.
  - vm_compute. reflexivity.
  - split; [exact Hr|]. split; [exact Hc|]. rewrite Hs. vm_compute. reflexivity.
Defined.




(** X14. The destructor, on a handle that has mapped the segment of its
    name, or has not mapped anything while no segment exists for its
    name, with a semaphore that exists or
    has not been opened: it returns, the segment name and the semaphore
    name are gone, every other segment and semaphore is as before, and
    nothing is saved on the way: the files, the dict objects and the
    dirty flag are as they were. *)
Theorem del_unlinks `{Platform} (st : state) (nm snm : pystr) :
  safe_shm_name (self st) = Ret nm ->
  unmapped st nm \/
    (_map_file (self st) = Some nm /\ is_Some (shms (os st) !! nm)) ->
  semaphore_of st = Some snm ->
  _semaphore (self st) = None \/ is_Some (sems (os st) !! snm) ->
  let st' := run __del__ st in
  fst (__del__ st) = Ret tt /\
  shms (os st') = delete nm (shms (os st)) /\
  sems (os st') = delete snm (sems (os st)) /\
  files (os st') = files (os st) /\
  objects st' = objects st /\
  __dirty (self st') = __dirty (self st).
Proof.
  intros Hn Hmap Hof Hsem st'. unfold st', run.
  rewrite (del_run st nm snm Hn Hmap Hof Hsem). repeat split.
Qed.

Lemma del_unlinks_witness :
  fst (__del__ first_stored) = Ret tt /\
  shms (os (run __del__ first_stored)) = ∅ /\
  sems (os (run __del__ first_stored)) = ∅.
Proof.
  epose proof (del_unlinks first_stored _ _) as HT.
  cbv zeta in HT. edestruct HT as (Hr & Hs & Hv & _).
  - vm_compute. reflexivity.
  - right. split; [vm_compute; reflexivity|]. eexists. vm_compute. reflexivity.
  - vm_compute. reflexivity.
  - right. eexists. vm_compute. reflexivity.
  - split; [exact Hr|]. split.
    + rewrite Hs. vm_compute. reflexivity.
    + rewrite Hv. vm_compute. reflexivity.
Defined.

Section Names.
Context {P : Platform}.

Lemma safe_name_same (h h' : handle) (prefix : pystr) :
  name h' = name h -> _safe_name h' prefix = _safe_name h prefix.
Proof. unfold _safe_name. intros ->. reflexivity. Qed.

Lemma safe_name_raises (h : handle) (prefix : pystr) (e : exn) :
  _safe_name h prefix = Raise e -> e = UnicodeEncodeError.
Proof.
  unfold _safe_name. destruct (Utf8.encode false _); [discriminate|].
  intros [= <-]. reflexivity.
Qed.

(** A handle that [__init__] has just built, on a name with neither
    semaphore nor segment. *)
Lemma init_fresh (tid : nat) (nm : pystr) (persist unlock : bool) (timeout : Z)
    (w : world) (snm shm : pystr) (m : pydict) :
  let h := __init__ tid nm persist timeout unlock in
  (0 <= timeout)%Z ->
  safe_sem_name h = Ret snm ->
  safe_shm_name h = Ret shm ->
  sems w !! snm = None ->
  shms w !! shm = None ->
  blank_rejected ->
  initial (boot h w) = Some m ->
  fresh tid (boot h w) snm 1 m.
Proof.
  intros h Htime Hsn Hshn Hs Hsh Hblank Hinit.
  split; [|split; [reflexivity|split; [|split; [reflexivity|split; assumption]]]].
  - split; [unfold held; cbn; apply lookup_singleton_eq|].
    split; [unfold semaphore_of; cbn [boot self h __init__ _semaphore];
            rewrite Hsn; reflexivity|].
    split; [lia|].
    split; [right; split; [exact Hs|]; split; reflexivity|exact Htime].
  - exists shm. split; [reflexivity|]. split; [exact Hshn|exact Hsh].
Qed.
End Names.

(** X15. A dictionary just built by [SHMDict(name)] with a timeout that
    is not negative, not persistent, on a name with neither semaphore
    nor segment, is empty: [len] is 0 and
    every lookup raises [KeyError]; the first operation creates the
    semaphore, which is back at 1 when [len] returns, and the segment;
    no file is touched. *)
Theorem new_dictionary_is_empty `{Platform}
    (tid : nat) (nm : pystr) (timeout : Z) (unlock : bool) (w : world)
    (snm shm : pystr) :
  let h := __init__ tid nm false timeout unlock in
  let st' := run (call tid Len) (boot h w) in
  (0 <= timeout)%Z ->
  safe_sem_name h = Ret snm ->
  safe_shm_name h = Ret shm ->
  sems w !! snm = None ->
  shms w !! shm = None ->
  blank_rejected ->
  fst (call tid Len (boot h w)) = Ret (Count 0) /\
  sems (os st') !! snm = Some 1%Z /\
  is_Some (segment st') /\
  files (os st') = files w /\
  (forall k, fst (call tid (GetItem k) (boot h w)) = Raise KeyError).
Proof.
  intros h st' Htime Hsn Hshn Hs Hsh Hblank.
  assert (Hf : fresh tid (boot h w) snm (0 + 1) []).
  { apply init_fresh with (shm := shm); try assumption. reflexivity. }
  destruct (query_run tid Len (boot h w) snm 0 [] (or_intror (or_intror Hf)) eq_refl)
    as (Hr & Hfiles & _ & Hok & _).
  destruct (Hok (Count 0) eq_refl) as (Hst & Hv); [lia|].
  fold st' in Hst, Hv, Hfiles.
  split; [exact Hr|]. split; [exact Hv|]. split; [|split; [exact Hfiles|]].
  - destruct Hst as (_ & _ & _ & bs & Hview & _). unfold view in Hview.
    unfold segment. destruct (_map_file (self st')) as [x|]; [|discriminate].
    destruct (shms (os st') !! x); [eexists; reflexivity|discriminate].
  - intros k.
    destruct (query_run tid (GetItem k) (boot h w) snm 0 []
                (or_intror (or_intror Hf)) eq_refl) as (Hr' & _).
    exact Hr'.
Qed.

Lemma new_dictionary_is_empty_witness :
  fst (call 0 Len (boot vol_shm_dict empty_world)) = Ret (Count 0).
Proof.
  epose proof (new_dictionary_is_empty 0 (lit "PyTestSHMDict") 0 false
                 empty_world _ _) as HT.
  cbv zeta in HT. edestruct HT as (Hr & _).
  - lia.
  - vm_compute. reflexivity.
  - vm_compute. reflexivity.
  - reflexivity.
  - reflexivity.
  - exact cpython_blank_rejected.
  - exact Hr.
Defined.

(** X16. What is stored in a persistent dictionary survives its
    destruction: after a change has returned on a steady handle and the
    destructor has unlinked segment and semaphore, a handle that
    [__init__] builds for the same name, persistent again and with a
    timeout that is not negative, is fresh with
    the items the change has left, so that every query on it answers
    from them. *)
Theorem reopen_reads_file `{Platform}
    (tid tid2 : nat) (o : op) (st : state) (nm0 snm : pystr) (v timeout : Z)
    (unlock : bool) (m m' : pydict) :
  steady tid st snm v m ->
  name (self st) = nm0 ->
  safe_sem_name (self st) = Ret snm ->
  segment_of st = safe_shm_name (self st) ->
  persist_file (self st) = Some (os_path_resolve (name (self st))) ->
  writable st ->
  effect o m = Some m' ->
  codec_supports (ODict m') ->
  blank_rejected ->
  (0 <= timeout)%Z ->
  let st1 := run (call tid o) st in
  let st2 := run __del__ st1 in
  let reopened := boot (__init__ tid2 nm0 true timeout unlock) (os st2) in
  fst (call tid o st) = Ret NoResult /\
  fst (__del__ st1) = Ret tt /\
  fresh tid2 reopened snm 1 m' /\
  (forall q, is_query q = true -> fst (call tid2 q reopened) = answer q m').
Proof.
  intros Hs <- Hsn Hown Hpath Hwr He Hcodec Hblank Htime st1 st2 reopened.
  assert (Hpos : (0 <= v - 1)%Z) by (destruct Hs as ((_ & _ & Hv & _) & _); lia).
  replace v with (v - 1 + 1)%Z in Hs by lia.
  destruct (mutation_run tid o st snm (v - 1) m m' (or_introl Hs) Hpos He Hcodec Hwr)
    as (Hr & Hst & Hv1 & Hpers & _).
  fold st1 in Hst, Hv1, Hpers.
  pose proof (call_handle tid o st) as Fh. fold (run (call tid o) st) in Fh.
  fold st1 in Fh. unfold handle_of in Fh. injection Fh as Fname Fpers Fseg.
  destruct Hst as ((_ & Hof1 & _) & _ & (_ & bs & Hview & _)).
  unfold view in Hview.
  destruct (_map_file (self st1)) as [nm|] eqn:Hm1; [|discriminate Hview].
  destruct (shms (os st1) !! nm) as [seg|] eqn:Hseg1; [|discriminate Hview].
  assert (Hshn : safe_shm_name (self st) = Ret nm).
  { rewrite <- Hown, <- Fseg. unfold segment_of. rewrite Hm1. reflexivity. }
  assert (Hshn1 : safe_shm_name (self st1) = Ret nm).
  { rewrite <- Hshn. apply safe_name_same. exact Fname. }
  pose proof (del_run st1 nm snm Hshn1
                (or_intror (conj Hm1 (ex_intro _ seg Hseg1))) Hof1
                (or_intror (ex_intro _ _ Hv1))) as Hdel.
  assert (Hst2 : st2 = destroyed nm snm st1).
  { unfold st2, run. rewrite Hdel. reflexivity. }
  assert (Hfr : fresh tid2 reopened snm (0 + 1) m').
  { unfold reopened. apply init_fresh with (shm := nm).
    - exact Htime.
    - rewrite <- Hsn. apply safe_name_same. reflexivity.
    - rewrite <- Hshn. apply safe_name_same. reflexivity.
    - rewrite Hst2. cbn. apply lookup_delete_eq.
    - rewrite Hst2. cbn. apply lookup_delete_eq.
    - exact Hblank.
    - unfold initial, file_outcome. cbn [boot self os __init__ persist_file].
      rewrite Hst2. cbn [destroyed os files].
      rewrite (Hpers _ (eq_trans Fpers Hpath)).
      rewrite <- (app_nil_r (pickle_dumps_2 (ODict m'))), Hcodec. reflexivity. }
  split; [exact Hr|]. split; [rewrite Hdel; reflexivity|].
  split; [exact Hfr|]. intros q Hq.
  apply (query_run tid2 q reopened snm 0 m' (or_intror (or_intror Hfr)) Hq).
Qed.

(** The persistent dictionary of the test suite after one store. *)
Lemma reopen_reads_file_witness :
  fst (call 0 (GetItem (str "K1"))
         (boot (__init__ 0 per_path true 0 false)
            (os (run __del__
                   (run (call 0 (SetItem (str "K2") (str "V2")))
                      (run (call 0 (SetItem (str "K1") (str "V1")))
                         (boot per_shm_dict empty_world)))))))
  = Ret (Value (str "V1")).
Proof.
  epose proof (reopen_reads_file 0 0 (SetItem (str "K2") (str "V2"))
                 (run (call 0 (SetItem (str "K1") (str "V1")))
                    (boot per_shm_dict empty_world))
                 per_path _ 1 0 false [(str "K1", str "V1")] _) as HT.
  cbv zeta in HT. edestruct HT as (_ & _ & _ & Hq).
  - steady_here.
  - vm_compute. reflexivity.
  - vm_compute. reflexivity.
  - vm_compute. reflexivity.
  - vm_compute. reflexivity.
  - intros path Hp Hf. vm_compute in Hp. injection Hp as <-.
    vm_compute in Hf. discriminate Hf.
  - reflexivity.
  - intros tail. vm_compute. reflexivity.
  - exact cpython_blank_rejected.
  - lia.
  - rewrite Hq by reflexivity. vm_compute. reflexivity.
Defined.

(** X17. The comparison methods look at the segment name only:
    [__ne__] is the negation of [__eq__]; an object that is not an
    [SHMDict] is never equal; a handle with the same name is equal
    whatever its other settings and whatever the two hold (or the
    comparison raises, when the name cannot be encoded); equal handles
    have the same segment name; and the comparison is symmetric. *)
Theorem eq_by_segment_name `{Platform} (h : handle) :
  (forall other,
     __ne__ h other = match __eq__ h other with
                      | Ret b => Ret (negb b)
                      | Raise e => Raise e
                      end) /\
  __eq__ h None = Ret false /\
  (forall h', name h' = name h ->
     __eq__ h (Some h') = match safe_shm_name h with
                          | Ret _ => Ret true
                          | Raise e => Raise e
                          end) /\
  (forall h', __eq__ h (Some h') = Ret true ->
              safe_shm_name h' = safe_shm_name h) /\
  (forall h', __eq__ h (Some h') = __eq__ h' (Some h)).
Proof.
  split; [|split; [reflexivity|split; [|split]]].
  - intros [h'|]; [|reflexivity]. unfold __ne__, __eq__.
    destruct (safe_shm_name h); [|reflexivity].
    destruct (safe_shm_name h'); reflexivity.
  - intros h' Hname. unfold __eq__, safe_shm_name.
    rewrite (safe_name_same h h' _ Hname).
    destruct (_safe_name h _) as [a|e]; [|reflexivity].
    rewrite bool_decide_eq_true_2 by reflexivity. reflexivity.
  - intros h'. unfold __eq__.
    destruct (safe_shm_name h) as [a|e]; [|discriminate].
    destruct (safe_shm_name h') as [b|e]; [|discriminate].
    intros [= Hb]. apply bool_decide_eq_true in Hb. congruence.
  - intros h'. unfold __eq__.
    destruct (safe_shm_name h) as [a|e] eqn:Ha;
      destruct (safe_shm_name h') as [b|e'] eqn:Hb; try reflexivity.
    + f_equal. apply bool_decide_ext. split; congruence.
    + apply safe_name_raises in Ha, Hb. congruence.
Qed.

Lemma eq_by_segment_name_witness :
  __eq__ vol_shm_dict (Some bypass_dict) = Ret true /\
  __ne__ vol_shm_dict None = Ret true.
Proof.
  destruct (eq_by_segment_name vol_shm_dict) as (Hne & _ & Hsame & _).
  split.
  - rewrite (Hsame bypass_dict eq_refl). vm_compute. reflexivity.
  - rewrite Hne. reflexivity.
Defined.

(** X18. The [semaphore] property opens the named semaphore once: a
    second access returns the same semaphore and changes nothing; no
    semaphore that exists changes its value; one that does not exist is
    created with value 1. *)
Theorem semaphore_opened_once `{Platform} (st st' : state) (nm : pystr) :
  semaphore st = (Ret nm, st') ->
  semaphore st' = (Ret nm, st') /\
  _semaphore (self st') = Some nm /\
  (forall n v, sems (os st) !! n = Some v -> sems (os st') !! n = Some v) /\
  (_semaphore (self st) = None ->
     sems (os st') !! nm = Some (default 1%Z (sems (os st) !! nm))) /\
  (shms (os st'), files (os st'), waited (os st'), heap st')
  = (shms (os st), files (os st), waited (os st), heap st).
Proof.
  unfold semaphore at 1. unfold bind at 1, get at 1.
  destruct (_semaphore (self st)) as [nm0|] eqn:Hsem.
  - intros [= <- <-]. unfold semaphore, bind, get. rewrite Hsem.
    split; [reflexivity|]. split; [reflexivity|]. split; [intros n v Hv; exact Hv|].
    split; [discriminate|reflexivity].
  - unfold bind, lift. destruct (safe_sem_name (self st)) as [nm0|e]; [|discriminate].
    destruct (sems (os st) !! nm0) as [v0|] eqn:Hv0; cbn; intros [= <- <-];
      (split; [reflexivity|]); (split; [reflexivity|]); cbn.
    + split; [intros n v Hv; exact Hv|].
      split; [intros _; rewrite Hv0; reflexivity|reflexivity].
    + split; [|split; [intros _; rewrite lookup_insert_eq, Hv0; reflexivity
                      |reflexivity]].
      intros n v Hv. rewrite lookup_insert_ne by congruence. exact Hv.
Qed.

Lemma semaphore_opened_once_witness :
  sem_value (run semaphore (boot vol_shm_dict empty_world)) = Some 1%Z /\
  fst (semaphore (run semaphore (boot vol_shm_dict empty_world)))
  = fst (semaphore (boot vol_shm_dict empty_world)).
Proof.
  epose proof (semaphore_opened_once (boot vol_shm_dict empty_world)
                 (run semaphore (boot vol_shm_dict empty_world)) _) as HT.
  edestruct HT as (Hagain & Ho & _ & Hv & _).
  - apply run_result. vm_compute. reflexivity.
  - split.
    + unfold sem_value. rewrite Ho. rewrite Hv by reflexivity. reflexivity.
    + rewrite Hagain. vm_compute. reflexivity.
Defined.

(** ** A timeout that [acquire] refuses *)

Section Refused.
Context {P : Platform}.

Lemma lock_step_refused (tid : nat) (st : state) (snm : pystr) (t : Z) :
  semaphore_of st = Some snm ->
  (t < 0)%Z ->
  exists s1,
    (nm <- semaphore;; sem_acquire nm t;; set_held tid true) st
    = (Raise TypeError, s1) /\
    __thread_local (self s1) = __thread_local (self st) /\
    (forall n v, sems (os st) !! n = Some v -> sems (os s1) !! n = Some v) /\
    (shms (os s1), files (os s1), waited (os s1), heap s1,
     __internal_dict (self s1), __dirty (self s1))
    = (shms (os st), files (os st), waited (os st), heap st,
       __internal_dict (self st), __dirty (self st)).
Proof.
  intros Hof Hneg.
  assert (Hacq : forall nm s, (sem_acquire nm t;; set_held tid true) s
                              = (Raise TypeError, s)).
  { intros nm s. unfold bind, sem_acquire.
    destruct (decide (t < 0)%Z) as [_|Hn]; [reflexivity|lia]. }
  assert (Hsem : exists s1,
             semaphore st = (Ret snm, s1) /\
             __thread_local (self s1) = __thread_local (self st) /\
             (forall n v, sems (os st) !! n = Some v -> sems (os s1) !! n = Some v) /\
             (shms (os s1), files (os s1), waited (os s1), heap s1,
              __internal_dict (self s1), __dirty (self s1))
             = (shms (os st), files (os st), waited (os st), heap st,
                __internal_dict (self st), __dirty (self st))).
  { unfold semaphore_of in Hof. unfold semaphore, bind, get.
    destruct (_semaphore (self st)) as [nm0|] eqn:Hsem.
    - injection Hof as ->. eexists. split; [reflexivity|].
      split; [reflexivity|]. split; [intros n v Hv; exact Hv|reflexivity].
    - destruct (safe_sem_name (self st)) as [nm0|e]; [|discriminate Hof].
      injection Hof as ->. unfold lift.
      destruct (sems (os st) !! snm) as [v0|] eqn:Hv0; cbn;
        eexists; (split; [reflexivity|]); (split; [reflexivity|]); cbn;
        (split; [|reflexivity]); intros n v Hv; [exact Hv|].
      rewrite lookup_insert_ne by congruence. exact Hv. }
  destruct Hsem as (s1 & Hrun & Hrest).
  exists s1. split; [|exact Hrest].
  unfold bind at 1. rewrite Hrun. apply Hacq.
Qed.
End Refused.

(** X19. A negative [lock_timeout] is refused by [acquire]: every
    mapping operation of a thread that does not hold the lock raises
    [TypeError] once the semaphore is opened, before the dictionary is
    loaded; the thread's flag stays clear, no semaphore that exists
    changes its value, and the segments, the files, the dict objects,
    the cache and the dirty flag are as they were. *)
Theorem negative_timeout_refused `{Platform}
    (tid : nat) (o : op) (st : state) (snm : pystr) :
  held tid st = Some false ->
  semaphore_of st = Some snm ->
  (lock_timeout (self st) < 0)%Z ->
  let st' := run (call tid o) st in
  fst (call tid o st) = Raise TypeError /\
  held tid st' = Some false /\
  (forall n v, sems (os st) !! n = Some v -> sems (os st') !! n = Some v) /\
  (shms (os st'), files (os st'), waited (os st'), heap st',
   __internal_dict (self st'), __dirty (self st'))
  = (shms (os st), files (os st), waited (os st), heap st,
     __internal_dict (self st), __dirty (self st)).
Proof.
  intros Hheld Hof Hneg st'.
  destruct (lock_step_refused tid st snm _ Hof Hneg) as (s1 & Hstep & Hl & Hs & Hrest).
  assert (Hrun : call tid o st = (Raise TypeError, s1)).
  { rewrite call_body. unfold exclusive_lock. unfold bind at 1.
    rewrite acquire_lock_run. unfold held in Hheld. rewrite Hheld, Hstep.
    reflexivity. }
  unfold st', run. rewrite Hrun. cbn [fst snd].
  split; [reflexivity|]. split; [unfold held; rewrite Hl; exact Hheld|].
  split; [exact Hs|exact Hrest].
Qed.

Lemma negative_timeout_refused_witness :
  fst (call 0 Len (boot (__init__ 0 (lit "PyTestSHMDict") false (-1) false)
                        empty_world))
  = Raise TypeError.
Proof.
  epose proof (negative_timeout_refused 0 Len
                 (boot (__init__ 0 (lit "PyTestSHMDict") false (-1) false)
                       empty_world) _) as HT.
  cbv zeta in HT. edestruct HT as (Hr & _).
  - vm_compute. reflexivity.
  - vm_compute. reflexivity.
  - vm_compute. reflexivity.
  - exact Hr.
Defined.
